(** * Volar language tooling: formatting orchestrator, custom-block plugin
      and template service plugin.

    Shallow embedding of
      - the formatting orchestrator ([register] and its passes),
      - [packages/language-core/src/plugins/vue-sfc-customblocks.ts],
      - [packages/language-service/src/plugins/vue-template.ts].

    JavaScript strings are modelled by [string]; a character stands for
    one UTF-16 code unit below 256.  Offsets, lines and columns are [nat]. *)

From Stdlib Require Import String Ascii List Arith Lia Bool ZArith Sorted.
From Stdlib Require Import DecimalString DecimalNat.
Import ListNotations.
Open Scope list_scope.
Open Scope string_scope.

(** ** JavaScript string primitives used by the sources *)

Module JsString.

Definition LF : ascii := "010"%char.
Definition CR : ascii := "013"%char.
Definition nl : string := String LF "".

(** [s.length - n] leading characters removed / kept. *)
Fixpoint drop (n : nat) (s : string) : string :=
  match n, s with
  | 0, _ => s
  | S _, "" => ""
  | S n', String _ s' => drop n' s'
  end.

Fixpoint take (n : nat) (s : string) : string :=
  match n, s with
  | 0, _ => ""
  | S _, "" => ""
  | S n', String c s' => String c (take n' s')
  end.

(** [String.prototype.startsWith]. *)
Definition startsWith (s pre : string) : bool := String.prefix pre s.

(** [String.prototype.substring(a, b)]: both ends are clamped to the
    length and swapped when [a > b]. *)
Definition substring (a b : nat) (s : string) : string :=
  let a' := Nat.min a (String.length s) in
  let b' := Nat.min b (String.length s) in
  take (Nat.max a' b' - Nat.min a' b') (drop (Nat.min a' b') s).

(** [String.prototype.substr(start, length)]. *)
Definition substr (start len : nat) (s : string) : string :=
  take len (drop start s).

(** [String.prototype.includes]. *)
Fixpoint includes (s sub : string) : bool :=
  String.prefix sub s ||
  match s with
  | "" => false
  | String _ s' => includes s' sub
  end.

(** [s.indexOf(sub)], with [None] for the result [-1]. *)
Fixpoint indexOf (s sub : string) : option nat :=
  if String.prefix sub s then Some 0
  else match s with
       | "" => None
       | String _ s' => option_map S (indexOf s' sub)
       end.

(** [String.prototype.split(sep)] for a non-empty separator.  [skip]
    counts the characters of a separator occurrence still to be passed
    over; [cur] is the piece being accumulated. *)
Fixpoint split_go (sep : string) (skip : nat) (cur : string) (s : string)
  : list string :=
  match s with
  | "" => [cur]
  | String c s' =>
      match skip with
      | S k => split_go sep k cur s'
      | 0 =>
          if String.prefix sep s
          then cur :: split_go sep (String.length sep - 1) "" s'
          else split_go sep 0 (cur ++ String c "") s'
      end
  end.

Definition split (s sep : string) : list string := split_go sep 0 "" s.

(** [Array.prototype.join(sep)]. *)
Definition join (l : list string) (sep : string) : string :=
  String.concat sep l.

(** [s.replace(pat, rep)] with a string pattern: the first occurrence of
    [pat] is replaced.  The replacement strings passed by the sources
    are the empty string or a run of white space, so no [$] pattern of the
    replacement syntax can occur in them. *)
Fixpoint replace (s pat rep : string) : string :=
  if String.prefix pat s then rep ++ drop (String.length pat) s
  else match s with
       | "" => ""
       | String c s' => String c (replace s' pat rep)
       end.

(** White space and line terminators of ECMAScript among the code units
    below 256: TAB, LF, VT, FF, CR, SP, NBSP. *)
Definition isWhiteSpace (c : ascii) : bool :=
  match nat_of_ascii c with
  | 9 | 10 | 11 | 12 | 13 | 32 | 160 => true
  | _ => false
  end.

(** [String.prototype.trimStart]. *)
Fixpoint trimStart (s : string) : string :=
  match s with
  | "" => ""
  | String c s' => if isWhiteSpace c then trimStart s' else s
  end.

(** The leading white space of [s], as a specification of the idiom
    [s.substr(0, s.length - s.trimStart().length)]. *)
Fixpoint leadingWhiteSpace (s : string) : string :=
  match s with
  | "" => ""
  | String c s' =>
      if isWhiteSpace c then String c (leadingWhiteSpace s') else ""
  end.

(** Decimal rendering of a number ([String(i)] for a non-negative integer)
    and [parseInt] on a run of decimal digits. *)
Definition numberToString (n : nat) : string :=
  NilZero.string_of_uint (Nat.to_uint n).

Definition parseInt (s : string) : option nat :=
  option_map Nat.of_uint (NilEmpty.uint_of_string s).

(** The decimal digits, the class [\d]. *)
Definition isDigit (c : ascii) : bool :=
  Nat.leb 48 (nat_of_ascii c) && Nat.leb (nat_of_ascii c) 57.

(** Every character of [s] is in the class [cls]. *)
Fixpoint allChars (cls : ascii -> bool) (s : string) : bool :=
  match s with
  | "" => true
  | String c s' => cls c && allChars cls s'
  end.

(** *** Facts *)

Lemma length_append (s t : string) :
  String.length (s ++ t) = String.length s + String.length t.
Proof. induction s as [|c s IH]; simpl; [reflexivity | now rewrite IH]. Qed.

Lemma append_nil_r (s : string) : s ++ "" = s.
Proof. induction s as [|c s IH]; simpl; [reflexivity | now rewrite IH]. Qed.

Lemma append_assoc (s t u : string) : (s ++ t) ++ u = s ++ (t ++ u).
Proof. induction s as [|c s IH]; simpl; [reflexivity | now rewrite IH]. Qed.

Lemma prefix_append (p s : string) : String.prefix p (p ++ s) = true.
Proof.
  induction p as [|c p IH]; simpl.
  - now destruct s.
  - destruct (ascii_dec c c) as [_|N]; [exact IH | now elim N].
Qed.

Lemma prefix_split (p s : string) :
  String.prefix p s = true -> s = p ++ drop (String.length p) s.
Proof.
  revert s; induction p as [|c p IH]; intros s H; simpl.
  - reflexivity.
  - destruct s as [|d s]; simpl in H; [discriminate|].
    destruct (ascii_dec c d) as [->|]; [|discriminate].
    simpl. f_equal. now apply IH.
Qed.

Lemma drop_append (p s : string) : drop (String.length p) (p ++ s) = s.
Proof. induction p as [|c p IH]; simpl; [reflexivity | exact IH]. Qed.

Lemma take_append (p s : string) : take (String.length p) (p ++ s) = p.
Proof. induction p as [|c p IH]; simpl; [reflexivity | now rewrite IH]. Qed.

Lemma take_drop (n : nat) (s : string) : take n s ++ drop n s = s.
Proof.
  revert s; induction n as [|n IH]; intros [|c s]; simpl; try reflexivity.
  now rewrite IH.
Qed.

Lemma length_drop (n : nat) (s : string) :
  String.length (drop n s) = String.length s - n.
Proof.
  revert s; induction n as [|n IH]; intros [|c s]; simpl; try reflexivity.
  apply IH.
Qed.

Lemma leading_trim (s : string) : leadingWhiteSpace s ++ trimStart s = s.
Proof.
  induction s as [|c s IH]; simpl; [reflexivity|].
  destruct (isWhiteSpace c); simpl; [now rewrite IH | reflexivity].
Qed.

Lemma leadingWhiteSpace_white (s : string) :
  allChars isWhiteSpace (leadingWhiteSpace s) = true.
Proof.
  induction s as [|c s IH]; simpl; [reflexivity|].
  destruct (isWhiteSpace c) eqn:E; simpl; [now rewrite E | reflexivity].
Qed.

(** A run of white space holds no [$], the character that starts the
    patterns of a replacement string. *)
Lemma white_no_dollar (s : string) :
  allChars isWhiteSpace s = true -> includes s "$" = false.
Proof.
  induction s as [|c s IH]; [reflexivity|].
  cbn [allChars includes String.prefix].
  intros H. apply andb_prop in H as [Hc Hs]. rewrite (IH Hs), orb_false_r.
  destruct (ascii_dec "$" c) as [<-|]; [discriminate | reflexivity].
Qed.

(** The [substr]/[trimStart] idiom of the sources computes the leading
    white space. *)
Lemma substr_trimStart (s : string) :
  substr 0 (String.length s - String.length (trimStart s)) s
  = leadingWhiteSpace s.
Proof.
  unfold substr; simpl.
  rewrite <- (leading_trim s) at 1 3.
  rewrite length_append, Nat.add_sub.
  apply take_append.
Qed.

(** Replacing a pattern the string starts with replaces that prefix. *)
Lemma replace_startsWith (s pat rep : string) :
  startsWith s pat = true ->
  replace s pat rep = rep ++ drop (String.length pat) s.
Proof.
  unfold startsWith. intros H. destruct s as [|c s].
  - destruct pat; [reflexivity | discriminate].
  - cbn [replace]. now rewrite H.
Qed.

(** Replacing an absent pattern changes nothing. *)
Lemma replace_absent (s pat rep : string) :
  includes s pat = false -> replace s pat rep = s.
Proof.
  induction s as [|c s IH]; simpl; intros H.
  - apply orb_false_elim in H as [-> _]. reflexivity.
  - apply orb_false_elim in H as [-> H]. f_equal. now apply IH.
Qed.

Lemma includes_false_prefix (s sub : string) :
  includes s sub = false -> String.prefix sub s = false.
Proof.
  destruct s; cbn [includes]; intros H; now apply orb_false_elim in H.
Qed.

Lemma substring_comm (a b : nat) (s : string) :
  substring a b s = substring b a s.
Proof.
  unfold substring. cbv zeta. f_equal; [lia | f_equal; lia].
Qed.

Lemma substring_clamp_l (a b : nat) (s : string) :
  substring (Nat.min a (String.length s)) b s = substring a b s.
Proof.
  unfold substring. cbv zeta. f_equal; [lia | f_equal; lia].
Qed.

Lemma split_go_not_nil (sep : string) (skip : nat) (cur s : string) :
  split_go sep skip cur s <> [].
Proof.
  revert skip cur; induction s as [|c s IH]; intros skip cur; cbn [split_go].
  - discriminate.
  - destruct skip; [|apply IH].
    destruct (String.prefix sep (String c s)); [discriminate | apply IH].
Qed.

(** Splitting a string in which the separator does not occur. *)
Lemma split_go_absent (sep cur s : string) :
  includes s sep = false -> split_go sep 0 cur s = [cur ++ s].
Proof.
  revert cur; induction s as [|c s IH]; intros cur H.
  - simpl. now rewrite append_nil_r.
  - cbn [includes] in H. apply orb_false_elim in H as [Hp H].
    cbn [split_go]. rewrite Hp, (IH _ H), append_assoc. reflexivity.
Qed.

Lemma prefix_nil (s : string) : String.prefix "" s = true.
Proof. now destruct s. Qed.

(** Splitting at a one-character separator: the text in front of the
    first separator is the first piece. *)
Lemma split_go_char (c : ascii) (cur a s : string) :
  includes a (String c "") = false ->
  split_go (String c "") 0 cur (a ++ String c s)
  = (cur ++ a) :: split_go (String c "") 0 "" s.
Proof.
  revert cur; induction a as [|d a IH]; intros cur H.
  - cbn [append split_go String.prefix].
    destruct (ascii_dec c c) as [_|N]; [|now elim N].
    rewrite prefix_nil, append_nil_r. reflexivity.
  - cbn [includes] in H. apply orb_false_elim in H as [Hp H].
    cbn [append split_go]. 
    assert (Hp' : String.prefix (String c "") (String d (a ++ String c s))
                  = false).
    { cbn [String.prefix] in *. destruct (ascii_dec c d); [|reflexivity].
      now rewrite prefix_nil in Hp. }
    rewrite Hp', (IH _ H), append_assoc. reflexivity.
Qed.

(** [split] undoes [join] on a non-empty list of pieces without the
    separator character. *)
Lemma split_join_char (c : ascii) (l : list string) :
  l <> [] ->
  Forall (fun a => includes a (String c "") = false) l ->
  split (join l (String c "")) (String c "") = l.
Proof.
  unfold split, join. induction l as [|a l IH]; intros Hne Hl; [now elim Hne|].
  inversion Hl as [|? ? Ha Hl']; subst.
  destruct l as [|b l].
  - simpl. now apply split_go_absent.
  - cbn [String.concat]. cbn [append].
    rewrite (split_go_char c "" a _ Ha). cbn [append].
    f_equal. apply IH; [discriminate | exact Hl'].
Qed.

(** Two pieces without [::] joined by a comma have no [::]. *)
Lemma includes_colons_comma (a b : string) :
  includes a "::" = false -> includes b "::" = false ->
  includes (a ++ "," ++ b) "::" = false.
Proof.
  intros Ha Hb. change (a ++ "," ++ b) with (a ++ String "," b).
  induction a as [|c a IH].
  - cbn [append includes]. rewrite Hb. reflexivity.
  - cbn [includes] in Ha. apply orb_false_elim in Ha as [Hp Ha].
    cbn [append includes]. rewrite (IH Ha), orb_false_r.
    cbn [String.prefix] in *. destruct (ascii_dec ":" c); [|reflexivity].
    destruct a as [|d a]; [reflexivity|].
    cbn [append String.prefix] in *.
    destruct (ascii_dec ":" d); [|reflexivity].
    now rewrite prefix_nil in Hp.
Qed.

Lemma includes_colons_join (l : list string) :
  Forall (fun a => includes a "::" = false) l ->
  includes (join l ",") "::" = false.
Proof.
  unfold join. induction l as [|a l IH]; intros Hl; [reflexivity|].
  inversion Hl as [|? ? Ha Hl']; subst.
  destruct l as [|b l]; [exact Ha|].
  cbn [String.concat]. apply includes_colons_comma; [exact Ha | now apply IH].
Qed.

(** In a text that ends with a separator followed by a piece without
    it, the place of that separator is determined. *)
Lemma append_sep_unique (c : ascii) (x x' y y' : string) :
  x ++ String c y = x' ++ String c y' ->
  allChars (fun d => negb (Ascii.eqb d c)) y = true ->
  allChars (fun d => negb (Ascii.eqb d c)) y' = true ->
  x = x' /\ y = y'.
Proof.
  assert (Hno : forall a b,
             allChars (fun d => negb (Ascii.eqb d c)) (a ++ String c b)
             = false).
  { induction a as [|d a IH]; intros b; simpl.
    - now rewrite Ascii.eqb_refl.
    - rewrite IH. apply andb_false_r. }
  revert x'; induction x as [|d x IH]; intros [|d' x'] H Hy Hy'; simpl in H.
  - injection H as ->. now split.
  - injection H as <- ->. now rewrite Hno in Hy.
  - injection H as -> <-. now rewrite Hno in Hy'.
  - injection H as -> H. destruct (IH _ H Hy Hy') as [-> ->]. now split.
Qed.

(** The decimal rendering of a number is a non-empty run of digits that
    [parseInt] reads back. *)
Lemma string_of_uint_digits (d : Decimal.uint) :
  allChars isDigit (NilEmpty.string_of_uint d) = true.
Proof. induction d; simpl; auto. Qed.

Lemma numberToString_digits (n : nat) :
  allChars isDigit (numberToString n) = true.
Proof.
  unfold numberToString, NilZero.string_of_uint.
  destruct (Nat.to_uint n) eqn:E; try reflexivity;
    rewrite <- E; apply string_of_uint_digits.
Qed.

Lemma numberToString_nonempty (n : nat) : numberToString n <> "".
Proof.
  unfold numberToString, NilZero.string_of_uint.
  destruct (Nat.to_uint n); discriminate.
Qed.

Lemma parseInt_numberToString (n : nat) : parseInt (numberToString n) = Some n.
Proof.
  unfold parseInt, numberToString, NilZero.string_of_uint.
  pose proof (DecimalNat.Unsigned.of_to n) as H.
  destruct (Nat.to_uint n);
    try (rewrite NilEmpty.usu; cbn [option_map]; now rewrite H).
  simpl in *. now subst.
Qed.

End JsString.

(** ** Calls that may throw *)

Module Throwing.

(** The outcome of a call: a returned value, or an exception. *)
Inductive result (A : Type) : Type :=
| Ok (a : A)
| Throw.
Arguments Ok {A} a.
Arguments Throw {A}.

Definition bind {A B} (c : result A) (k : A -> result B) : result B :=
  match c with
  | Ok a => k a
  | Throw => Throw
  end.

Definition ofOption {A} (o : option A) : result A :=
  match o with
  | Some a => Ok a
  | None => Throw
  end.

End Throwing.

(** ** Text documents ([vscode-languageserver-textdocument])

    Positions are line/column pairs; a document keeps the offsets at which
    its lines start.  [positionAt] and [offsetAt] clamp their argument to
    the document, and [getText] on a range is a [substring] between the
    two offsets. *)

Module TextDocument.
Import JsString.

Record Position := { line : nat; character : nat }.

Record Range := { start : Position; end_ : Position }.

Record TextEdit := { range : Range; newText : string }.

Record t := {
  uri : string;
  languageId : string;
  version : nat;
  content : string
}.

Definition create (uri languageId : string) (version : nat) (content : string)
  : t :=
  {| uri := uri; languageId := languageId; version := version;
     content := content |}.

(** Offsets following a line break in [s], whose first character has
    offset [i]; CR LF counts as one break. *)
Fixpoint lineOffsetsFrom (i : nat) (s : string) : list nat :=
  match s with
  | "" => []
  | String c s' =>
      if Ascii.eqb c CR then
        match s' with
        | String d s'' =>
            if Ascii.eqb d LF then (i + 2) :: lineOffsetsFrom (i + 2) s''
            else (i + 1) :: lineOffsetsFrom (i + 1) s'
        | "" => [i + 1]
        end
      else if Ascii.eqb c LF then (i + 1) :: lineOffsetsFrom (i + 1) s'
      else lineOffsetsFrom (i + 1) s'
  end.

Definition getLineOffsets (d : t) : list nat :=
  0 :: lineOffsetsFrom 0 (content d).

(** The line search of [positionAt]: the library bisects the line table
    for the first line starting after [offset]; walking the table from
    its head stops at the same line. *)
Fixpoint locate (lineStart ln : nat) (rest : list nat) (offset : nat)
  : Position :=
  match rest with
  | o :: rest' =>
      if Nat.leb o offset then locate o (S ln) rest' offset
      else {| line := ln; character := offset - lineStart |}
  | [] => {| line := ln; character := offset - lineStart |}
  end.

Definition positionAt (d : t) (offset : nat) : Position :=
  let offset := Nat.min offset (String.length (content d)) in
  match getLineOffsets d with
  | [] => {| line := 0; character := offset |}
  | o :: rest => locate o 0 rest offset
  end.

Definition offsetAt (d : t) (p : Position) : nat :=
  let offs := getLineOffsets d in
  if Nat.leb (List.length offs) (line p) then String.length (content d)
  else
    let lineOffset := nth (line p) offs 0 in
    let nextLineOffset :=
      if Nat.ltb (line p + 1) (List.length offs) then nth (line p + 1) offs 0
      else String.length (content d) in
    Nat.max (Nat.min (lineOffset + character p) nextLineOffset) lineOffset.

(** [document.getText()] is [content]; [document.getText(range)]: *)
Definition getText (d : t) (r : Range) : string :=
  substring (offsetAt d (start r)) (offsetAt d (end_ r)) (content d).

(** [TextDocument.applyEdits]: ranges are put in order, the edits are
    sorted by start position (a stable sort) and applied from the start
    of the text; an edit that starts before the end of its predecessor
    makes the call throw, which is [None] here. *)
Definition positionBefore (p q : Position) : bool :=
  Nat.ltb (line p) (line q)
  || (Nat.eqb (line p) (line q) && Nat.ltb (character p) (character q)).

Definition getWellformedEdit (e : TextEdit) : TextEdit :=
  if positionBefore (end_ (range e)) (start (range e))
  then {| range := {| start := end_ (range e); end_ := start (range e) |};
          newText := newText e |}
  else e.

Fixpoint insertEdit (e : TextEdit) (l : list TextEdit) : list TextEdit :=
  match l with
  | [] => [e]
  | y :: l' =>
      if positionBefore (start (range y)) (start (range e))
      then y :: insertEdit e l'
      else e :: l
  end.

Definition sortEdits (l : list TextEdit) : list TextEdit :=
  fold_right insertEdit [] l.

Fixpoint applySorted (d : t) (lastModifiedOffset : nat) (l : list TextEdit)
  : option string :=
  match l with
  | [] => Some (drop lastModifiedOffset (content d))
  | e :: l' =>
      let startOffset := offsetAt d (start (range e)) in
      if Nat.ltb startOffset lastModifiedOffset then None
      else
        match applySorted d (offsetAt d (end_ (range e))) l' with
        | None => None
        | Some tail =>
            Some (substring lastModifiedOffset startOffset (content d)
                  ++ newText e ++ tail)
        end
  end.

Definition applyEdits (d : t) (edits : list TextEdit) : option string :=
  applySorted d 0 (sortEdits (map getWellformedEdit edits)).

(** [TextEdit.replace]. *)
Definition replace (r : Range) (newText : string) : TextEdit :=
  {| range := r; newText := newText |}.

(** *** Facts *)

Lemma skipn_cons_nth {A} (n : nat) (l r : list A) (x d : A) :
  skipn n l = x :: r ->
  nth n l d = x /\ skipn (S n) l = r /\ n < List.length l.
Proof.
  revert l; induction n as [|n IH]; intros [|y l] H; simpl in *;
    try discriminate.
  - injection H as -> ->. repeat split; lia.
  - destruct (IH _ H) as (H1 & H2 & H3). repeat split; auto; lia.
Qed.

(** [locate] returns a line of the table that starts at or before
    [offset] and whose successor, if any, starts after it. *)
Lemma locate_spec (offs rest : list nat) (ls ln offset : nat) :
  skipn ln offs = ls :: rest -> ls <= offset ->
  let p := locate ls ln rest offset in
  line p < List.length offs /\
  nth (line p) offs 0 <= offset /\
  character p = offset - nth (line p) offs 0 /\
  (line p + 1 < List.length offs -> offset < nth (line p + 1) offs 0).
Proof.
  revert ls ln; induction rest as [|o rest IH]; intros ls ln Hs Hle; simpl.
  - destruct (skipn_cons_nth _ _ _ _ 0 Hs) as (H1 & H2 & H3).
    rewrite H1. repeat split; auto.
    intros Hlt. exfalso.
    assert (Hl : List.length (skipn (S ln) offs) = 0) by now rewrite H2.
    rewrite length_skipn in Hl. lia.
  - destruct (skipn_cons_nth _ _ _ _ 0 Hs) as (H1 & H2 & H3).
    destruct (Nat.leb_spec o offset) as [Ho|Ho].
    + apply IH; auto.
    + simpl. rewrite H1. repeat split; auto.
      intros _. replace (ln + 1) with (S ln) by lia.
      now destruct (skipn_cons_nth _ _ _ _ 0 H2) as (-> & _).
Qed.

(** A position obtained from an offset leads back to that offset,
    clamped to the document. *)
Lemma positionAt_locate (d : t) (n : nat) :
  positionAt d n
  = locate 0 0 (lineOffsetsFrom 0 (content d))
      (Nat.min n (String.length (content d))).
Proof. reflexivity. Qed.

Lemma offsetAt_positionAt (d : t) (n : nat) :
  offsetAt d (positionAt d n) = Nat.min n (String.length (content d)).
Proof.
  rewrite positionAt_locate.
  set (m := Nat.min n (String.length (content d))).
  assert (Hm : m <= String.length (content d)) by (unfold m; lia).
  pose proof (locate_spec (getLineOffsets d)
                (lineOffsetsFrom 0 (content d)) 0 0 m eq_refl (Nat.le_0_l m))
    as H.
  cbv zeta in H. unfold offsetAt.
  destruct (locate 0 0 (lineOffsetsFrom 0 (content d)) m) as [pl pc].
  cbn [line character] in *.
  generalize dependent (getLineOffsets d). intros offs (H1 & H2 & H3 & H4).
  destruct (Nat.leb_spec (List.length offs) pl); [lia|].
  subst pc.
  destruct (Nat.ltb_spec (pl + 1) (List.length offs));
    [specialize (H4 ltac:(assumption))|]; lia.
Qed.

Lemma lineOffsetsFrom_gt (n : nat) :
  forall s i, String.length s <= n ->
  Forall (fun o => i < o) (lineOffsetsFrom i s).
Proof.
  induction n as [|n IH]; intros [|c s] i Hn; simpl in *;
    try (constructor; fail); try lia.
  assert (Hlt : forall j, i < j -> Forall (fun o => j < o) (lineOffsetsFrom j s)
                -> Forall (fun o => i < o) (lineOffsetsFrom j s)).
  { intros j Hj H. eapply Forall_impl; [|exact H]. simpl; intros; lia. }
  assert (Hs : Forall (fun o => i < o) (lineOffsetsFrom (i + 1) s)).
  { apply Hlt; [lia|]. apply IH; lia. }
  destruct (Ascii.eqb c CR).
  - destruct s as [|c' s']; [repeat constructor; lia|].
    destruct (Ascii.eqb c' LF).
    + constructor; [lia|].
      eapply Forall_impl; [|apply (IH s' (i + 2)); simpl in Hn; lia].
      simpl; intros; lia.
    + constructor; [lia|exact Hs].
  - destruct (Ascii.eqb c LF); [constructor; [lia|]|]; exact Hs.
Qed.

(** The line table is strictly increasing, so that the bisection of the
    library and the walk of [locate] find the same line. *)
Lemma lineOffsetsFrom_sorted (n : nat) :
  forall s i, String.length s <= n ->
  StronglySorted lt (lineOffsetsFrom i s).
Proof.
  induction n as [|n IH]; intros [|c s] i Hn; simpl in *;
    try (constructor; fail); try lia.
  assert (Hs : forall j, StronglySorted lt (j :: lineOffsetsFrom j s)).
  { intros j. constructor; [apply IH; lia|].
    apply (lineOffsetsFrom_gt _ s j (le_n _)). }
  destruct (Ascii.eqb c CR).
  - destruct s as [|c' s']; [repeat constructor|].
    destruct (Ascii.eqb c' LF); [|apply Hs].
    constructor; [apply IH; simpl in Hn; lia|].
    apply (lineOffsetsFrom_gt _ s' (i + 2) (le_n _)).
  - destruct (Ascii.eqb c LF); [apply Hs | apply IH; lia].
Qed.

Lemma getLineOffsets_sorted (d : t) : StronglySorted lt (getLineOffsets d).
Proof.
  unfold getLineOffsets. constructor.
  - apply (lineOffsetsFrom_sorted _ _ _ (le_n _)).
  - apply (lineOffsetsFrom_gt _ _ _ (le_n _)).
Qed.

Lemma positionAt_0 (d : t) : positionAt d 0 = {| line := 0; character := 0 |}.
Proof.
  unfold positionAt, getLineOffsets. simpl.
  pose proof (lineOffsetsFrom_gt _ (content d) 0 (le_n _)) as H.
  destruct (lineOffsetsFrom 0 (content d)) as [|o rest]; [reflexivity|].
  simpl. inversion H; subst. destruct o; [lia|reflexivity].
Qed.

End TextDocument.

(** ** The formatting orchestrator *)

Module Formatting.
Import JsString.
Import Throwing.
Import TextDocument.

(** The capability flags read by the orchestrator. *)
Record Capabilities := { formatting : bool }.

Record MappingData := { capabilities : Capabilities }.

Record OffsetRange := { rangeStart : nat; rangeEnd : nat }.

(** A mapping entry, as met when iterating over a source map. *)
Record Mapping := { sourceRange : OffsetRange; data : MappingData }.

(** A source range returned by [getSourceRanges]: a range of the
    composite document together with the data of its mapping entry. *)
Record MappedRange := { mappedRange : Range; mappedData : MappingData }.

(** The part of a source map the orchestrator uses.  The projections
    [getSourceRange] and [getSourceRanges] belong to the source-map
    engine and are taken as given. *)
Record SourceMap := {
  mapCapabilities : Capabilities;
  mappedDocument : TextDocument.t;
  mappings : list Mapping;
  getSourceRange : Position -> Position -> option Range;
  getSourceRanges : Position -> Position -> list MappedRange
}.

Record SourceFile := {
  getTextDocument : TextDocument.t;
  getTemplateFormattingScript : option SourceMap;
  docLsScripts : list (option SourceMap);
  getCssSourceMaps : list SourceMap;
  getHtmlSourceMaps : list SourceMap;
  getPugSourceMaps : list SourceMap
}.

Record FormattingOptions := { tabSize : nat; insertSpaces : bool }.

Definition Formatter := TextDocument.t -> FormattingOptions -> list TextEdit.

Record Formatters := {
  html : Formatter;
  pug : Formatter;
  css : Formatter;
  less : Formatter;
  scss : Formatter;
  postcss : Formatter
}.

(** Modelled from the spec: [transformTextEdit] of [@volar/transforms] is
    not among the sources.  An edit is translated by translating its
    range and keeping its [newText]; an edit whose range has no range on
    the other side is dropped. *)
Definition transformTextEdit (textEdit : TextEdit)
  (getOtherRange : Range -> option Range) : option TextEdit :=
  match getOtherRange (range textEdit) with
  | Some r => Some {| range := r; newText := newText textEdit |}
  | None => None
  end.

(** *** Indentation repair *)

Definition getRemoveIndent (lines : list string) : string :=
  let lastLine := last lines "" in
  substr 0 (String.length lastLine - String.length (trimStart lastLine))
    lastLine.

Definition getBaseIndent (document : TextDocument.t) (maped : Mapping)
  : string :=
  let startPos := positionAt document (rangeStart (sourceRange maped)) in
  let startLineText :=
    getText document
      {| start := startPos;
         end_ := {| line := line startPos; character := 0 |} |} in
  substr 0
    (String.length startLineText - String.length (trimStart startLineText))
    startLineText.

(** The body of the loop over the interior lines. *)
Definition patchLine (removeIndent baseIndent line : string) : string :=
  if startsWith line removeIndent
  then JsString.replace line removeIndent baseIndent
  else JsString.replace baseIndent removeIndent "" ++ line.

Definition patchLines (removeIndent baseIndent : string)
  (lines : list string) : list string :=
  match lines with
  | [] => []
  | first :: interior =>
      first :: map (patchLine removeIndent baseIndent) interior
  end.

(** One iteration of the loop over the mapping entries: [None] for the
    two [continue]s, otherwise the edit pushed. *)
Definition patchMapping (document : TextDocument.t) (maped : Mapping)
  : option TextEdit :=
  if negb (formatting (capabilities (data maped))) then None
  else
    let textRange :=
      {| start := positionAt document (rangeStart (sourceRange maped));
         end_ := positionAt document (rangeEnd (sourceRange maped)) |} in
    let text := getText document textRange in
    match indexOf text nl with
    | None => None
    | Some _ =>
        let lines := split text nl in
        let removeIndent := getRemoveIndent lines in
        let baseIndent := getBaseIndent document maped in
        Some {| newText := join (patchLines removeIndent baseIndent lines) nl;
                range := textRange |}
    end.

Definition patchInterpolationIndent (sourceFile : SourceFile)
  : list TextEdit :=
  match getTemplateFormattingScript sourceFile with
  | None => []
  | Some tsSourceMap =>
      let document := getTextDocument sourceFile in
      fold_left
        (fun indentTextEdits maped =>
           match patchMapping document maped with
           | Some edit => (indentTextEdits ++ [edit])%list
           | None => indentTextEdits
           end)
        (mappings tsSourceMap) []
  end.

Section Orchestrator.

Variable createSourceFile : TextDocument.t -> SourceFile.
Variable update : SourceFile -> TextDocument.t -> SourceFile.
Variable formatters : Formatters.
(** The formatting request to the script backend for a generated
    document. *)
Variable tsDoFormatting : TextDocument.t -> FormattingOptions -> list TextEdit.

(** The inner loop shared by the markup and style passes. *)
Definition pushTransformed (sourceMap : SourceMap) (edits : list TextEdit)
  (result : list TextEdit) : list TextEdit :=
  fold_left
    (fun result edit =>
       match transformTextEdit edit
               (fun r => getSourceRange sourceMap (start r) (end_ r)) with
       | Some vueEdit => (result ++ [vueEdit])%list
       | None => result
       end)
    edits result.

(** The dialects for which a formatter is registered. *)
Definition styleFormatter (languageId : string) : option Formatter :=
  if languageId =? "css" then Some (css formatters)
  else if languageId =? "less" then Some (less formatters)
  else if languageId =? "scss" then Some (scss formatters)
  else if languageId =? "postcss" then Some (postcss formatters)
  else None.

Definition getCssFormattingEdits (sourceFile : SourceFile)
  (options : FormattingOptions) : list TextEdit :=
  fold_left
    (fun result sourceMap =>
       if negb (formatting (mapCapabilities sourceMap)) then result
       else
         let languageId := languageId (mappedDocument sourceMap) in
         if negb (languageId =? "css") && negb (languageId =? "less")
            && negb (languageId =? "scss") && negb (languageId =? "postcss")
         then result
         else
           match styleFormatter languageId with
           | Some format =>
               pushTransformed sourceMap
                 (format (mappedDocument sourceMap) options) result
           | None => result
           end)
    (getCssSourceMaps sourceFile) [].

Definition getHtmlFormattingEdits (sourceFile : SourceFile)
  (options : FormattingOptions) : list TextEdit :=
  fold_left
    (fun result sourceMap =>
       pushTransformed sourceMap
         (html formatters (mappedDocument sourceMap) options) result)
    (getHtmlSourceMaps sourceFile) [].

Definition getPugFormattingEdits (sourceFile : SourceFile)
  (options : FormattingOptions) : list TextEdit :=
  fold_left
    (fun result sourceMap =>
       pushTransformed sourceMap
         (pug formatters (mappedDocument sourceMap) options) result)
    (getPugSourceMaps sourceFile) [].

(** [shared.notEmpty] as a filter. *)
Fixpoint notEmpty {A} (l : list (option A)) : list A :=
  match l with
  | [] => []
  | Some a :: l' => a :: notEmpty l'
  | None :: l' => notEmpty l'
  end.

Definition getTsFormattingEdits (sourceFile : SourceFile)
  (options : FormattingOptions) : list TextEdit :=
  let tsSourceMaps :=
    notEmpty (getTemplateFormattingScript sourceFile
              :: docLsScripts sourceFile) in
  fold_left
    (fun result sourceMap =>
       if negb (formatting (mapCapabilities sourceMap)) then result
       else
         let textEdits := tsDoFormatting (mappedDocument sourceMap) options in
         fold_left
           (fun result textEdit =>
              fold_left
                (fun result vueRange =>
                   if negb (formatting (capabilities (mappedData vueRange)))
                   then result
                   else (result ++ [{| newText := newText textEdit;
                                       range := mappedRange vueRange |}])%list)
                (getSourceRanges sourceMap (start (range textEdit))
                   (end_ (range textEdit)))
                result)
           textEdits result)
    tsSourceMaps [].

(** One batch of edits applied to the document, with the regeneration of
    the source file; nothing happens for an empty batch. *)
Definition applyBatch (newDocument : TextDocument.t) (sourceFile : SourceFile)
  (edits1 edits2 : list TextEdit) : result (TextDocument.t * SourceFile) :=
  if Nat.ltb 0 (List.length edits1 + List.length edits2) then
    bind (ofOption (applyEdits newDocument (edits1 ++ edits2)%list))
      (fun text =>
         let newDocument :=
           create (uri newDocument) (TextDocument.languageId newDocument)
             (version newDocument + 1) text in
         Ok (newDocument, update sourceFile newDocument))
  else Ok (newDocument, sourceFile).

(** The passes of the orchestrator, up to the document they produce. *)
Definition runPasses (document : TextDocument.t) (options : FormattingOptions)
  : result TextDocument.t :=
  let sourceFile := createSourceFile document in
  let newDocument := document in
  let pugEdits := getPugFormattingEdits sourceFile options in
  let htmlEdits := getHtmlFormattingEdits sourceFile options in
  bind (applyBatch newDocument sourceFile pugEdits htmlEdits)
    (fun '(newDocument, sourceFile) =>
       let tsEdits := getTsFormattingEdits sourceFile options in
       let cssEdits := getCssFormattingEdits sourceFile options in
       bind (applyBatch newDocument sourceFile tsEdits cssEdits)
         (fun '(newDocument, sourceFile) =>
            let indentTextEdits := patchInterpolationIndent sourceFile in
            bind (ofOption (applyEdits newDocument indentTextEdits))
              (fun text =>
                 Ok (create (uri newDocument)
                       (TextDocument.languageId newDocument)
                       (version newDocument + 1) text)))).

(** The function returned by [register]; [None] is [undefined]. *)
Definition register (document : TextDocument.t) (options : FormattingOptions)
  : result (option (list TextEdit)) :=
  bind (runPasses document options)
    (fun newDocument =>
       if content newDocument =? content document then Ok None
       else
         let editRange :=
           {| start := positionAt document 0;
              end_ := positionAt document (String.length (content document))
           |} in
         let textEdit := TextDocument.replace editRange (content newDocument) in
         Ok (Some [textEdit])).

End Orchestrator.

(** *** The indentation repair, as a specification

    [specRepair] follows the wording of the specification: the base indent
    is the leading white space of the line containing the start of the
    span, and a line that does not start with the removal indent receives
    the base indent with the removal indent stripped as a prefix. *)

Definition mapInterior (f : string -> string) (lines : list string)
  : list string :=
  match lines with
  | [] => []
  | first :: interior => first :: map f interior
  end.

Definition stripPrefix (s pre : string) : string :=
  if String.prefix pre s then drop (String.length pre) s else s.

Fixpoint takeLine (s : string) : string :=
  match s with
  | "" => ""
  | String c s' =>
      if Ascii.eqb c LF || Ascii.eqb c CR then "" else String c (takeLine s')
  end.

Definition lineStartOffset (document : TextDocument.t) (offset : nat) : nat :=
  offsetAt document
    {| line := line (positionAt document offset); character := 0 |}.

Definition spanText (document : TextDocument.t) (maped : Mapping) : string :=
  substring (rangeStart (sourceRange maped)) (rangeEnd (sourceRange maped))
    (content document).

Definition removalIndent (document : TextDocument.t) (maped : Mapping)
  : string :=
  leadingWhiteSpace (last (split (spanText document maped) nl) "").

Definition specBaseIndent (document : TextDocument.t) (maped : Mapping)
  : string :=
  leadingWhiteSpace
    (takeLine
       (drop (lineStartOffset document (rangeStart (sourceRange maped)))
          (content document))).

Definition specRepairLine (removeIndent baseIndent line : string) : string :=
  if startsWith line removeIndent
  then baseIndent ++ drop (String.length removeIndent) line
  else stripPrefix baseIndent removeIndent ++ line.

Definition specRepair (document : TextDocument.t) (maped : Mapping) : string :=
  join
    (mapInterior
       (specRepairLine (removalIndent document maped)
          (specBaseIndent document maped))
       (split (spanText document maped) nl))
    nl.

(** What the pass computes: the base indent is the leading white space of
    the text between the start of the line and the start of the span, and
    a line that does not start with the removal indent receives the base
    indent without the first occurrence of the removal indent. *)

Definition baseIndent (document : TextDocument.t) (maped : Mapping) : string :=
  leadingWhiteSpace
    (substring (lineStartOffset document (rangeStart (sourceRange maped)))
       (rangeStart (sourceRange maped)) (content document)).

Definition repairLine (removeIndent baseIndent line : string) : string :=
  if startsWith line removeIndent
  then baseIndent ++ drop (String.length removeIndent) line
  else JsString.replace baseIndent removeIndent "" ++ line.

Definition repair (document : TextDocument.t) (maped : Mapping) : string :=
  join
    (mapInterior
       (repairLine (removalIndent document maped) (baseIndent document maped))
       (split (spanText document maped) nl))
    nl.

Definition textRangeOf (document : TextDocument.t) (maped : Mapping) : Range :=
  {| start := positionAt document (rangeStart (sourceRange maped));
     end_ := positionAt document (rangeEnd (sourceRange maped)) |}.

(** Documents and entries of the examples. *)
Definition vueDocument (text : string) : TextDocument.t :=
  create "file:///Widget.vue" "vue" 1 text.

Definition entry (formattable : bool) (a b : nat) : Mapping :=
  {| sourceRange := {| rangeStart := a; rangeEnd := b |};
     data := {| capabilities := {| formatting := formattable |} |} |}.

Definition TAB : string := String "009"%char "".

(** *** Facts about the indentation repair *)

Lemma getText_textRange (document : TextDocument.t) (maped : Mapping) :
  getText document (textRangeOf document maped) = spanText document maped.
Proof.
  unfold getText, textRangeOf, spanText; cbn [start end_].
  rewrite !offsetAt_positionAt.
  rewrite substring_clamp_l, substring_comm, substring_clamp_l.
  apply substring_comm.
Qed.

Lemma getRemoveIndent_spec (document : TextDocument.t) (maped : Mapping) :
  getRemoveIndent (split (spanText document maped) nl)
  = removalIndent document maped.
Proof. unfold getRemoveIndent, removalIndent. apply substr_trimStart. Qed.

Lemma getBaseIndent_spec (document : TextDocument.t) (maped : Mapping) :
  getBaseIndent document maped = baseIndent document maped.
Proof.
  unfold getBaseIndent, baseIndent. cbv zeta. rewrite substr_trimStart.
  f_equal. unfold getText; cbn [start end_].
  rewrite offsetAt_positionAt, substring_clamp_l.
  apply substring_comm.
Qed.

(** The replacement strings of the pass hold no [$], so that [replace]
    inserts them as they are. *)
Lemma baseIndent_no_dollar (document : TextDocument.t) (maped : Mapping) :
  includes (baseIndent document maped) "$" = false.
Proof. apply white_no_dollar, leadingWhiteSpace_white. Qed.

Lemma patchLine_repairLine (removeIndent baseIndent line : string) :
  patchLine removeIndent baseIndent line
  = repairLine removeIndent baseIndent line.
Proof.
  unfold patchLine, repairLine.
  destruct (startsWith line removeIndent) eqn:E; [|reflexivity].
  now apply replace_startsWith.
Qed.

Lemma patchLines_mapInterior (removeIndent baseIndent : string)
  (lines : list string) :
  patchLines removeIndent baseIndent lines
  = mapInterior (repairLine removeIndent baseIndent) lines.
Proof.
  destruct lines as [|first interior]; simpl; [reflexivity|].
  f_equal. apply map_ext. intros; apply patchLine_repairLine.
Qed.

(** The edit of one mapping entry. *)
Lemma patchMapping_spec (document : TextDocument.t) (maped : Mapping) :
  patchMapping document maped
  = if formatting (capabilities (data maped))
       && includes (spanText document maped) nl
    then Some {| range := textRangeOf document maped;
                 newText := repair document maped |}
    else None.
Proof.
  unfold patchMapping. cbv zeta.
  fold (textRangeOf document maped). rewrite getText_textRange.
  destruct (formatting (capabilities (data maped))); simpl; [|reflexivity].
  assert (H : forall s, includes s nl = match indexOf s nl with
                                        | Some _ => true | None => false end).
  { induction s as [|c s IH]; [reflexivity|].
    cbn [includes indexOf]. rewrite IH.
    destruct (String.prefix nl (String c s)); [reflexivity|].
    now destruct (indexOf s nl). }
  rewrite H. destruct (indexOf (spanText document maped) nl); [|reflexivity].
  unfold repair. rewrite getRemoveIndent_spec, getBaseIndent_spec.
  now rewrite patchLines_mapInterior.
Qed.

Definition optionToList {A} (o : option A) : list A :=
  match o with
  | Some a => [a]
  | None => []
  end.

Lemma fold_left_push {A B} (f : A -> list B) (l : list A) (acc : list B) :
  fold_left (fun result a => (result ++ f a)%list) l acc
  = (acc ++ flat_map f l)%list.
Proof.
  revert acc; induction l as [|a l IH]; intros acc; simpl.
  - now rewrite app_nil_r.
  - now rewrite IH, app_assoc.
Qed.

Lemma fold_left_push_option {A B} (f : A -> option B) (l : list A)
  (acc : list B) :
  fold_left (fun result a => match f a with
                             | Some b => (result ++ [b])%list
                             | None => result
                             end) l acc
  = (acc ++ flat_map (fun a => optionToList (f a)) l)%list.
Proof.
  rewrite <- fold_left_push. revert acc.
  induction l as [|a l IH]; intros acc; simpl; [reflexivity|].
  rewrite <- IH. destruct (f a); simpl; [reflexivity | now rewrite app_nil_r].
Qed.

(** The pass emits, in the order of the mapping entries, the edit of
    each entry that has one. *)
Lemma patchInterpolationIndent_flat_map (sourceFile : SourceFile) :
  patchInterpolationIndent sourceFile
  = match getTemplateFormattingScript sourceFile with
    | None => []
    | Some tsSourceMap =>
        flat_map
          (fun maped =>
             optionToList (patchMapping (getTextDocument sourceFile) maped))
          (mappings tsSourceMap)
    end.
Proof.
  unfold patchInterpolationIndent.
  destruct (getTemplateFormattingScript sourceFile) as [sm|]; [|reflexivity].
  apply (fold_left_push_option (patchMapping (getTextDocument sourceFile))).
Qed.

(** A source file that only has a template formatting script. *)
Definition templateOnly (document : TextDocument.t) (entries : list Mapping)
  : SourceFile :=
  {| getTextDocument := document;
     getTemplateFormattingScript :=
       Some {| mapCapabilities := {| formatting := true |};
               mappedDocument :=
                 create "file:///Widget.vue.ts" "typescript" 1 "";
               mappings := entries;
               getSourceRange := fun _ _ => None;
               getSourceRanges := fun _ _ => [] |};
     docLsScripts := [];
     getCssSourceMaps := [];
     getHtmlSourceMaps := [];
     getPugSourceMaps := [] |}.

Lemma repairLine_specRepairLine (removeIndent baseIndent line : string) :
  String.prefix removeIndent baseIndent = true
  \/ includes baseIndent removeIndent = false ->
  repairLine removeIndent baseIndent line
  = specRepairLine removeIndent baseIndent line.
Proof.
  unfold repairLine, specRepairLine, stripPrefix. intros H.
  destruct (startsWith line removeIndent); [reflexivity|]. f_equal.
  destruct H as [H|H].
  - rewrite H. now apply (replace_startsWith baseIndent removeIndent "").
  - rewrite (replace_absent _ _ _ H).
    now rewrite (includes_false_prefix _ _ H).
Qed.

(** C1 (as stated) does not hold.  First, a span that starts at the
    beginning of an indented line: the line containing the start of the
    span has two leading spaces, but the pass takes the base indent from
    the text in front of the span, which is empty, so the interior line
    loses its indentation.  Second, a removal indent (a tab) that occurs
    inside the base indent (a space and a tab) without being its prefix:
    the pass removes that occurrence. *)
Lemma indent_repair_as_stated_fails :
  (let document := vueDocument ("  a" ++ nl ++ "  b") in
   let maped := entry true 0 7 in
   exists edit,
     patchInterpolationIndent (templateOnly document [maped]) = [edit]
     /\ range edit = textRangeOf document maped
     /\ newText edit = "  a" ++ nl ++ "b"
     /\ specRepair document maped = "  a" ++ nl ++ "  b"
     /\ newText edit <> specRepair document maped)
  /\
  (let document :=
     vueDocument (" " ++ TAB ++ "{{ x" ++ nl ++ "y" ++ nl ++ TAB ++ "}}") in
   let maped := entry true 4 10 in
   exists edit,
     patchInterpolationIndent (templateOnly document [maped]) = [edit]
     /\ range edit = textRangeOf document maped
     /\ newText edit = " x" ++ nl ++ " y" ++ nl ++ " " ++ TAB
     /\ specRepair document maped
        = " x" ++ nl ++ " " ++ TAB ++ "y" ++ nl ++ " " ++ TAB
     /\ newText edit <> specRepair document maped).
Proof.
  split; cbv zeta; eexists; (split; [vm_compute; reflexivity|]);
    repeat (split; [vm_compute; reflexivity|]); vm_compute; discriminate.
Qed.

(** C1 (amended): for every formatting-capable mapping entry of the
    template formatting script whose source text contains a newline, the
    pass emits an edit over the span whose text is the span's text with
    every interior line repaired.  A line that starts with the removal
    indent (the leading white space of the span's last line) has that
    prefix replaced by the base indent, which is the leading white space
    of the text between the start of the line containing the span's start
    and the span's start.  A line that does not start with the removal
    indent is prefixed with the base indent with the removal-indent prefix
    stripped, when the removal indent is a prefix of the base indent or
    does not occur in it.  For the span ["<div>\na\nb\n</div>"] behind
    two spaces the repaired text is ["<div>\n  a\n  b\n  </div>"]. *)
Theorem indent_repair :
  (forall sourceFile tsSourceMap maped,
     getTemplateFormattingScript sourceFile = Some tsSourceMap ->
     In maped (mappings tsSourceMap) ->
     formatting (capabilities (data maped)) = true ->
     includes (spanText (getTextDocument sourceFile) maped) nl = true ->
     let document := getTextDocument sourceFile in
     exists first interior,
       split (spanText document maped) nl = first :: interior /\
       In {| range := textRangeOf document maped;
             newText :=
               join (first :: map (patchLine (removalIndent document maped)
                                     (baseIndent document maped)) interior)
                 nl |}
          (patchInterpolationIndent sourceFile))
  /\
  (forall removeIndent baseIndent line,
     startsWith line removeIndent = true ->
     patchLine removeIndent baseIndent line
     = baseIndent ++ drop (String.length removeIndent) line)
  /\
  (forall removeIndent baseIndent line,
     startsWith line removeIndent = false ->
     String.prefix removeIndent baseIndent = true
     \/ includes baseIndent removeIndent = false ->
     patchLine removeIndent baseIndent line
     = stripPrefix baseIndent removeIndent ++ line)
  /\
  (let document :=
     vueDocument ("  <div>" ++ nl ++ "a" ++ nl ++ "b" ++ nl ++ "</div>") in
   let maped := entry true 2 18 in
   spanText document maped = "<div>" ++ nl ++ "a" ++ nl ++ "b" ++ nl ++ "</div>"
   /\ baseIndent document maped = "  "
   /\ removalIndent document maped = ""
   /\ patchInterpolationIndent (templateOnly document [maped])
      = [ {| range := textRangeOf document maped;
             newText := "<div>" ++ nl ++ "  a" ++ nl ++ "  b" ++ nl
                        ++ "  </div>" |} ]).
Proof.
  split; [|split; [|split]].
  - intros sf sm maped Hsm Hin Hf Hnl document. subst document.
    destruct (split (spanText (getTextDocument sf) maped) nl)
      as [|first interior] eqn:E.
    { exfalso. revert E. apply split_go_not_nil. }
    exists first, interior. split; [reflexivity|].
    rewrite patchInterpolationIndent_flat_map, Hsm.
    apply in_flat_map. exists maped. split; [exact Hin|].
    rewrite patchMapping_spec, Hf, Hnl. simpl.
    left. unfold repair. rewrite E. cbn [mapInterior].
    rewrite (map_ext _ _ (patchLine_repairLine _ _)). reflexivity.
  - intros rem base line H. rewrite patchLine_repairLine.
    unfold repairLine. now rewrite H.
  - intros rem base line H Hb. rewrite patchLine_repairLine.
    rewrite (repairLine_specRepairLine _ _ _ Hb).
    unfold specRepairLine. now rewrite H.
  - repeat split; vm_compute; reflexivity.
Qed.

Lemma indent_repair_witness :
  let document :=
    vueDocument ("  <div>" ++ nl ++ "a" ++ nl ++ "b" ++ nl ++ "</div>") in
  let maped := entry true 2 18 in
  (exists first interior,
     split (spanText document maped) nl = first :: interior /\
     In {| range := textRangeOf document maped;
           newText :=
             join (first :: map (patchLine (removalIndent document maped)
                                   (baseIndent document maped)) interior)
               nl |}
        (patchInterpolationIndent (templateOnly document [maped])))
  /\ patchLine "" "  " "a" = "  " ++ drop 0 "a"
  /\ patchLine "    " "  " "a" = stripPrefix "  " "    " ++ "a".
Proof.
  intros document maped.
  destruct indent_repair as (Hedit & Hstarts & Hother & _).
  split; [|split].
  - apply (Hedit (templateOnly document [maped]) _ maped eq_refl).
    + left; reflexivity.
    + reflexivity.
    + vm_compute; reflexivity.
  - apply (Hstarts "" "  " "a"). reflexivity.
  - apply (Hother "    " "  " "a"); [reflexivity | right; reflexivity].
Defined.

(** *** Facts about the markup, style and script passes *)

Lemma fold_left_append {A B} (body : list B -> A -> list B)
  (f : A -> list B) (l : list A) (acc : list B) :
  (forall acc a, body acc a = (acc ++ f a)%list) ->
  fold_left body l acc = (acc ++ flat_map f l)%list.
Proof.
  intros H. revert acc; induction l as [|a l IH]; intros acc; simpl.
  - now rewrite app_nil_r.
  - now rewrite IH, H, app_assoc.
Qed.

(** The translation of one backend edit through a source map. *)
Definition translateEdit (sourceMap : SourceMap) (edit : TextEdit)
  : option TextEdit :=
  transformTextEdit edit
    (fun r => getSourceRange sourceMap (start r) (end_ r)).

Lemma pushTransformed_flat_map (sourceMap : SourceMap)
  (edits result : list TextEdit) :
  pushTransformed sourceMap edits result
  = (result
     ++ flat_map (fun edit => optionToList (translateEdit sourceMap edit))
          edits)%list.
Proof. apply (fold_left_push_option (translateEdit sourceMap)). Qed.

(** The edits a style source map contributes. *)
Definition styleEdits (formatters : Formatters) (options : FormattingOptions)
  (sourceMap : SourceMap) : list TextEdit :=
  if formatting (mapCapabilities sourceMap) then
    match styleFormatter formatters (languageId (mappedDocument sourceMap)) with
    | Some format =>
        flat_map (fun edit => optionToList (translateEdit sourceMap edit))
          (format (mappedDocument sourceMap) options)
    | None => []
    end
  else [].

Lemma getCssFormattingEdits_flat_map (formatters : Formatters)
  (sourceFile : SourceFile) (options : FormattingOptions) :
  getCssFormattingEdits formatters sourceFile options
  = flat_map (styleEdits formatters options) (getCssSourceMaps sourceFile).
Proof.
  unfold getCssFormattingEdits.
  rewrite (fold_left_append _ (styleEdits formatters options));
    [reflexivity|].
  intros acc sm. unfold styleEdits.
  destruct (formatting (mapCapabilities sm)); simpl;
    [|now rewrite app_nil_r].
  unfold styleFormatter.
  destruct (languageId (mappedDocument sm) =? "css"); simpl;
    [apply pushTransformed_flat_map|].
  destruct (languageId (mappedDocument sm) =? "less"); simpl;
    [apply pushTransformed_flat_map|].
  destruct (languageId (mappedDocument sm) =? "scss"); simpl;
    [apply pushTransformed_flat_map|].
  destruct (languageId (mappedDocument sm) =? "postcss"); simpl;
    [apply pushTransformed_flat_map | now rewrite app_nil_r].
Qed.

(** C7: in the markup passes (html, pug) and in the style pass every
    backend edit is translated on its own: the result is the
    concatenation, over the source maps and over the edits of the backend,
    of the translation of each single edit; an edit whose range has no
    source range is dropped, and a translated edit carries the source
    range and the [newText] of the backend edit. *)
Theorem edits_translated_independently :
  forall (formatters : Formatters) (sourceFile : SourceFile)
         (options : FormattingOptions),
    getHtmlFormattingEdits formatters sourceFile options
    = flat_map
        (fun sourceMap =>
           flat_map (fun edit => optionToList (translateEdit sourceMap edit))
             (html formatters (mappedDocument sourceMap) options))
        (getHtmlSourceMaps sourceFile)
    /\
    getPugFormattingEdits formatters sourceFile options
    = flat_map
        (fun sourceMap =>
           flat_map (fun edit => optionToList (translateEdit sourceMap edit))
             (pug formatters (mappedDocument sourceMap) options))
        (getPugSourceMaps sourceFile)
    /\
    getCssFormattingEdits formatters sourceFile options
    = flat_map
        (fun sourceMap =>
           if formatting (mapCapabilities sourceMap) then
             match styleFormatter formatters
                     (languageId (mappedDocument sourceMap)) with
             | Some format =>
                 flat_map
                   (fun edit => optionToList (translateEdit sourceMap edit))
                   (format (mappedDocument sourceMap) options)
             | None => []
             end
           else [])
        (getCssSourceMaps sourceFile)
    /\
    forall sourceMap edit,
      match getSourceRange sourceMap (start (range edit)) (end_ (range edit))
      with
      | None => translateEdit sourceMap edit = None
      | Some r =>
          translateEdit sourceMap edit
          = Some {| range := r; newText := newText edit |}
      end.
Proof.
  intros formatters sourceFile options. repeat split.
  - unfold getHtmlFormattingEdits.
    rewrite (fold_left_append _
               (fun sm => flat_map
                            (fun edit => optionToList (translateEdit sm edit))
                            (html formatters (mappedDocument sm) options)));
      [reflexivity|].
    intros; apply pushTransformed_flat_map.
  - unfold getPugFormattingEdits.
    rewrite (fold_left_append _
               (fun sm => flat_map
                            (fun edit => optionToList (translateEdit sm edit))
                            (pug formatters (mappedDocument sm) options)));
      [reflexivity|].
    intros; apply pushTransformed_flat_map.
  - apply getCssFormattingEdits_flat_map.
  - intros sm edit. unfold translateEdit, transformTextEdit.
    now destruct (getSourceRange sm (start (range edit)) (end_ (range edit))).
Qed.

(** C9: the style pass selects the backend by the language identifier of
    the mapped document, among css, less, scss and postcss; a source map
    without the formatting capability, or whose document has another
    language identifier, contributes no edit. *)
Theorem style_backend_by_language_id :
  forall (formatters : Formatters) (sourceFile : SourceFile)
         (options : FormattingOptions),
    getCssFormattingEdits formatters sourceFile options
    = flat_map (styleEdits formatters options) (getCssSourceMaps sourceFile)
    /\
    forall sourceMap,
      let id := languageId (mappedDocument sourceMap) in
      let translated (format : Formatter) :=
        flat_map (fun edit => optionToList (translateEdit sourceMap edit))
          (format (mappedDocument sourceMap) options) in
      (formatting (mapCapabilities sourceMap) = false ->
       styleEdits formatters options sourceMap = [])
      /\ (id <> "css" -> id <> "less" -> id <> "scss" -> id <> "postcss" ->
          styleEdits formatters options sourceMap = [])
      /\ (formatting (mapCapabilities sourceMap) = true ->
          (id = "css" ->
           styleEdits formatters options sourceMap
           = translated (css formatters))
          /\ (id = "less" ->
              styleEdits formatters options sourceMap
              = translated (less formatters))
          /\ (id = "scss" ->
              styleEdits formatters options sourceMap
              = translated (scss formatters))
          /\ (id = "postcss" ->
              styleEdits formatters options sourceMap
              = translated (postcss formatters))).
Proof.
  intros formatters sourceFile options.
  split; [apply getCssFormattingEdits_flat_map|].
  intros sm id translated. subst id translated.
  unfold styleEdits, styleFormatter.
  split; [|split].
  - now intros ->.
  - intros H1 H2 H3 H4.
    apply String.eqb_neq in H1, H2, H3, H4. rewrite H1, H2, H3, H4.
    now destruct (formatting (mapCapabilities sm)).
  - intros ->. repeat split; intros ->; reflexivity.
Qed.

(** The edits the script pass derives from one backend edit. *)
Definition scriptEditsOf (sourceMap : SourceMap) (textEdit : TextEdit)
  : list TextEdit :=
  flat_map
    (fun vueRange =>
       if formatting (capabilities (mappedData vueRange))
       then [ {| newText := newText textEdit;
                 range := mappedRange vueRange |} ]
       else [])
    (getSourceRanges sourceMap (start (range textEdit))
       (end_ (range textEdit))).

Lemma getTsFormattingEdits_flat_map
  (tsDoFormatting : TextDocument.t -> FormattingOptions -> list TextEdit)
  (sourceFile : SourceFile) (options : FormattingOptions) :
  getTsFormattingEdits tsDoFormatting sourceFile options
  = flat_map
      (fun sourceMap =>
         if formatting (mapCapabilities sourceMap)
         then flat_map (scriptEditsOf sourceMap)
                (tsDoFormatting (mappedDocument sourceMap) options)
         else [])
      (notEmpty (getTemplateFormattingScript sourceFile
                 :: docLsScripts sourceFile)).
Proof.
  unfold getTsFormattingEdits. cbv zeta.
  rewrite (fold_left_append _
             (fun sm => if formatting (mapCapabilities sm)
                        then flat_map (scriptEditsOf sm)
                               (tsDoFormatting (mappedDocument sm) options)
                        else [])); [reflexivity|].
  intros acc sm.
  destruct (formatting (mapCapabilities sm)); simpl; [|now rewrite app_nil_r].
  apply fold_left_append. intros acc' te. unfold scriptEditsOf.
  apply fold_left_append. intros acc'' vr.
  destruct (formatting (capabilities (mappedData vr))); simpl;
    [reflexivity | now rewrite app_nil_r].
Qed.

Lemma In_notEmpty {A} (a : A) (l : list (option A)) :
  In a (notEmpty l) <-> In (Some a) l.
Proof.
  induction l as [|[b|] l IH]; simpl; [tauto| |].
  - rewrite IH. split; intros [H|H]; auto; left; congruence.
  - rewrite IH. split; [auto|]. intros [H|H]; [discriminate|auto].
Qed.

(** C3: an edit is in the output of the script pass exactly when it comes
    from a source map with the formatting capability, a backend edit for
    this map, and a source range of that edit whose mapping entry has the
    formatting capability; it then has the source range as its range and
    the [newText] of the backend edit.  So no edit is emitted through a
    map without the capability, nor for a mapping entry without it. *)
Theorem script_edits_capability_gated :
  forall (tsDoFormatting : TextDocument.t -> FormattingOptions -> list TextEdit)
         (sourceFile : SourceFile) (options : FormattingOptions)
         (edit : TextEdit),
    In edit (getTsFormattingEdits tsDoFormatting sourceFile options)
    <->
    exists sourceMap textEdit vueRange,
      In (Some sourceMap)
         (getTemplateFormattingScript sourceFile :: docLsScripts sourceFile)
      /\ formatting (mapCapabilities sourceMap) = true
      /\ In textEdit (tsDoFormatting (mappedDocument sourceMap) options)
      /\ In vueRange
            (getSourceRanges sourceMap (start (range textEdit))
               (end_ (range textEdit)))
      /\ formatting (capabilities (mappedData vueRange)) = true
      /\ edit = {| newText := newText textEdit;
                   range := mappedRange vueRange |}.
Proof.
  intros tsDoFormatting sourceFile options edit.
  rewrite getTsFormattingEdits_flat_map, in_flat_map. split.
  - intros (sm & Hsm & H). apply In_notEmpty in Hsm.
    destruct (formatting (mapCapabilities sm)) eqn:Hf; [|contradiction].
    apply in_flat_map in H as (te & Hte & H).
    apply in_flat_map in H as (vr & Hvr & H).
    destruct (formatting (capabilities (mappedData vr))) eqn:Hv;
      [|contradiction].
    destruct H as [<-|[]]. exists sm, te, vr. auto 7.
  - intros (sm & te & vr & Hsm & Hf & Hte & Hvr & Hv & ->).
    exists sm. split; [now apply In_notEmpty|]. rewrite Hf.
    apply in_flat_map. exists te. split; [exact Hte|].
    apply in_flat_map. exists vr. split; [exact Hvr|].
    rewrite Hv. now left.
Qed.

(** C4: if a pass throws, so does the orchestrator.  Otherwise, with
    [newDocument] the document after all passes, the orchestrator returns
    no edit when its text is the text of the input document, and else
    exactly one edit, whose new text is the text of [newDocument] and
    whose range starts at line 0, column 0, which is offset 0, and ends at
    the offset that is the length of the input text. *)
Theorem whole_document_edit :
  forall (createSourceFile : TextDocument.t -> SourceFile)
         (update : SourceFile -> TextDocument.t -> SourceFile)
         (formatters : Formatters)
         (tsDoFormatting : TextDocument.t -> FormattingOptions -> list TextEdit)
         (document : TextDocument.t) (options : FormattingOptions),
    let run := register createSourceFile update formatters tsDoFormatting in
    match runPasses createSourceFile update formatters tsDoFormatting
            document options with
    | Throw => run document options = Throw
    | Ok newDocument =>
        if content newDocument =? content document
        then run document options = Ok None
        else exists textEdit,
            run document options = Ok (Some [textEdit])
            /\ newText textEdit = content newDocument
            /\ start (range textEdit) = {| line := 0; character := 0 |}
            /\ offsetAt document (start (range textEdit)) = 0
            /\ offsetAt document (end_ (range textEdit))
               = String.length (content document)
    end.
Proof.
  intros createSourceFile update formatters tsDoFormatting document options run.
  subst run. unfold register.
  destruct (runPasses createSourceFile update formatters tsDoFormatting
              document options) as [newDocument|]; simpl; [|reflexivity].
  destruct (content newDocument =? content document); [reflexivity|].
  eexists. split; [reflexivity|].
  cbn [TextDocument.replace newText range start end_].
  rewrite !offsetAt_positionAt, positionAt_0. repeat split; lia.
Qed.

(** *** Instances *)

Definition demoOptions : FormattingOptions :=
  {| tabSize := 2; insertSpaces := true |}.

Definition noEdits : Formatter := fun _ _ => [].

(** A style backend that replaces the first character of its document. *)
Definition firstCharacter : Range :=
  {| start := {| line := 0; character := 0 |};
     end_ := {| line := 0; character := 1 |} |}.

Definition demoFormatters : Formatters :=
  {| html := noEdits; pug := noEdits; css := noEdits; less := noEdits;
     scss := fun _ _ => [ {| range := firstCharacter; newText := "a" |} ];
     postcss := noEdits |}.

(** A style source map that places its document at offset [7] of the
    first line of the composite document. *)
Definition styleMap (languageId : string) (formattable : bool) : SourceMap :=
  {| mapCapabilities := {| formatting := formattable |};
     mappedDocument := create "file:///Widget.vue.style" languageId 1 "b{}";
     mappings := [];
     getSourceRange := fun s e =>
       Some {| start := {| line := line s; character := character s + 7 |};
               end_ := {| line := line e; character := character e + 7 |} |};
     getSourceRanges := fun _ _ => [] |}.

Lemma style_backend_by_language_id_witness :
  styleEdits demoFormatters demoOptions (styleMap "stylus" true) = []
  /\ styleEdits demoFormatters demoOptions (styleMap "scss" false) = []
  /\ styleEdits demoFormatters demoOptions (styleMap "scss" true)
     = [ {| range := {| start := {| line := 0; character := 7 |};
                        end_ := {| line := 0; character := 8 |} |};
            newText := "a" |} ].
Proof.
  pose proof (proj2 (style_backend_by_language_id demoFormatters
                       (templateOnly (vueDocument "") []) demoOptions)) as H.
  cbv zeta in H.
  destruct (H (styleMap "stylus" true)) as (_ & H1 & _).
  destruct (H (styleMap "scss" false)) as (H2 & _ & _).
  destruct (H (styleMap "scss" true)) as (_ & _ & H3).
  split; [|split].
  - apply H1; discriminate.
  - apply H2; reflexivity.
  - destruct (H3 eq_refl) as (_ & _ & Hscss & _).
    exact (Hscss eq_refl).
Defined.

(** A script backend edit that maps to two source ranges, one of them in
    a mapping entry without the formatting capability. *)
Definition scriptMap : SourceMap :=
  {| mapCapabilities := {| formatting := true |};
     mappedDocument := create "file:///Widget.vue.ts" "typescript" 1 "a;b";
     mappings := [];
     getSourceRange := fun _ _ => None;
     getSourceRanges := fun s e =>
       [ {| mappedRange := {| start := s; end_ := e |};
            mappedData := {| capabilities := {| formatting := true |} |} |};
         {| mappedRange := firstCharacter;
            mappedData := {| capabilities := {| formatting := false |} |} |} ]
  |}.

Definition scriptFile : SourceFile :=
  {| getTextDocument := vueDocument "a;b";
     getTemplateFormattingScript := None;
     docLsScripts := [Some scriptMap];
     getCssSourceMaps := [];
     getHtmlSourceMaps := [];
     getPugSourceMaps := [] |}.

Definition scriptBackend
  : TextDocument.t -> FormattingOptions -> list TextEdit :=
  fun _ _ =>
    [ {| range := {| start := {| line := 0; character := 2 |};
                     end_ := {| line := 0; character := 2 |} |};
         newText := " " |} ].

Example getTsFormattingEdits_example :
  getTsFormattingEdits scriptBackend scriptFile demoOptions
  = [ {| range := {| start := {| line := 0; character := 2 |};
                     end_ := {| line := 0; character := 2 |} |};
         newText := " " |} ].
Proof. reflexivity. Qed.

(** A markup backend with two edits; the source map has no source range
    for a range that starts at column 0. *)
Definition markupMap : SourceMap :=
  {| mapCapabilities := {| formatting := true |};
     mappedDocument :=
       create "file:///Widget.vue.template.html" "html" 1 "<p> </p>";
     mappings := [];
     getSourceRange := fun s e =>
       match character s with
       | 0 => None
       | _ =>
           Some {| start := {| line := line s; character := character s + 10 |};
                   end_ := {| line := line e; character := character e + 10 |}
                |}
       end;
     getSourceRanges := fun _ _ => [] |}.

Definition markupFile : SourceFile :=
  {| getTextDocument := vueDocument "<template><p> </p></template>";
     getTemplateFormattingScript := None;
     docLsScripts := [];
     getCssSourceMaps := [];
     getHtmlSourceMaps := [markupMap];
     getPugSourceMaps := [] |}.

Definition markupFormatters : Formatters :=
  {| html := fun _ _ =>
       [ {| range := firstCharacter; newText := "" |};
         {| range := {| start := {| line := 0; character := 3 |};
                        end_ := {| line := 0; character := 4 |} |};
            newText := "" |} ];
     pug := noEdits; css := noEdits; less := noEdits; scss := noEdits;
     postcss := noEdits |}.

Example getHtmlFormattingEdits_example :
  getHtmlFormattingEdits markupFormatters markupFile demoOptions
  = [ {| range := {| start := {| line := 0; character := 13 |};
                     end_ := {| line := 0; character := 14 |} |};
         newText := "" |} ].
Proof. reflexivity. Qed.

(** The orchestrator on a template whose interpolation lost its
    indentation, and on its own output. *)
Definition demoSourceFile (document : TextDocument.t) : SourceFile :=
  templateOnly document
    [entry true 2 (String.length (content document))].

Example register_example :
  let run :=
    register demoSourceFile (fun _ => demoSourceFile) demoFormatters
      (fun _ _ => []) in
  let input :=
    vueDocument ("  <div>" ++ nl ++ "a" ++ nl ++ "b" ++ nl ++ "</div>") in
  let output :=
    "  <div>" ++ nl ++ "  a" ++ nl ++ "  b" ++ nl ++ "  </div>" in
  run input demoOptions
  = Ok (Some [ {| range := {| start := {| line := 0; character := 0 |};
                             end_ := {| line := 3; character := 6 |} |};
                  newText := output |} ])
  /\ run (vueDocument output) demoOptions = Ok None.
Proof. split; vm_compute; reflexivity. Qed.

End Formatting.

(** ** The custom-block plugin ([vue-sfc-customblocks.ts]) *)

Module CustomBlocks.
Import JsString.
Import Throwing.

Record CustomBlock := {
  type : string;
  lang : string;
  content : string;
  name : string
}.

Record Sfc := { customBlocks : list CustomBlock }.

(** Modelled from the spec: [enableAllFeatures] of [../generators/utils]
    is not among the sources.  It is the capability set of a chunk that is
    fully capable for all operations; the flags are those the
    specification lists for a mapping entry. *)
Record Features := {
  formatting : bool;
  completion : bool;
  diagnostics : bool;
  hover : bool;
  semanticTokens : bool;
  references : bool
}.

Definition enableAllFeatures : Features :=
  {| formatting := true; completion := true; diagnostics := true;
     hover := true; semanticTokens := true; references := true |}.

(** A content chunk [[text, source, sourceOffset, features]]. *)
Record Chunk := {
  chunkText : string;
  chunkSource : string;
  chunkOffset : nat;
  chunkFeatures : Features
}.

Record EmbeddedFile := {
  fileName : string;
  fileContent : list Chunk
}.

(** *** Matching [customBlockReg]

    A backtracking matcher in continuation-passing style: a greedy
    quantifier over a character class tries the longest run first and
    gives characters back one at a time, down to its minimum. *)

Definition isLineTerminator (c : ascii) : bool :=
  Ascii.eqb c LF || Ascii.eqb c CR.

(** The classes [.], [[^_]] and [[^.]]. *)
Definition notLineTerminator (c : ascii) : bool := negb (isLineTerminator c).
Definition notUnderscore (c : ascii) : bool := negb (Ascii.eqb c "_").
Definition notDot (c : ascii) : bool := negb (Ascii.eqb c ".").

Fixpoint classRun (cls : ascii -> bool) (s : string) : nat :=
  match s with
  | "" => 0
  | String c s' => if cls c then S (classRun cls s') else 0
  end.

Fixpoint tryDown {R} (least n : nat) (k : nat -> option R) : option R :=
  if Nat.ltb n least then None
  else
    match k n with
    | Some r => Some r
    | None =>
        match n with
        | 0 => None
        | S n' => tryDown least n' k
        end
    end.

(** [cls{least,}] followed by [k], which receives the text matched by the
    quantifier and the rest of the input. *)
Definition greedy {R} (cls : ascii -> bool) (least : nat)
  (k : string -> string -> option R) (s : string) : option R :=
  tryDown least (classRun cls s) (fun n => k (take n s) (drop n s)).

Definition lit {R} (p : string) (k : string -> option R) (s : string)
  : option R :=
  if String.prefix p s then k (drop (String.length p) s) else None.

Definition eos {R} (r : R) (s : string) : option R :=
  if s =? "" then Some r else None.

(** The pattern [customBlockReg], anchored at both ends of the input:
    group 1, any run of characters other than line terminators; the text
    [.customBlock_]; group 2, [[^_]+]; an underscore; group 3, [\d+];
    a dot; group 4, [[^.]+].  The result holds the four groups. *)
Definition customBlockReg (s : string)
  : option (string * string * string * string) :=
  greedy notLineTerminator 0 (fun g1 =>
  lit ".customBlock_" (
  greedy notUnderscore 1 (fun g2 =>
  lit "_" (
  greedy isDigit 1 (fun g3 =>
  lit "." (
  greedy notDot 1 (fun g4 =>
  eos (g1, g2, g3, g4)))))))) s.

(** *** The plugin *)

Fixpoint embeddedFileNamesFrom (fileName : string) (i : nat)
  (blocks : list CustomBlock) : list string :=
  match blocks with
  | [] => []
  | customBlock :: rest =>
      (fileName ++ ".customBlock_" ++ type customBlock ++ "_"
       ++ numberToString i ++ "." ++ lang customBlock)
      :: embeddedFileNamesFrom fileName (S i) rest
  end.

Definition getEmbeddedFileNames (fileName : string) (sfc : Sfc)
  : list string :=
  embeddedFileNamesFrom fileName 0 (customBlocks sfc).

(** [resolveEmbeddedFile] returns the embedded file after its update.
    Reading a field of a custom block that does not exist throws. *)
Definition resolveEmbeddedFile (_fileName : string) (sfc : Sfc)
  (embeddedFile : EmbeddedFile) : result EmbeddedFile :=
  match customBlockReg (fileName embeddedFile) with
  | Some (_, _, g3, _) =>
      match parseInt g3 with
      | Some index =>
          match nth_error (customBlocks sfc) index with
          | Some customBlock =>
              Ok {| fileName := fileName embeddedFile;
                    fileContent :=
                      (fileContent embeddedFile
                       ++ [ {| chunkText := content customBlock;
                               chunkSource := name customBlock;
                               chunkOffset := 0;
                               chunkFeatures := enableAllFeatures |} ])%list
                 |}
          | None => Throw
          end
      | None => Throw
      end
  | None => Ok embeddedFile
  end.

(** The name listed for a custom block at index [i]. *)
Definition embeddedFileName (fileName : string) (i : nat)
  (customBlock : CustomBlock) : string :=
  fileName ++ ".customBlock_" ++ type customBlock ++ "_"
  ++ numberToString i ++ "." ++ lang customBlock.

Definition chunkOf (customBlock : CustomBlock) : Chunk :=
  {| chunkText := content customBlock;
     chunkSource := name customBlock;
     chunkOffset := 0;
     chunkFeatures := enableAllFeatures |}.

Definition emptyFile (fileName : string) : EmbeddedFile :=
  {| fileName := fileName; fileContent := [] |}.

(** *** Facts *)

Lemma embeddedFileNamesFrom_nth (fileName : string)
  (blocks : list CustomBlock) (start i : nat) :
  nth_error (embeddedFileNamesFrom fileName start blocks) i
  = option_map (embeddedFileName fileName (start + i)) (nth_error blocks i).
Proof.
  revert start i; induction blocks as [|b blocks IH]; intros start [|i];
    simpl; try reflexivity.
  - now rewrite Nat.add_0_r.
  - rewrite IH. now replace (S start + i) with (start + S i) by lia.
Qed.

(** One name per custom block, in order, built from the type, the index
    and the language of the block. *)
Lemma getEmbeddedFileNames_spec (fileName : string) (sfc : Sfc) :
  List.length (getEmbeddedFileNames fileName sfc)
  = List.length (customBlocks sfc)
  /\ forall i,
      nth_error (getEmbeddedFileNames fileName sfc) i
      = option_map (embeddedFileName fileName i)
          (nth_error (customBlocks sfc) i).
Proof.
  unfold getEmbeddedFileNames. split.
  - generalize 0. induction (customBlocks sfc) as [|b l IH]; intros n; simpl;
      [reflexivity | now rewrite IH].
  - intros i. apply embeddedFileNamesFrom_nth.
Qed.

(** *** Facts about the matcher *)

(** The character after a run is not in the class, or the input ends. *)
Definition headFails (cls : ascii -> bool) (s : string) : bool :=
  match s with
  | "" => true
  | String c _ => negb (cls c)
  end.

(** The run of a class in front of a text. *)
Lemma classRun_append (cls : ascii -> bool) (a b : string) :
  allChars cls a = true -> headFails cls b = true ->
  classRun cls (a ++ b) = String.length a.
Proof.
  intros Ha Hb. induction a as [|c a IH]; simpl in *.
  - destruct b as [|d b]; simpl in *; [reflexivity|].
    now destruct (cls d).
  - apply andb_prop in Ha as [-> Ha]. now rewrite IH.
Qed.

Lemma classRun_ge (cls : ascii -> bool) (a b : string) :
  allChars cls a = true -> String.length a <= classRun cls (a ++ b).
Proof.
  intros Ha. induction a as [|c a IH]; simpl in *; [lia|].
  apply andb_prop in Ha as [-> Ha]. specialize (IH Ha). lia.
Qed.

Lemma take_classRun (cls : ascii -> bool) (n : nat) (s : string) :
  n <= classRun cls s -> allChars cls (take n s) = true.
Proof.
  revert s; induction n as [|n IH]; intros [|c s] H; simpl in *;
    try reflexivity; try lia.
  destruct (cls c); [|lia]. simpl. apply IH. lia.
Qed.

(** A result of [tryDown] is the result of one of its candidates; a
    candidate that succeeds makes [tryDown] succeed; the first candidate
    wins when it succeeds. *)
Lemma tryDown_some {R} (least n : nat) (k : nat -> option R) (r : R) :
  tryDown least n k = Some r ->
  exists m, least <= m <= n /\ k m = Some r.
Proof.
  induction n as [|n IH]; cbn [tryDown].
  - destruct (Nat.ltb_spec 0 least); [discriminate|].
    destruct (k 0) eqn:E; [|discriminate]. intros [= <-].
    exists 0. split; [lia | exact E].
  - destruct (Nat.ltb_spec (S n) least); [discriminate|].
    destruct (k (S n)) eqn:E.
    + intros [= <-]. exists (S n). split; [lia|exact E].
    + intros H'. destruct (IH H') as (m & Hm & Hk).
      exists m. split; [lia | exact Hk].
Qed.

Lemma tryDown_complete {R} (least n m : nat) (k : nat -> option R) (r : R) :
  least <= m <= n -> k m = Some r -> exists r', tryDown least n k = Some r'.
Proof.
  intros Hm Hk. induction n as [|n IH]; cbn [tryDown].
  - assert (m = 0) by lia. subst m.
    destruct (Nat.ltb_spec 0 least); [lia|]. rewrite Hk. now exists r.
  - destruct (Nat.ltb_spec (S n) least); [lia|].
    destruct (k (S n)) as [r'|] eqn:E; [now exists r'|].
    apply IH. destruct (Nat.eq_dec m (S n)) as [->|]; [congruence|lia].
Qed.

Lemma tryDown_first {R} (least n : nat) (k : nat -> option R) (r : R) :
  least <= n -> k n = Some r -> tryDown least n k = Some r.
Proof.
  intros Hn Hk. destruct n as [|n]; cbn [tryDown].
  - destruct (Nat.ltb_spec 0 least); [lia|]. now rewrite Hk.
  - destruct (Nat.ltb_spec (S n) least); [lia|]. now rewrite Hk.
Qed.

(** What a successful match of each combinator says about the input. *)
Lemma greedy_some {R} (cls : ascii -> bool) (least : nat)
  (k : string -> string -> option R) (s : string) (r : R) :
  greedy cls least k s = Some r ->
  exists n, least <= n <= classRun cls s
            /\ k (take n s) (drop n s) = Some r.
Proof. apply tryDown_some. Qed.

Lemma lit_some {R} (p : string) (k : string -> option R) (s : string) (r : R) :
  lit p k s = Some r -> s = p ++ drop (String.length p) s
                        /\ k (drop (String.length p) s) = Some r.
Proof.
  unfold lit. destruct (String.prefix p s) eqn:E; [|discriminate].
  intros H. split; [now apply prefix_split | exact H].
Qed.

Lemma eos_some {R} (r r' : R) (s : string) :
  eos r s = Some r' -> s = "" /\ r' = r.
Proof.
  unfold eos. destruct (String.eqb_spec s ""); [|discriminate].
  intros [= <-]. now split.
Qed.

(** A match of [customBlockReg] splits the input into its groups. *)
Lemma customBlockReg_sound (s g1 g2 g3 g4 : string) :
  customBlockReg s = Some (g1, g2, g3, g4) ->
  s = ((g1 ++ ".customBlock_" ++ g2) ++ String "_" g3) ++ String "." g4
  /\ allChars isDigit g3 = true
  /\ allChars notDot g4 = true.
Proof.
  unfold customBlockReg. intros H.
  apply greedy_some in H as (n1 & _ & H).
  apply lit_some in H as (E1 & H).
  apply greedy_some in H as (n2 & _ & H).
  apply lit_some in H as (E2 & H).
  apply greedy_some in H as (n3 & Hn3 & H).
  apply lit_some in H as (E3 & H).
  apply greedy_some in H as (n4 & Hn4 & H).
  apply eos_some in H as (E4 & [= -> -> -> ->]).
  split; [|split].
  - rewrite <- (take_drop n1 s) at 1. rewrite E1 at 1.
    set (r2 := drop (String.length ".customBlock_") (drop n1 s)) in *.
    rewrite <- (take_drop n2 r2) at 1. rewrite E2 at 1.
    set (r4 := drop (String.length "_") (drop n2 r2)) in *.
    rewrite <- (take_drop n3 r4) at 1. rewrite E3 at 1.
    set (r6 := drop (String.length ".") (drop n3 r4)) in *.
    rewrite <- (take_drop n4 r6) at 1. rewrite E4, append_nil_r.
    now rewrite !append_assoc.
  - apply take_classRun, Hn3.
  - apply take_classRun, Hn4.
Qed.

(** A quantifier whose longest run is followed by a successful
    continuation stops there. *)
Lemma greedy_at {R} (cls : ascii -> bool) (least : nat)
  (k : string -> string -> option R) (a b : string) (r : R) :
  allChars cls a = true -> headFails cls b = true ->
  least <= String.length a ->
  k a b = Some r ->
  greedy cls least k (a ++ b) = Some r.
Proof.
  intros Ha Hb Hl Hk. unfold greedy. rewrite (classRun_append _ _ _ Ha Hb).
  apply tryDown_first; [exact Hl|]. now rewrite take_append, drop_append.
Qed.

Lemma lit_at {R} (p : string) (k : string -> option R) (s : string) :
  lit p k (p ++ s) = k s.
Proof. unfold lit. now rewrite prefix_append, drop_append. Qed.

Lemma length_pos (s : string) : s <> "" -> 1 <= String.length s.
Proof. destruct s; [congruence | simpl; lia]. Qed.

(** The pattern matches a name built from a file name without line
    terminator, a type without underscore, digits, and a language
    without dot. *)
Lemma customBlockReg_matches (F T D L : string) :
  allChars notLineTerminator F = true ->
  T <> "" -> allChars notUnderscore T = true ->
  D <> "" -> allChars isDigit D = true ->
  L <> "" -> allChars notDot L = true ->
  exists r,
    customBlockReg (F ++ ".customBlock_" ++ T ++ "_" ++ D ++ "." ++ L)
    = Some r.
Proof.
  intros HF HT1 HT2 HD1 HD2 HL1 HL2. unfold customBlockReg, greedy at 1.
  eapply (tryDown_complete 0 _ (String.length F)).
  - split; [lia|]. now apply classRun_ge.
  - rewrite take_append, drop_append, lit_at.
    apply greedy_at; [exact HT2 | reflexivity | now apply length_pos |].
    change ("_" ++ D ++ "." ++ L) with ("_" ++ (D ++ "." ++ L)).
    rewrite lit_at.
    apply greedy_at; [exact HD2 | reflexivity | now apply length_pos |].
    rewrite lit_at. rewrite <- (append_nil_r L) at 1.
    apply greedy_at; [exact HL2 | reflexivity | now apply length_pos |].
    reflexivity.
Qed.

Lemma digits_notUnderscore (s : string) :
  allChars isDigit s = true -> allChars notUnderscore s = true.
Proof.
  induction s as [|c s IH]; simpl; [reflexivity|].
  intros H. apply andb_prop in H as [Hc Hs]. rewrite (IH Hs), andb_true_r.
  unfold notUnderscore.
  destruct (Ascii.eqb_spec c "_"); [now subst | reflexivity].
Qed.

Lemma embeddedFileName_assoc (fileName : string) (i : nat)
  (block : CustomBlock) :
  embeddedFileName fileName i block
  = ((fileName ++ ".customBlock_" ++ type block)
     ++ String "_" (numberToString i)) ++ String "." (lang block).
Proof.
  unfold embeddedFileName. rewrite !append_assoc. reflexivity.
Qed.

(** Resolving the name listed for a custom block appends the chunk of
    that block, when the file name has no line terminator, the type of the
    block is not empty and has no underscore, and its language is not
    empty and has no dot. *)
Lemma listed_name_resolved (fileName : string) (sfc : Sfc) (i : nat)
  (block : CustomBlock) (chunks : list Chunk) :
  nth_error (customBlocks sfc) i = Some block ->
  allChars notLineTerminator fileName = true ->
  type block <> "" -> allChars notUnderscore (type block) = true ->
  lang block <> "" -> allChars notDot (lang block) = true ->
  resolveEmbeddedFile fileName sfc
    {| CustomBlocks.fileName := embeddedFileName fileName i block;
       fileContent := chunks |}
  = Ok {| CustomBlocks.fileName := embeddedFileName fileName i block;
          fileContent := (chunks ++ [chunkOf block])%list |}.
Proof.
  intros Hnth HF HT1 HT2 HL1 HL2.
  destruct (customBlockReg_matches fileName (type block) (numberToString i)
              (lang block) HF HT1 HT2 (numberToString_nonempty i)
              (numberToString_digits i) HL1 HL2) as ([[[g1 g2] g3] g4] & Hm).
  fold (embeddedFileName fileName i block) in Hm.
  destruct (customBlockReg_sound _ _ _ _ _ Hm) as (Hs & Hg3 & Hg4).
  rewrite embeddedFileName_assoc in Hs.
  apply append_sep_unique in Hs as [Hs _]; [|exact HL2|exact Hg4].
  apply append_sep_unique in Hs as [_ Hs];
    [|apply digits_notUnderscore, numberToString_digits
     |apply digits_notUnderscore, Hg3].
  subst g3. unfold resolveEmbeddedFile. cbn [CustomBlocks.fileName fileContent].
  now rewrite Hm, parseInt_numberToString, Hnth.
Qed.

(** The scenario of the specification: the block [docs] in [md] at
    index 0 of [Widget.vue]. *)
Example docs_block_resolved :
  let block := {| type := "docs"; lang := "md"; content := "# Widget";
                  name := "customBlock_0" |} in
  let sfc := {| customBlocks := [block] |} in
  getEmbeddedFileNames "Widget.vue" sfc = ["Widget.vue.customBlock_docs_0.md"]
  /\ resolveEmbeddedFile "Widget.vue" sfc
       (emptyFile "Widget.vue.customBlock_docs_0.md")
     = Ok {| fileName := "Widget.vue.customBlock_docs_0.md";
             fileContent :=
               [ {| chunkText := "# Widget"; chunkSource := "customBlock_0";
                    chunkOffset := 0; chunkFeatures := enableAllFeatures |} ]
          |}.
Proof. split; reflexivity. Qed.

(** C2 (defect of the code): for a custom block whose type contains an
    underscore the generator lists the name built from the type, the index
    and the language, but resolving that name appends no chunk, because
    the second group of [customBlockReg] does not match an underscore.
    Here the block has type [my_block], language [md], index 0, in
    [Widget.vue]. *)
Theorem custom_block_type_with_underscore_not_resolved :
  let block := {| type := "my_block"; lang := "md"; content := "# Widget";
                  name := "customBlock_0" |} in
  let sfc := {| customBlocks := [block] |} in
  getEmbeddedFileNames "Widget.vue" sfc
  = ["Widget.vue.customBlock_my_block_0.md"]
  /\ customBlockReg "Widget.vue.customBlock_my_block_0.md" = None
  /\ resolveEmbeddedFile "Widget.vue" sfc
       (emptyFile "Widget.vue.customBlock_my_block_0.md")
     = Ok (emptyFile "Widget.vue.customBlock_my_block_0.md").
Proof. repeat split; vm_compute; reflexivity. Qed.

End CustomBlocks.

(** ** The template service plugin ([vue-template.ts]) *)

Module VueTemplate.
Import JsString.
Import Throwing.
Import TextDocument.

(** *** Internal item identifiers *)

Inductive InternalItemType := componentEvent | componentProp.

Definition typeTag (type : InternalItemType) : string :=
  match type with
  | componentEvent => "componentEvent"
  | componentProp => "componentProp"
  end.

Definition createInternalItemId (type : InternalItemType) (args : list string)
  : string :=
  "__VLS_::" ++ typeTag type ++ "::" ++ join args ",".

(** What [readInternalItemId] returns for a key with the sentinel; the
    type is whatever text stands in its place. *)
Record InternalItemId := { idType : string; idArgs : list string }.

(** [None] is [undefined].  With fewer than three pieces [strs[2]] is
    [undefined] and the call of [split] on it throws. *)
Definition readInternalItemId (key : string) : result (option InternalItemId) :=
  if startsWith key "__VLS_::" then
    let strs := split key "::" in
    match strs with
    | _ :: type :: args :: _ =>
        Ok (Some {| idType := type; idArgs := split args "," |})
    | _ => Throw
    end
  else Ok None.

(** *** Completion items *)

Inductive Documentation :=
| DocString (value : string)
| DocMarkup (kind value : string).

(** The fields of a completion item the post-pass reads or writes. *)
Record CompletionItem := {
  label : string;
  kind : option nat;
  documentation : option Documentation;
  sortText : option string
}.

Definition has (set : list string) (x : string) : bool :=
  existsb (String.eqb x) set.

Definition prefixed (c : ascii) (item : CompletionItem) : option string :=
  Some (String c match sortText item with
                 | Some s => s
                 | None => label item
                 end).

Definition setDocumentation (d : option Documentation) (item : CompletionItem)
  : CompletionItem :=
  {| label := label item; kind := kind item; documentation := d;
     sortText := sortText item |}.

Definition setKind (k : nat) (item : CompletionItem) : CompletionItem :=
  {| label := label item; kind := Some k;
     documentation := documentation item; sortText := sortText item |}.

Definition setSortText (s : option string) (item : CompletionItem)
  : CompletionItem :=
  {| label := label item; kind := kind item;
     documentation := documentation item; sortText := s |}.

Definition kindIs (item : CompletionItem) (k : nat) : bool :=
  match kind item with
  | Some k' => Nat.eqb k' k
  | None => false
  end.

Section Plugin.

(** [hyphenateTag] of the language core. *)
Variable hyphenateTag : string -> string.

(** The body of the loop over the items in [afterHtmlCompletion];
    [componentNames] is the set of hyphenated component names. *)
Definition afterHtmlCompletionItem (componentNames : list string)
  (item : CompletionItem) : result CompletionItem :=
  let itemIdKey :=
    match documentation item with
    | Some (DocString s) => Some s
    | Some (DocMarkup _ value) => Some value
    | None => None
    end in
  bind
    (match itemIdKey with
     | Some key => if key =? "" then Ok None else readInternalItemId key
     | None => Ok None
     end)
    (fun itemId =>
       let item :=
         match itemId with
         | Some _ => setDocumentation None item
         | None => item
         end in
       let byLabel :=
         if (label item =? "v-if") || (label item =? "v-else-if")
            || (label item =? "v-else") || (label item =? "v-for")
         then setSortText (prefixed "003" item) (setKind 14 item)
         else if startsWith (label item) "v-"
         then setSortText (prefixed "002" item) (setKind 3 item)
         else setSortText (prefixed "001" item) item in
       if kindIs item 10 && has componentNames (hyphenateTag (label item))
       then Ok (setSortText (prefixed "000" item) (setKind 6 item))
       else
         match itemId with
         | Some id =>
             if (idType id =? "componentProp")
                || (idType id =? "componentEvent")
             then
               let notGlobal :=
                 match idArgs id with
                 | componentName :: _ => negb (componentName =? "*")
                 | [] => true
                 end in
               let item :=
                 if notGlobal then setSortText (prefixed "000" item) item
                 else item in
               if idType id =? "componentProp" then
                 Ok (if notGlobal then setKind 5 item else item)
               else Ok (setKind (if notGlobal then 3 else 23) item)
             else Ok byLabel
         | None => Ok byLabel
         end).

(** The loop over the items of the completion list. *)
Fixpoint afterHtmlCompletionItems (componentNames : list string)
  (items : list CompletionItem) : result (list CompletionItem) :=
  match items with
  | [] => Ok []
  | item :: rest =>
      bind (afterHtmlCompletionItem componentNames item) (fun item' =>
      bind (afterHtmlCompletionItems componentNames rest) (fun rest' =>
      Ok (item' :: rest')))
  end.

End Plugin.

(** *** Facts about the internal item identifiers *)

Lemma split_createInternalItemId (type : InternalItemType)
  (args : list string) :
  Forall (fun a => includes a "::" = false) args ->
  split (createInternalItemId type args) "::"
  = ["__VLS_"; typeTag type; join args ","].
Proof.
  intros H. apply includes_colons_join in H.
  unfold createInternalItemId, split.
  remember (join args ",") as rest eqn:E. clear E.
  destruct type; simpl; now rewrite prefix_nil, (split_go_absent _ _ _ H).
Qed.

(** C10 (as stated) does not hold for the empty argument list, whose
    strings vacuously contain neither [::] nor a comma: the key of no
    arguments reads back as the list of one empty string. *)
Lemma internal_item_id_empty_args_not_restored :
  readInternalItemId (createInternalItemId componentProp [])
  = Ok (Some {| idType := "componentProp"; idArgs := [""] |})
  /\ readInternalItemId (createInternalItemId componentProp [])
     <> Ok (Some {| idType := typeTag componentProp; idArgs := [] |}).
Proof. split; [reflexivity | discriminate]. Qed.

(** C10 (amended): for both types and every non-empty argument list
    whose strings contain neither [::] nor a comma, reading the created
    identifier returns the type and the argument list; and a string that
    does not start with the sentinel reads as nothing. *)
Theorem internal_item_id_round_trip :
  (forall (type : InternalItemType) (args : list string),
     args <> [] ->
     Forall (fun a => includes a "::" = false /\ includes a "," = false)
       args ->
     readInternalItemId (createInternalItemId type args)
     = Ok (Some {| idType := typeTag type; idArgs := args |}))
  /\
  (forall key : string,
     startsWith key "__VLS_::" = false -> readInternalItemId key = Ok None).
Proof.
  split.
  - intros type args Hne Hargs.
    assert (H1 : Forall (fun a => includes a "::" = false) args)
      by (eapply Forall_impl; [|exact Hargs]; now intros a [? _]).
    assert (H2 : Forall (fun a => includes a "," = false) args)
      by (eapply Forall_impl; [|exact Hargs]; now intros a [_ ?]).
    unfold readInternalItemId.
    replace (startsWith (createInternalItemId type args) "__VLS_::")
      with true by (symmetry; apply prefix_append).
    rewrite (split_createInternalItemId _ _ H1).
    now rewrite (split_join_char "," args Hne H2).
  - intros key H. unfold readInternalItemId. now rewrite H.
Qed.

Lemma internal_item_id_round_trip_witness :
  readInternalItemId (createInternalItemId componentProp ["MyButton"; "size"])
  = Ok (Some {| idType := "componentProp"; idArgs := ["MyButton"; "size"] |})
  /\ readInternalItemId "A plain description" = Ok None.
Proof.
  split.
  - apply (proj1 internal_item_id_round_trip componentProp
             ["MyButton"; "size"]); [discriminate|].
    repeat constructor.
  - apply (proj2 internal_item_id_round_trip); reflexivity.
Defined.

(** *** The completion post-pass, as a specification *)

Definition itemIdKey (item : CompletionItem) : option string :=
  match documentation item with
  | Some (DocString s) => Some s
  | Some (DocMarkup _ value) => Some value
  | None => None
  end.

(** The documentation of the item starts with the sentinel. *)
Definition carriesSentinel (item : CompletionItem) : bool :=
  match itemIdKey item with
  | Some key => startsWith key "__VLS_::"
  | None => false
  end.

(** After the sentinel the documentation has a type and an argument
    segment, as every identifier made by [createInternalItemId] has. *)
Definition wellFormed (item : CompletionItem) : bool :=
  match itemIdKey item with
  | Some key =>
      negb (startsWith key "__VLS_::")
      || Nat.leb 3 (List.length (split key "::"))
  | None => true
  end.

(** The component named by the identifier of a prop or event item. *)
Definition componentOf (item : CompletionItem) : option string :=
  match itemIdKey item with
  | Some key =>
      if startsWith key "__VLS_::" then
        match split key "::" with
        | _ :: type :: args :: _ =>
            if (type =? "componentProp") || (type =? "componentEvent")
            then Some (hd "" (split args ","))
            else None
        | _ => None
        end
      else None
  | None => None
  end.

Definition isComponentTag (hyphenateTag : string -> string)
  (componentNames : list string) (item : CompletionItem) : bool :=
  kindIs item 10 && has componentNames (hyphenateTag (label item)).

Definition isStructural (item : CompletionItem) : bool :=
  (label item =? "v-if") || (label item =? "v-else-if")
  || (label item =? "v-else") || (label item =? "v-for").

Definition isDirective (item : CompletionItem) : bool :=
  startsWith (label item) "v-".

(** The group of an item, as the first character of its sort key; the
    prop and event items of the global component ["*"] that are not
    component tags are in no group. *)
Definition sortGroup (hyphenateTag : string -> string)
  (componentNames : list string) (item : CompletionItem) : option ascii :=
  if isComponentTag hyphenateTag componentNames item then Some "000"%char
  else
    match componentOf item with
    | Some componentName =>
        if componentName =? "*" then None else Some "000"%char
    | None =>
        if isStructural item then Some "003"%char
        else if isDirective item then Some "002"%char
        else Some "001"%char
    end.

(** The group of an item by the wording of the specification, which has
    four groups and no item outside of them. *)
Definition specSortGroup (hyphenateTag : string -> string)
  (componentNames : list string) (item : CompletionItem) : ascii :=
  if isComponentTag hyphenateTag componentNames item then "000"%char
  else
    match componentOf item with
    | Some componentName =>
        if componentName =? "*" then
          if isStructural item then "003"%char
          else if isDirective item then "002"%char
          else "001"%char
        else "000"%char
    | None =>
        if isStructural item then "003"%char
        else if isDirective item then "002"%char
        else "001"%char
    end.

(** The sort key an item has before the pass, and the key a client
    compares: the label stands in for a missing [sortText]. *)
Definition sortKey (item : CompletionItem) : string :=
  match sortText item with
  | Some s => s
  | None => label item
  end.

(** A stand-in for [hyphenateTag] in the examples: an upper-case letter
    becomes lower-case, after a hyphen unless it is the first character. *)
Definition isUpper (c : ascii) : bool :=
  Nat.leb 65 (nat_of_ascii c) && Nat.leb (nat_of_ascii c) 90.

Fixpoint kebabFrom (first : bool) (s : string) : string :=
  match s with
  | "" => ""
  | String c s' =>
      if isUpper c
      then (if first then "" else "-")
           ++ String (ascii_of_nat (nat_of_ascii c + 32)) (kebabFrom false s')
      else String c (kebabFrom false s')
  end.

Definition kebab (s : string) : string := kebabFrom true s.

(** *** Facts about the completion post-pass *)

Lemma wellFormed_key (key : string) :
  (negb (startsWith key "__VLS_::")
   || Nat.leb 3 (List.length (split key "::"))) = true ->
  (key =? "") = true
  \/ startsWith key "__VLS_::" = false
  \/ exists s0 type args rest,
       split key "::" = s0 :: type :: args :: rest
       /\ startsWith key "__VLS_::" = true /\ (key =? "") = false.
Proof.
  intros H. destruct (key =? "") eqn:E; [now left | right].
  destruct (startsWith key "__VLS_::") eqn:Es; [right | now left].
  simpl in H. destruct (split key "::") as [|s0 [|type [|args rest]]];
    try discriminate.
  now exists s0, type, args, rest.
Qed.

Ltac split_conditions :=
  repeat match goal with
         | |- context [if ?b then _ else _] => destruct b eqn:?
         | |- context [match ?b with Some _ => _ | None => _ end] =>
             destruct b eqn:?
         end.

(** The pass on one item with a well-formed documentation. *)
Lemma afterHtmlCompletionItem_spec (hyphenateTag : string -> string)
  (componentNames : list string) (item : CompletionItem) :
  wellFormed item = true ->
  exists item',
    afterHtmlCompletionItem hyphenateTag componentNames item = Ok item'
    /\ label item' = label item
    /\ documentation item'
       = (if carriesSentinel item then None else documentation item)
    /\ sortText item'
       = match sortGroup hyphenateTag componentNames item with
         | Some g => Some (String g (sortKey item))
         | None => sortText item
         end.
Proof.
  intros Hwf.
  unfold afterHtmlCompletionItem, sortGroup, componentOf, isComponentTag,
    isStructural, isDirective, carriesSentinel, sortKey, prefixed, kindIs in *.
  unfold wellFormed in Hwf. unfold itemIdKey in *.
  destruct item as [lbl knd doc srt];
    cbn [label kind documentation sortText] in *.
  destruct doc as [[key|k key]|]; cbn [bind];
    try (destruct (wellFormed_key key Hwf)
           as [E|[E|(s0 & t & a & rest & E1 & E2 & E3)]];
         [ apply String.eqb_eq in E; subst key; simpl
         | unfold readInternalItemId; rewrite E;
           destruct (key =? ""); cbn [bind]
         | unfold readInternalItemId; rewrite E1, E2, E3; cbn [bind];
           destruct (split a ",") as [|cn rest']; cbn [idType idArgs hd] ]);
    cbn [label kind documentation sortText
           setDocumentation setKind setSortText];
    split_conditions; try discriminate; simpl in *; try discriminate;
    eexists; repeat split; reflexivity.
Qed.

(** Sort keys that differ in their first character compare as these
    characters do. *)
Lemma group_prefix_separates (g1 g2 : ascii) (k1 k2 : string) :
  nat_of_ascii g1 < nat_of_ascii g2 ->
  String.compare (String g1 k1) (String g2 k2) = Lt.
Proof.
  intros H. cbn [String.compare]. unfold Ascii.compare.
  replace (N.compare (N_of_ascii g1) (N_of_ascii g2)) with Lt; [reflexivity|].
  symmetry. apply N.compare_lt_iff. unfold nat_of_ascii in H. lia.
Qed.

(** C6 (as stated) does not hold: the item of the attribute [class] of
    the global component ["*"] is a generic, non-directive item, yet the
    pass gives it no sort key of the second group; it keeps the key it
    had, here none, so that a client, which then compares the label,
    orders it after the structural directive [v-if]. *)
Lemma completion_groups_as_stated_fail :
  let globalClass :=
    {| label := "class"; kind := Some 12;
       documentation :=
         Some (DocMarkup "markdown"
                 (createInternalItemId componentProp ["*"; "class"]));
       sortText := None |} in
  let vIf :=
    {| label := "v-if"; kind := Some 12; documentation := None;
       sortText := None |} in
  exists globalClass' vIf',
    afterHtmlCompletionItems kebab [] [globalClass; vIf]
    = Ok [globalClass'; vIf']
    /\ specSortGroup kebab [] globalClass = "001"%char
    /\ specSortGroup kebab [] vIf = "003"%char
    /\ sortText globalClass' = None
    /\ sortText globalClass'
       <> Some (String (specSortGroup kebab [] globalClass)
                  (sortKey globalClass))
    /\ String.compare (sortKey globalClass') (sortKey vIf') = Gt.
Proof.
  do 2 eexists. split; [vm_compute; reflexivity|].
  repeat (split; [vm_compute; reflexivity|]).
  split; [discriminate | vm_compute; reflexivity].
Qed.

(** C6 (amended): when every documentation that carries the sentinel has
    its type and argument segments, the pass returns one item per item,
    with the same label; every item carrying the sentinel has its
    documentation removed; component tags and the props and events of a
    component other than the global ["*"] get a sort key of the first
    group, the structural directives v-if, v-else-if, v-else and v-for a
    key of the last group, the other items whose label starts with [v-] a
    key of the third group, and the remaining items a key of the second
    group, except that the props and events of the global component keep
    their sort key.  A key of a group is the group's character in front of
    the former key, and keys of different groups compare as the groups. *)
Theorem completion_post_pass :
  (forall (hyphenateTag : string -> string) (componentNames : list string)
          (items : list CompletionItem),
     forallb wellFormed items = true ->
     exists items',
       afterHtmlCompletionItems hyphenateTag componentNames items = Ok items'
       /\ Forall2
            (fun item item' =>
               label item' = label item
               /\ documentation item'
                  = (if carriesSentinel item then None
                     else documentation item)
               /\ sortText item'
                  = match sortGroup hyphenateTag componentNames item with
                    | Some g => Some (String g (sortKey item))
                    | None => sortText item
                    end)
            items items')
  /\
  (forall (g1 g2 : ascii) (k1 k2 : string),
     nat_of_ascii g1 < nat_of_ascii g2 ->
     String.compare (String g1 k1) (String g2 k2) = Lt).
Proof.
  split; [|exact group_prefix_separates].
  intros hyphenateTag componentNames items.
  induction items as [|item items IH]; intros Hwf.
  - exists []. split; [reflexivity | constructor].
  - cbn [forallb] in Hwf. apply andb_prop in Hwf as [Hitem Hitems].
    destruct (afterHtmlCompletionItem_spec hyphenateTag componentNames
                item Hitem) as (item' & Hrun & Hspec).
    destruct (IH Hitems) as (items' & Hruns & Hspecs).
    exists (item' :: items'). cbn [afterHtmlCompletionItems].
    rewrite Hrun, Hruns. split; [reflexivity | now constructor].
Qed.

Lemma completion_post_pass_witness :
  exists items',
    afterHtmlCompletionItems kebab ["my-button"]
      [ {| label := "my-button"; kind := Some 10; documentation := None;
           sortText := None |};
        {| label := "size"; kind := Some 12;
           documentation :=
             Some (DocMarkup "markdown"
                     (createInternalItemId componentProp ["MyButton"; "size"]));
           sortText := None |};
        {| label := "id"; kind := Some 12; documentation := None;
           sortText := None |};
        {| label := "v-html"; kind := Some 12; documentation := None;
           sortText := None |};
        {| label := "v-for"; kind := Some 12; documentation := None;
           sortText := None |} ]
    = Ok items'
    /\ map sortText items'
       = [ Some (String "000" "my-button"); Some (String "000" "size");
           Some (String "001" "id"); Some (String "002" "v-html");
           Some (String "003" "v-for") ]
    /\ map documentation items' = [None; None; None; None; None].
Proof.
  edestruct (proj1 completion_post_pass kebab ["my-button"])
    as (items' & H & _); [|exists items'; split; [exact H|]].
  - reflexivity.
  - vm_compute in H. injection H as <-. split; reflexivity.
Defined.

(** *** Diagnostics and semantic tokens *)

Record SourceLocation := { locStart : nat; locEnd : nat }.

(** An error or warning of the template compiler; [loc] may be absent. *)
Record CompilerError := {
  loc : option SourceLocation;
  message : string;
  code : nat
}.

Record Template := {
  errors : list CompilerError;
  warnings : list CompilerError
}.

(** The part of a Vue file the providers read: the template block of its
    [sfc], and the names [getComponentNames] finds for it. *)
Record VueFile := {
  template : option Template;
  componentNames : list string
}.

(** A map of the virtual file; [sourceVirtualFile] is [Some] when the
    virtual file of its source document is a [VueFile]. *)
Record SourceMapWithDocuments := { sourceVirtualFile : option VueFile }.

Record Diagnostic := {
  diagRange : Range;
  severity : nat;
  diagCode : nat;
  source : string;
  diagMessage : string
}.

(** Token types of the markup scanner; the end of the token list stands
    for [EOS]. *)
Inductive TokenType :=
| StartCommentTag | Comment | EndCommentTag
| StartTagOpen | StartTagClose | StartTagSelfClose | StartTag
| EndTagOpen | EndTagClose | EndTag
| DelimiterAssign | AttributeName | AttributeValue
| StartDoctypeTag | Doctype | EndDoctypeTag
| Content | Whitespace | Unknown | Script | Styles.

(** What the scanner reports after a call of [scan]. *)
Record ScanToken := {
  tokenType : TokenType;
  tokenOffset : nat;
  tokenLength : nat;
  tokenText : string
}.

(** A scanner is the list of the tokens it has not delivered yet. *)
Definition Scanner := list ScanToken.

Record SemanticTokensLegend := { tokenTypes : list string }.

(** [[line, character, length, tokenType, 0]]. *)
Record SemanticToken := {
  tokLine : nat;
  tokCharacter : nat;
  tokLength : nat;
  tokType : Z;
  tokModifiers : nat
}.

(** [Array.prototype.indexOf]. *)
Fixpoint arrayIndexOf (l : list string) (x : string) : Z :=
  match l with
  | [] => (-1)%Z
  | y :: l' =>
      if y =? x then 0%Z
      else match arrayIndexOf l' x with
           | Zneg _ => (-1)%Z
           | i => (i + 1)%Z
           end
  end.

(** The services the plugin is built on. *)
Record Services := {
  isSupportedDocument : TextDocument.t -> bool;
  baseProvideDiagnostics : TextDocument.t -> option (list Diagnostic);
  baseProvideDocumentSemanticTokens :
    TextDocument.t -> Range -> SemanticTokensLegend
    -> option (list SemanticToken);
  getScanner : TextDocument.t -> option Scanner;
  (** the maps of the virtual file of a document, if it has one *)
  getMaps : TextDocument.t -> option (list SourceMapWithDocuments)
}.

Definition orEmpty {A} (o : option (list A)) : list A :=
  match o with
  | Some l => l
  | None => []
  end.

Definition onCompilerError (document : TextDocument.t) (error : CompilerError)
  (severity : nat) : Diagnostic :=
  let templateHtmlRange :=
    match loc error with
    | Some l => (locStart l, locEnd l)
    | None => (0, 0)
    end in
  {| diagRange :=
       {| start := positionAt document (fst templateHtmlRange);
          end_ := positionAt document (snd templateHtmlRange) |};
     severity := severity;
     diagCode := code error;
     source := "vue";
     diagMessage := message error |}.

Definition templateErrorsOf (document : TextDocument.t) (file : VueFile)
  : list Diagnostic :=
  match template file with
  | Some template =>
      (map (fun error => onCompilerError document error 1) (errors template)
       ++ map (fun warning => onCompilerError document warning 2)
            (warnings template))%list
  | None => []
  end.

(** The loop over the maps returns at the first map of a Vue file. *)
Fixpoint diagnosticsOfMaps (document : TextDocument.t)
  (originalResult : option (list Diagnostic))
  (maps : list SourceMapWithDocuments) : option (list Diagnostic) :=
  match maps with
  | [] => None
  | map :: rest =>
      match sourceVirtualFile map with
      | None => diagnosticsOfMaps document originalResult rest
      | Some file =>
          Some (orEmpty originalResult ++ templateErrorsOf document file)%list
      end
  end.

Definition provideDiagnostics (services : Services) (document : TextDocument.t)
  : option (list Diagnostic) :=
  if negb (isSupportedDocument services document) then None
  else
    let originalResult := baseProvideDiagnostics services document in
    match getMaps services document with
    | None => None
    | Some maps => diagnosticsOfMaps document originalResult maps
    end.

Definition isTag (t : TokenType) : bool :=
  match t with
  | StartTag | EndTag => true
  | _ => false
  end.

(** The scanning loop for one map: it ends at the end of the tokens, or
    with the first token that starts after the range, which is consumed.
    The result is the scanner left and the tokens collected. *)
Fixpoint scanTags (document : TextDocument.t) (legend : SemanticTokensLegend)
  (components : list string) (offsetStart offsetEnd : nat)
  (scanner : Scanner) (result : list SemanticToken)
  : Scanner * list SemanticToken :=
  match scanner with
  | [] => ([], result)
  | token :: rest =>
      if Nat.ltb offsetEnd (tokenOffset token) then (rest, result)
      else
        let result :=
          if Nat.leb offsetStart (tokenOffset token)
             && isTag (tokenType token)
          then
            if has components (tokenText token)
               || match indexOf (tokenText token) "." with
                  | Some _ => true
                  | None => false
                  end
            then
              let tokenPosition := positionAt document (tokenOffset token) in
              if has components (tokenText token) then
                let tokenType := arrayIndexOf (tokenTypes legend) "component" in
                let tokenType :=
                  if (tokenType =? -1)%Z
                  then arrayIndexOf (tokenTypes legend) "class"
                  else tokenType in
                (result
                 ++ [ {| tokLine := line tokenPosition;
                         tokCharacter := character tokenPosition;
                         tokLength := tokenLength token;
                         tokType := tokenType;
                         tokModifiers := 0 |} ])%list
              else result
            else result
          else result in
        scanTags document legend components offsetStart offsetEnd rest result
  end.

Definition provideDocumentSemanticTokens (hyphenateTag : string -> string)
  (services : Services) (document : TextDocument.t) (range : Range)
  (legend : SemanticTokensLegend) : option (list SemanticToken) :=
  if negb (isSupportedDocument services document) then None
  else
    let result :=
      orEmpty (baseProvideDocumentSemanticTokens services document range
                 legend) in
    match getScanner services document with
    | None => None
    | Some scanner =>
        match getMaps services document with
        | None => None
        | Some maps =>
            Some
              (snd
                 (fold_left
                    (fun '(scanner, result) map =>
                       match sourceVirtualFile map with
                       | None => (scanner, result)
                       | Some sourceFile =>
                           let templateScriptData :=
                             componentNames sourceFile in
                           let components :=
                             (templateScriptData
                              ++ List.map hyphenateTag templateScriptData)%list
                           in
                           scanTags document legend components
                             (offsetAt document (start range))
                             (offsetAt document (end_ range))
                             scanner result
                       end)
                    maps (scanner, result)))
        end
    end.

(** *** Facts about the diagnostics provider *)

(** The Vue file of the first map that has one. *)
Fixpoint firstVueFile (maps : list SourceMapWithDocuments) : option VueFile :=
  match maps with
  | [] => None
  | map :: rest =>
      match sourceVirtualFile map with
      | Some file => Some file
      | None => firstVueFile rest
      end
  end.

Lemma diagnosticsOfMaps_firstVueFile (document : TextDocument.t)
  (originalResult : option (list Diagnostic))
  (maps : list SourceMapWithDocuments) :
  diagnosticsOfMaps document originalResult maps
  = option_map
      (fun file =>
         (orEmpty originalResult ++ templateErrorsOf document file)%list)
      (firstVueFile maps).
Proof.
  induction maps as [|map maps IH]; simpl; [reflexivity|].
  now destruct (sourceVirtualFile map).
Qed.

Definition origin : Position := {| line := 0; character := 0 |}.

(** The diagnostic of a compiler error without location. *)
Definition unlocated (error : CompilerError) (severity : nat) : Diagnostic :=
  {| diagRange := {| start := origin; end_ := origin |};
     severity := severity;
     diagCode := code error;
     source := "vue";
     diagMessage := message error |}.

Lemma onCompilerError_unlocated (document : TextDocument.t)
  (error : CompilerError) (severity : nat) :
  loc error = None ->
  onCompilerError document error severity = unlocated error severity.
Proof.
  intros H. unfold onCompilerError, unlocated. rewrite H. cbn [fst snd].
  now rewrite positionAt_0.
Qed.

(** C8: for a supported document whose virtual file has a map of a Vue
    file, the provider returns the diagnostics of the backend followed by
    the template diagnostics; every template diagnostic has the source
    [vue]; an error of the template compiler without location yields a
    diagnostic of severity 1 (Error), a warning without location one of
    severity 2 (Warning), each with the empty range at line 0, column 0,
    the position of offset 0. *)
Theorem template_errors_without_location :
  forall (services : Services) (document : TextDocument.t)
         (maps : list SourceMapWithDocuments) (file : VueFile),
    isSupportedDocument services document = true ->
    getMaps services document = Some maps ->
    firstVueFile maps = Some file ->
    exists templateErrors,
      provideDiagnostics services document
      = Some (orEmpty (baseProvideDiagnostics services document)
              ++ templateErrors)%list
      /\ Forall (fun d => source d = "vue") templateErrors
      /\ (forall tpl error,
            template file = Some tpl -> In error (errors tpl) ->
            loc error = None ->
            In {| diagRange := {| start := positionAt document 0;
                                  end_ := positionAt document 0 |};
                  severity := 1; diagCode := code error; source := "vue";
                  diagMessage := message error |} templateErrors)
      /\ (forall tpl warning,
            template file = Some tpl -> In warning (warnings tpl) ->
            loc warning = None ->
            In {| diagRange := {| start := positionAt document 0;
                                  end_ := positionAt document 0 |};
                  severity := 2; diagCode := code warning; source := "vue";
                  diagMessage := message warning |} templateErrors)
      /\ positionAt document 0 = {| line := 0; character := 0 |}.
Proof.
  intros services document maps file Hs Hm Hf.
  exists (templateErrorsOf document file).
  unfold provideDiagnostics. rewrite Hs, Hm. cbn [negb].
  rewrite diagnosticsOfMaps_firstVueFile, Hf. cbn [option_map].
  split; [reflexivity|]. rewrite positionAt_0.
  unfold templateErrorsOf. repeat split.
  - destruct (template file) as [tpl|]; [|constructor].
    apply Forall_app. split; apply Forall_map, Forall_forall; reflexivity.
  - intros tpl error -> Hin Hloc. apply in_or_app. left.
    apply in_map_iff. exists error. split; [|exact Hin].
    now apply onCompilerError_unlocated.
  - intros tpl warning -> Hin Hloc. apply in_or_app. right.
    apply in_map_iff. exists warning. split; [|exact Hin].
    now apply onCompilerError_unlocated.
Qed.

(** A template with one error and one warning, both without location,
    behind a map that has no Vue file. *)
Definition missingEndTag : CompilerError :=
  {| loc := None; message := "Element is missing end tag."; code := 24 |}.

Definition deprecatedFilter : CompilerError :=
  {| loc := None; message := "Filters are removed."; code := 48 |}.

Definition backendDiagnostic : Diagnostic :=
  {| diagRange := {| start := {| line := 0; character := 1 |};
                     end_ := {| line := 0; character := 4 |} |};
     severity := 3; diagCode := 0; source := "html";
     diagMessage := "Unknown tag." |}.

Definition brokenFile : VueFile :=
  {| template := Some {| errors := [missingEndTag];
                         warnings := [deprecatedFilter] |};
     componentNames := [] |}.

Definition diagnosticServices : Services :=
  {| isSupportedDocument := fun _ => true;
     baseProvideDiagnostics := fun _ => Some [backendDiagnostic];
     baseProvideDocumentSemanticTokens := fun _ _ _ => None;
     getScanner := fun _ => None;
     getMaps := fun _ =>
       Some [ {| sourceVirtualFile := None |};
              {| sourceVirtualFile := Some brokenFile |} ] |}.

Lemma template_errors_without_location_witness :
  exists templateErrors,
    provideDiagnostics diagnosticServices
      (create "file:///Widget.vue.template.html" "html" 1 "<div>")
    = Some ([backendDiagnostic] ++ templateErrors)%list
    /\ In (unlocated missingEndTag 1) templateErrors
    /\ In (unlocated deprecatedFilter 2) templateErrors.
Proof.
  destruct (template_errors_without_location diagnosticServices
              (create "file:///Widget.vue.template.html" "html" 1 "<div>")
              _ brokenFile eq_refl eq_refl eq_refl)
    as (templateErrors & Hrun & _ & Herr & Hwarn & _).
  exists templateErrors. split; [exact Hrun | split].
  - apply (Herr _ missingEndTag eq_refl); [now left | reflexivity].
  - apply (Hwarn _ deprecatedFilter eq_refl); [now left | reflexivity].
Defined.

(** *** Facts about the semantic tokens provider *)

(** The token emitted for a tag that is a component. *)
Definition componentToken (document : TextDocument.t)
  (legend : SemanticTokensLegend) (token : ScanToken) : SemanticToken :=
  let tokenPosition := positionAt document (tokenOffset token) in
  {| tokLine := line tokenPosition;
     tokCharacter := character tokenPosition;
     tokLength := tokenLength token;
     tokType :=
       if (arrayIndexOf (tokenTypes legend) "component" =? -1)%Z
       then arrayIndexOf (tokenTypes legend) "class"
       else arrayIndexOf (tokenTypes legend) "component";
     tokModifiers := 0 |}.

(** The tokens one scan adds: those of the tags, among the tokens in
    front of the first token after the range, that start in the range and
    whose whole text is in the component set. *)
Fixpoint tagsAdded (document : TextDocument.t) (legend : SemanticTokensLegend)
  (components : list string) (offsetStart offsetEnd : nat)
  (scanner : Scanner) : list SemanticToken :=
  match scanner with
  | [] => []
  | token :: rest =>
      if Nat.ltb offsetEnd (tokenOffset token) then []
      else
        (if Nat.leb offsetStart (tokenOffset token)
            && isTag (tokenType token)
            && has components (tokenText token)
         then [componentToken document legend token]
         else [])
        ++ tagsAdded document legend components offsetStart offsetEnd rest
  end%list.

Lemma scanTags_tagsAdded (document : TextDocument.t)
  (legend : SemanticTokensLegend) (components : list string)
  (offsetStart offsetEnd : nat) (scanner : Scanner)
  (result : list SemanticToken) :
  snd (scanTags document legend components offsetStart offsetEnd scanner
         result)
  = (result
     ++ tagsAdded document legend components offsetStart offsetEnd
          scanner)%list.
Proof.
  revert result; induction scanner as [|token rest IH]; intros result;
    cbn [scanTags tagsAdded].
  - now rewrite app_nil_r.
  - destruct (Nat.ltb offsetEnd (tokenOffset token));
      [now rewrite app_nil_r|].
    rewrite IH. unfold componentToken.
    destruct (Nat.leb offsetStart (tokenOffset token)
              && isTag (tokenType token)); cbn [andb]; [|reflexivity].
    destruct (has components (tokenText token)); cbn [orb];
      [now rewrite <- app_assoc|].
    now destruct (indexOf (tokenText token) ".").
Qed.

(** A tag in the range whose text is a component name, as it is or
    hyphenated, gets its token, when no token in front of it starts after
    the range. *)
Lemma component_tag_classified (hyphenateTag : string -> string)
  (document : TextDocument.t) (legend : SemanticTokensLegend)
  (names : list string) (offsetStart offsetEnd : nat)
  (front back : Scanner) (token : ScanToken) (result : list SemanticToken) :
  Forall (fun t => tokenOffset t <= offsetEnd) front ->
  offsetStart <= tokenOffset token <= offsetEnd ->
  isTag (tokenType token) = true ->
  In (tokenText token) names
  \/ (exists n, In n names /\ hyphenateTag n = tokenText token) ->
  In (componentToken document legend token)
    (snd (scanTags document legend (names ++ map hyphenateTag names)%list
            offsetStart offsetEnd (front ++ token :: back)%list result)).
Proof.
  intros Hfront [Hs He] Htag Hname.
  rewrite scanTags_tagsAdded. apply in_or_app. right.
  induction Hfront as [|t front Ht _ IH]; cbn [app tagsAdded].
  - replace (Nat.ltb offsetEnd (tokenOffset token)) with false
      by (symmetry; apply Nat.ltb_ge; exact He).
    replace (Nat.leb offsetStart (tokenOffset token)) with true
      by (symmetry; apply Nat.leb_le; exact Hs).
    rewrite Htag. cbn [andb].
    replace (has (names ++ map hyphenateTag names) (tokenText token))
      with true; [now left|].
    symmetry. apply existsb_exists. exists (tokenText token).
    split; [|apply String.eqb_refl].
    apply in_or_app. destruct Hname as [H|(n & Hn & <-)]; [now left|right].
    now apply in_map.
  - replace (Nat.ltb offsetEnd (tokenOffset t)) with false
      by (symmetry; apply Nat.ltb_ge; exact Ht).
    apply in_or_app. now right.
Qed.

(** A template document with the tokens of its scanner, for a Vue file
    whose only component is [Foo]. *)
Definition tagTokens (tag : string) : Scanner :=
  let n := String.length tag in
  [ {| tokenType := StartTagOpen; tokenOffset := 0; tokenLength := 1;
       tokenText := "<" |};
    {| tokenType := StartTag; tokenOffset := 1; tokenLength := n;
       tokenText := tag |};
    {| tokenType := StartTagClose; tokenOffset := 1 + n; tokenLength := 1;
       tokenText := ">" |};
    {| tokenType := EndTagOpen; tokenOffset := 2 + n; tokenLength := 2;
       tokenText := "</" |};
    {| tokenType := EndTag; tokenOffset := 4 + n; tokenLength := n;
       tokenText := tag |};
    {| tokenType := EndTagClose; tokenOffset := 4 + n + n; tokenLength := 1;
       tokenText := ">" |} ].

Definition tagDocument (tag : string) : TextDocument.t :=
  create "file:///Widget.vue.template.html" "html" 1
    ("<" ++ tag ++ "></" ++ tag ++ ">").

Definition fooFile : VueFile :=
  {| template := None; componentNames := ["Foo"] |}.

Definition tagServices (tag : string) : Services :=
  {| isSupportedDocument := fun _ => true;
     baseProvideDiagnostics := fun _ => None;
     baseProvideDocumentSemanticTokens := fun _ _ _ => None;
     getScanner := fun _ => Some (tagTokens tag);
     getMaps := fun _ => Some [ {| sourceVirtualFile := Some fooFile |} ] |}.

Definition wholeLine : Range :=
  {| start := {| line := 0; character := 0 |};
     end_ := {| line := 0; character := 100 |} |}.

Definition demoLegend : SemanticTokensLegend :=
  {| tokenTypes := ["namespace"; "class"; "component"] |}.

(** C5 (defect of the code): a namespaced tag is not matched on the
    segment before its first dot.  With [Foo] the only known component,
    the tags of [<Foo.Bar></Foo.Bar>] get no token: the provider looks up
    the whole text [Foo.Bar] in the component set, whatever [hyphenateTag]
    is, as long as it does not turn [Foo] into [Foo.Bar].  The tags of
    [<Foo></Foo>] do get their tokens, of the type [component]. *)
Theorem namespaced_tag_not_matched_on_first_segment :
  forall hyphenateTag : string -> string,
    hyphenateTag "Foo" <> "Foo.Bar" ->
    provideDocumentSemanticTokens hyphenateTag (tagServices "Foo.Bar")
      (tagDocument "Foo.Bar") wholeLine demoLegend
    = Some []
    /\ provideDocumentSemanticTokens hyphenateTag (tagServices "Foo")
         (tagDocument "Foo") wholeLine demoLegend
       = Some [ {| tokLine := 0; tokCharacter := 1; tokLength := 3;
                   tokType := 2; tokModifiers := 0 |};
                {| tokLine := 0; tokCharacter := 7; tokLength := 3;
                   tokType := 2; tokModifiers := 0 |} ].
Proof.
  intros hyphenateTag H.
  assert (E : ("Foo.Bar" =? hyphenateTag "Foo") = false)
    by (apply String.eqb_neq; congruence).
  unfold provideDocumentSemanticTokens.
  cbn [tagServices isSupportedDocument negb getScanner getMaps
         baseProvideDocumentSemanticTokens orEmpty fold_left
         sourceVirtualFile fooFile componentNames map app].
  rewrite !scanTags_tagsAdded. cbn [snd app].
  split; [f_equal | reflexivity].
  cbn -[String.eqb]. unfold has. cbn [existsb]. rewrite E. reflexivity.
Qed.

Lemma namespaced_tag_not_matched_on_first_segment_witness :
  provideDocumentSemanticTokens kebab (tagServices "Foo.Bar")
    (tagDocument "Foo.Bar") wholeLine demoLegend
  = Some [].
Proof.
  apply (namespaced_tag_not_matched_on_first_segment kebab).
  vm_compute. discriminate.
Defined.

End VueTemplate.

(** ** Further facts about strings *)

Module StringFacts.
Import JsString.

Lemma allChars_append (cls : ascii -> bool) (a b : string) :
  allChars cls (a ++ b) = allChars cls a && allChars cls b.
Proof.
  induction a as [|c a IH]; simpl; [reflexivity|].
  now rewrite IH, andb_assoc.
Qed.

Lemma allChars_drop (cls : ascii -> bool) (n : nat) (s : string) :
  allChars cls s = true -> allChars cls (drop n s) = true.
Proof.
  revert s; induction n as [|n IH]; intros [|c s] H; simpl in *; auto.
  apply andb_prop in H as [_ H]. now apply IH.
Qed.

Lemma allChars_take (cls : ascii -> bool) (n : nat) (s : string) :
  allChars cls s = true -> allChars cls (take n s) = true.
Proof.
  revert s; induction n as [|n IH]; intros [|c s] H; simpl in *; auto.
  apply andb_prop in H as [-> H]. now apply IH.
Qed.

Lemma allChars_leadingWhiteSpace (cls : ascii -> bool) (s : string) :
  allChars cls s = true -> allChars cls (leadingWhiteSpace s) = true.
Proof.
  induction s as [|c s IH]; simpl; [reflexivity|].
  intros H. apply andb_prop in H as [Hc H].
  destruct (isWhiteSpace c); simpl; [now rewrite Hc, IH | reflexivity].
Qed.

(** Removing an occurrence of a pattern keeps the characters in their
    class. *)
Lemma allChars_replace_nil (cls : ascii -> bool) (s pat : string) :
  allChars cls s = true -> allChars cls (JsString.replace s pat "") = true.
Proof.
  induction s as [|c s IH]; intros H.
  - cbn [JsString.replace].
    destruct (String.prefix pat ""); [|reflexivity].
    cbn [append]. now apply allChars_drop.
  - cbn [JsString.replace].
    destruct (String.prefix pat (String c s)).
    + cbn [append]. now apply allChars_drop.
    + simpl in *. apply andb_prop in H as [-> H]. now apply IH.
Qed.

(** [trimStart] passes over a run of white space. *)
Lemma trimStart_white (w s : string) :
  allChars isWhiteSpace w = true -> trimStart (w ++ s) = trimStart s.
Proof.
  induction w as [|c w IH]; simpl; [reflexivity|].
  intros H. apply andb_prop in H as [-> H]. now apply IH.
Qed.

(** A text has no occurrence of a character when no character of it is
    that character. *)
Lemma includes_char (c : ascii) (s : string) :
  includes s (String c "") = negb (allChars (fun d => negb (Ascii.eqb d c)) s).
Proof.
  induction s as [|d s IH]; [reflexivity|].
  cbn [includes allChars String.prefix]. rewrite IH, prefix_nil.
  destruct (ascii_dec c d) as [->|N].
  - now rewrite Ascii.eqb_refl.
  - replace (Ascii.eqb d c) with false; [reflexivity|].
    symmetry. apply Ascii.eqb_neq. congruence.
Qed.

(** The pieces of a split at a character do not hold that character. *)
Lemma split_go_pieces (c : ascii) (cur s : string) :
  allChars (fun d => negb (Ascii.eqb d c)) cur = true ->
  Forall (fun p => allChars (fun d => negb (Ascii.eqb d c)) p = true)
    (split_go (String c "") 0 cur s).
Proof.
  revert cur; induction s as [|d s IH]; intros cur H; cbn [split_go].
  - now constructor.
  - cbn [String.prefix]. rewrite prefix_nil.
    destruct (ascii_dec c d) as [->|N]; cbn [String.length Nat.sub].
    + constructor; [exact H | now apply IH].
    + apply IH. rewrite allChars_append, H. cbn [allChars].
      replace (Ascii.eqb d c) with false; [reflexivity|].
      symmetry. apply Ascii.eqb_neq. congruence.
Qed.

Lemma split_pieces (c : ascii) (s : string) :
  Forall (fun p => allChars (fun d => negb (Ascii.eqb d c)) p = true)
    (split s (String c "")).
Proof. now apply split_go_pieces. Qed.

(** [split] undoes [join], for pieces given by their characters. *)
Lemma split_join_pieces (c : ascii) (l : list string) :
  l <> [] ->
  Forall (fun p => allChars (fun d => negb (Ascii.eqb d c)) p = true) l ->
  split (join l (String c "")) (String c "") = l.
Proof.
  intros Hne H. apply split_join_char; [exact Hne|].
  eapply Forall_impl; [|exact H]. intros p Hp. cbv beta in *.
  now rewrite includes_char, Hp.
Qed.

Lemma drop_length (s : string) : drop (String.length s) s = "".
Proof. induction s as [|c s IH]; [reflexivity | exact IH]. Qed.

Lemma drop_drop (n m : nat) (s : string) : drop n (drop m s) = drop (m + n) s.
Proof.
  revert s; induction m as [|m IH]; intros s; [reflexivity|].
  destruct s as [|c s]; simpl; [now destruct n | apply IH].
Qed.

Lemma length_take (n : nat) (s : string) :
  String.length (take n s) = Nat.min n (String.length s).
Proof.
  revert s; induction n as [|n IH]; intros [|c s]; simpl; auto.
Qed.

(** Joining the pieces of a split at a character gives the text back. *)
Lemma join_split_go (c : ascii) (cur s : string) :
  join (split_go (String c "") 0 cur s) (String c "") = cur ++ s.
Proof.
  revert cur; induction s as [|d s IH]; intros cur; cbn [split_go].
  - simpl. now rewrite append_nil_r.
  - cbn [String.prefix]. rewrite prefix_nil.
    destruct (ascii_dec c d) as [->|N]; cbn [String.length Nat.sub].
    + unfold join in *. cbn [String.concat].
      destruct (split_go (String d "") 0 "" s) as [|x l] eqn:E.
      { exfalso. revert E. apply split_go_not_nil. }
      rewrite <- E, IH. reflexivity.
    + rewrite IH, append_assoc. reflexivity.
Qed.

Lemma join_split (c : ascii) (s : string) :
  join (split s (String c "")) (String c "") = s.
Proof. apply (join_split_go c "" s). Qed.

Lemma join_cons2 (sep x y : string) (l : list string) :
  join (x :: y :: l) sep = x ++ sep ++ join (y :: l) sep.
Proof. reflexivity. Qed.

(** [join] with a separator, as the first piece followed by the other
    pieces, each behind a separator. *)
Lemma join_cons (sep x : string) (l : list string) :
  join (x :: l) sep = x ++ join (map (fun m => sep ++ m) l) "".
Proof.
  revert x; induction l as [|y l IH]; intros x.
  - cbn. now rewrite append_nil_r.
  - rewrite join_cons2, (IH y). cbn [map].
    destruct (map (fun m => sep ++ m) l) as [|z l'] eqn:E.
    + cbn. now rewrite !append_nil_r.
    + rewrite join_cons2. cbn [append]. now rewrite append_assoc.
Qed.

Lemma join_nil_app (a b : list string) :
  join (a ++ b) "" = join a "" ++ join b "".
Proof.
  induction a as [|x a IH]; [reflexivity|].
  destruct a as [|y a].
  - cbn [app]. destruct b as [|z b]; [cbn; now rewrite append_nil_r|].
    now rewrite join_cons2.
  - change ((x :: y :: a) ++ b)%list with (x :: y :: (a ++ b))%list.
    rewrite !join_cons2. cbn [append].
    change (y :: (a ++ b))%list with ((y :: a) ++ b)%list.
    rewrite IH. now rewrite append_assoc.
Qed.

(** A text that holds a character splits at it into two pieces or more;
    the text is then what stands in front of its last occurrence, the
    character, and the last piece. *)
Lemma split_last (c : ascii) (s : string) :
  includes s (String c "") = true ->
  exists front typed,
    s = front ++ String c typed
    /\ includes typed (String c "") = false
    /\ front
       = hd "" (split s (String c ""))
         ++ join (map (fun m => String c "" ++ m)
                    (removelast (tl (split s (String c ""))))) "".
Proof.
  intros H.
  pose proof (join_split c s) as Hj.
  pose proof (split_pieces c s) as Hp.
  destruct (split s (String c "")) as [|p0 rest] eqn:E.
  { exfalso. revert E. apply split_go_not_nil. }
  destruct rest as [|p1 rest].
  { exfalso. cbn in Hj. subst p0. inversion Hp as [|? ? Hs _]; subst.
    rewrite includes_char, Hs in H. discriminate. }
  assert (Hne : p1 :: rest <> []) by discriminate.
  rewrite (app_removelast_last "" Hne) in Hj, Hp.
  cbn [hd tl].
  generalize dependent (last (p1 :: rest) "").
  generalize (removelast (p1 :: rest)). intros middle typed Hj Hp.
  exists (p0 ++ join (map (fun m => String c "" ++ m) middle) ""), typed.
  split; [|split].
  - rewrite <- Hj at 1. rewrite join_cons, map_app, join_nil_app.
    cbn [map]. unfold join at 3. cbn [String.concat append].
    now rewrite append_assoc.
  - inversion Hp as [|? ? _ Hp']; subst.
    apply Forall_app in Hp' as [_ Hl]. inversion Hl as [|? ? Hlast _]; subst.
    now rewrite includes_char, Hlast.
  - reflexivity.
Qed.

End StringFacts.

(** ** Line breaks and the line table *)

Module LineTable.
Import JsString.
Import TextDocument.
Import StringFacts.

(** The offset after a line feed is in the line table. *)
Lemma lineOffsetsFrom_lf (n : nat) :
  forall s i j, String.length s <= n -> String.get j s = Some LF ->
  In (i + j + 1) (lineOffsetsFrom i s).
Proof.
  induction n as [|n IH]; intros [|c s] i j Hn Hj; simpl in Hn;
    try (destruct j; discriminate); try lia.
  cbn [lineOffsetsFrom].
  destruct (Ascii.eqb_spec c CR) as [->|Hcr].
  - destruct j as [|j]; [discriminate|]. cbn [String.get] in Hj.
    destruct s as [|d s]; [destruct j; discriminate|].
    destruct (Ascii.eqb_spec d LF) as [->|Hlf].
    + destruct j as [|j].
      * left. lia.
      * right. cbn [String.get] in Hj.
        replace (i + S (S j) + 1) with (i + 2 + j + 1) by lia.
        apply IH; [simpl in Hn; lia | exact Hj].
    + right. replace (i + S j + 1) with (i + 1 + j + 1) by lia.
      apply IH; [lia | exact Hj].
  - destruct (Ascii.eqb_spec c LF) as [->|Hlf].
    + destruct j as [|j]; [left; lia|]. right. cbn [String.get] in Hj.
      replace (i + S j + 1) with (i + 1 + j + 1) by lia.
      apply IH; [lia | exact Hj].
    + destruct j as [|j]; [cbn in Hj; congruence|]. cbn [String.get] in Hj.
      replace (i + S j + 1) with (i + 1 + j + 1) by lia.
      apply IH; [lia | exact Hj].
Qed.

Lemma sorted_nth (l : list nat) :
  StronglySorted lt l ->
  forall a b, a < b < List.length l -> nth a l 0 < nth b l 0.
Proof.
  induction 1 as [|x l Hs IH Hx]; intros a b Hab; simpl in Hab; [lia|].
  destruct b as [|b]; [lia|]. destruct a as [|a]; cbn [nth].
  - rewrite Forall_forall in Hx. apply Hx, nth_In. lia.
  - apply IH. lia.
Qed.

(** The line of a position starts at its line offset. *)
Lemma lineStart_nth (d : t) (n : nat) :
  offsetAt d {| line := line (positionAt d n); character := 0 |}
  = nth (line (positionAt d n)) (getLineOffsets d) 0.
Proof.
  rewrite positionAt_locate.
  pose proof (locate_spec (getLineOffsets d) (lineOffsetsFrom 0 (content d))
                0 0 (Nat.min n (String.length (content d))) eq_refl
                (Nat.le_0_l _)) as H.
  cbv zeta in H. destruct H as (H1 & _).
  unfold offsetAt. cbn [line character].
  destruct (Nat.leb_spec (List.length (getLineOffsets d))
              (line (locate 0 0 (lineOffsetsFrom 0 (content d))
                       (Nat.min n (String.length (content d))))));
    [lia|].
  destruct (Nat.ltb _ _); lia.
Qed.

(** No line of the table starts after the line of a position and at or
    before its offset. *)
Lemma no_line_start_between (d : t) (n o : nat) :
  In o (getLineOffsets d) ->
  o <= nth (line (positionAt d n)) (getLineOffsets d) 0
  \/ Nat.min n (String.length (content d)) < o.
Proof.
  intros Ho. rewrite positionAt_locate.
  pose proof (locate_spec (getLineOffsets d) (lineOffsetsFrom 0 (content d))
                0 0 (Nat.min n (String.length (content d))) eq_refl
                (Nat.le_0_l _)) as H.
  cbv zeta in H. destruct H as (H1 & H2 & _ & H4).
  set (p := locate 0 0 (lineOffsetsFrom 0 (content d))
              (Nat.min n (String.length (content d)))) in *.
  destruct (In_nth _ _ 0 Ho) as (k & Hk & <-).
  pose proof (sorted_nth _ (getLineOffsets_sorted d)) as Hs.
  destruct (Nat.le_gt_cases k (line p)) as [Hle|Hgt].
  - left. destruct (Nat.eq_dec k (line p)) as [->|]; [lia|].
    specialize (Hs k (line p)). lia.
  - right. assert (Hn : line p + 1 < List.length (getLineOffsets d)) by lia.
    specialize (H4 Hn).
    destruct (Nat.eq_dec k (line p + 1)) as [->|]; [lia|].
    specialize (Hs (line p + 1) k). lia.
Qed.

Lemma get_drop (n j : nat) (s : string) :
  String.get j (drop n s) = String.get (n + j) s.
Proof.
  revert s; induction n as [|n IH]; intros s; [reflexivity|].
  destruct s as [|c s]; simpl; [now destruct j | apply IH].
Qed.

Lemma allChars_take_get (cls : ascii -> bool) (k : nat) (s : string) :
  (forall j c, j < k -> String.get j s = Some c -> cls c = true) ->
  allChars cls (take k s) = true.
Proof.
  revert s; induction k as [|k IH]; intros [|c s] H; simpl; auto.
  rewrite (H 0 c); [|lia|reflexivity]. simpl. apply IH.
  intros j c' Hj Hc. apply (H (S j) c'); [lia | exact Hc].
Qed.

(** The text between the start of the line of an offset and that offset
    holds no line feed. *)
Lemma line_prefix_no_lf (d : t) (n : nat) :
  allChars (fun c => negb (Ascii.eqb c LF))
    (substring
       (offsetAt d {| line := line (positionAt d n); character := 0 |})
       n (content d))
  = true.
Proof.
  rewrite lineStart_nth.
  set (lo := nth (line (positionAt d n)) (getLineOffsets d) 0).
  set (m := Nat.min n (String.length (content d))).
  assert (Hlo : lo <= m).
  { unfold lo, m. rewrite positionAt_locate.
    pose proof (locate_spec (getLineOffsets d)
                  (lineOffsetsFrom 0 (content d)) 0 0
                  (Nat.min n (String.length (content d))) eq_refl
                  (Nat.le_0_l _)) as H.
    cbv zeta in H. tauto. }
  unfold substring. cbv zeta. fold m.
  replace (Nat.min lo (String.length (content d))) with lo
    by (unfold m in *; lia).
  replace (Nat.min lo m) with lo by lia.
  replace (Nat.max lo m) with m by lia.
  apply allChars_take_get. intros j c Hj Hc. rewrite get_drop in Hc.
  destruct (Ascii.eqb_spec c LF) as [->|]; [|reflexivity]. exfalso.
  assert (Hin : In (lo + j + 1) (getLineOffsets d)).
  { right. apply (lineOffsetsFrom_lf _ (content d) 0 (lo + j) (le_n _) Hc). }
  destruct (no_line_start_between d n _ Hin) as [H|H];
    fold lo in H; fold m in H; lia.
Qed.

End LineTable.

(** ** Properties of the formatting orchestrator *)

Module FormattingProperties.
Import JsString.
Import Throwing.
Import TextDocument.
Import Formatting.
Import StringFacts.
Import LineTable.

Definition notLF (c : ascii) : bool := negb (Ascii.eqb c LF).

Lemma removalIndent_white (document : TextDocument.t) (maped : Mapping) :
  allChars isWhiteSpace (removalIndent document maped) = true
  /\ allChars notLF (removalIndent document maped) = true.
Proof.
  unfold removalIndent. split; [apply leadingWhiteSpace_white|].
  apply allChars_leadingWhiteSpace.
  pose proof (split_pieces LF (spanText document maped)) as H.
  fold nl in H. revert H. generalize (split (spanText document maped) nl).
  intros l H. induction H as [|x l Hx H IH]; [reflexivity|].
  destruct l; [exact Hx | exact IH].
Qed.

Lemma baseIndent_white (document : TextDocument.t) (maped : Mapping) :
  allChars isWhiteSpace (baseIndent document maped) = true
  /\ allChars notLF (baseIndent document maped) = true.
Proof.
  unfold baseIndent. split; [apply leadingWhiteSpace_white|].
  apply allChars_leadingWhiteSpace, line_prefix_no_lf.
Qed.

(** The repair of a line changes its leading white space only, and
    brings in no line feed. *)
Lemma repairLine_keeps (removeIndent baseIndent line : string) :
  allChars isWhiteSpace removeIndent = true ->
  allChars isWhiteSpace baseIndent = true ->
  trimStart (repairLine removeIndent baseIndent line) = trimStart line.
Proof.
  intros Hr Hb. unfold repairLine.
  destruct (startsWith line removeIndent) eqn:E.
  - rewrite (prefix_split _ _ E) at 2.
    now rewrite !trimStart_white.
  - apply trimStart_white. now apply allChars_replace_nil.
Qed.

Lemma repairLine_no_lf (removeIndent baseIndent line : string) :
  allChars notLF baseIndent = true -> allChars notLF line = true ->
  allChars notLF (repairLine removeIndent baseIndent line) = true.
Proof.
  intros Hb Hl. unfold repairLine.
  destruct (startsWith line removeIndent); rewrite allChars_append.
  - now rewrite Hb, allChars_drop.
  - now rewrite allChars_replace_nil, Hl.
Qed.

(** An edit of the pass comes from a mapping entry with the formatting
    capability whose span holds a line feed. *)
Lemma patchInterpolationIndent_In (sourceFile : SourceFile) (edit : TextEdit) :
  In edit (patchInterpolationIndent sourceFile) <->
  exists tsSourceMap maped,
    getTemplateFormattingScript sourceFile = Some tsSourceMap
    /\ In maped (mappings tsSourceMap)
    /\ formatting (capabilities (data maped)) = true
    /\ includes (spanText (getTextDocument sourceFile) maped) nl = true
    /\ edit = {| range := textRangeOf (getTextDocument sourceFile) maped;
                 newText := repair (getTextDocument sourceFile) maped |}.
Proof.
  rewrite patchInterpolationIndent_flat_map.
  destruct (getTemplateFormattingScript sourceFile) as [sm|].
  - rewrite in_flat_map. split.
    + intros (maped & Hin & H). rewrite patchMapping_spec in H.
      destruct (formatting (capabilities (data maped))) eqn:Ef;
        [|contradiction].
      destruct (includes (spanText (getTextDocument sourceFile) maped) nl)
        eqn:E; [|contradiction].
      destruct H as [<-|[]]. exists sm, maped. repeat split; auto.
    + intros (sm' & maped & [= <-] & Hin & Hf & Hnl & ->).
      exists maped. split; [exact Hin|].
      rewrite patchMapping_spec, Hf, Hnl. now left.
  - split; [contradiction|]. now intros (sm & maped & [=] & _).
Qed.

(** X1: every edit of the indentation repair keeps the lines of its span
    up to leading white space: the new text has as many lines as the
    span, the same first line, and every line without its leading white
    space is what it was. *)
Theorem repair_changes_leading_white_space_only :
  forall (sourceFile : SourceFile) (edit : TextEdit),
    In edit (patchInterpolationIndent sourceFile) ->
    exists tsSourceMap maped,
      getTemplateFormattingScript sourceFile = Some tsSourceMap
      /\ In maped (mappings tsSourceMap)
      /\ range edit = textRangeOf (getTextDocument sourceFile) maped
      /\ let before := split (spanText (getTextDocument sourceFile) maped) nl in
         let after := split (newText edit) nl in
         List.length after = List.length before
         /\ hd "" after = hd "" before
         /\ Forall2 (fun line line' => trimStart line' = trimStart line)
              before after.
Proof.
  intros sf edit H. apply patchInterpolationIndent_In in H
    as (sm & maped & Hsm & Hin & _ & _ & ->).
  exists sm, maped. repeat (split; [assumption || reflexivity|]).
  cbn [newText]. unfold repair.
  set (document := getTextDocument sf).
  destruct (removalIndent_white document maped) as [Hr1 _].
  destruct (baseIndent_white document maped) as [Hb1 Hb2].
  pose proof (split_pieces LF (spanText document maped)) as Hp.
  fold nl in Hp. fold notLF in Hp.
  destruct (split (spanText document maped) nl) as [|first interior] eqn:E.
  { exfalso. revert E. apply split_go_not_nil. }
  inversion Hp as [|? ? Hfirst Hint]; subst.
  cbn [mapInterior]. cbv zeta.
  set (after := first :: map (repairLine (removalIndent document maped)
                                (baseIndent document maped)) interior).
  assert (Hsj : split (join after nl) nl = after).
  { apply (split_join_pieces LF); [discriminate|].
    constructor; [exact Hfirst|]. apply Forall_map.
    eapply Forall_impl; [|exact Hint]. intros l Hl.
    now apply repairLine_no_lf. }
  rewrite Hsj. unfold after. cbn [List.length hd]. rewrite length_map.
  repeat split. constructor; [reflexivity|].
  clear -Hr1 Hb1. induction interior as [|l ls IH]; cbn [map];
    constructor; [now apply repairLine_keeps | exact IH].
Qed.

(** A template whose interpolation lost its indentation, with the edit
    the repair makes for it. *)
Definition flatTemplate : TextDocument.t :=
  vueDocument ("  <div>" ++ nl ++ "a" ++ nl ++ "b" ++ nl ++ "</div>").

Definition flatTemplateEdit : TextEdit :=
  {| range := {| start := {| line := 0; character := 2 |};
                 end_ := {| line := 3; character := 6 |} |};
     newText := "<div>" ++ nl ++ "  a" ++ nl ++ "  b" ++ nl ++ "  </div>" |}.

Lemma repair_changes_leading_white_space_only_witness :
  In flatTemplateEdit (patchInterpolationIndent (demoSourceFile flatTemplate))
  /\ exists tsSourceMap maped,
       getTemplateFormattingScript (demoSourceFile flatTemplate)
       = Some tsSourceMap
       /\ In maped (mappings tsSourceMap)
       /\ range flatTemplateEdit = textRangeOf flatTemplate maped
       /\ List.length (split (newText flatTemplateEdit) nl)
          = List.length (split (spanText flatTemplate maped) nl).
Proof.
  assert (H : In flatTemplateEdit
                (patchInterpolationIndent (demoSourceFile flatTemplate)))
    by (vm_compute; left; reflexivity).
  split; [exact H|].
  destruct (repair_changes_leading_white_space_only _ _ H)
    as (tsSourceMap & maped & H1 & H2 & H3 & H4 & _).
  exists tsSourceMap, maped. repeat split; assumption.
Defined.

(** The entries the repair rewrites. *)
Definition repaired (document : TextDocument.t) (maped : Mapping) : bool :=
  formatting (capabilities (data maped))
  && includes (spanText document maped) nl.

(** X2: the indentation repair emits one edit for each mapping entry that
    has the formatting capability and whose span holds a line feed, over
    that span and in the order of the entries, and no other edit; without
    a template formatting script it emits nothing. *)
Theorem repair_edits_by_entry :
  forall sourceFile : SourceFile,
    map range (patchInterpolationIndent sourceFile)
    = match getTemplateFormattingScript sourceFile with
      | Some tsSourceMap =>
          map (textRangeOf (getTextDocument sourceFile))
            (filter (repaired (getTextDocument sourceFile))
               (mappings tsSourceMap))
      | None => []
      end.
Proof.
  intros sf. rewrite patchInterpolationIndent_flat_map.
  destruct (getTemplateFormattingScript sf) as [sm|]; [|reflexivity].
  induction (mappings sm) as [|maped l IH]; [reflexivity|].
  cbn [flat_map filter]. rewrite map_app, IH, patchMapping_spec.
  unfold repaired at 2.
  destruct (formatting (capabilities (data maped))
            && includes (spanText (getTextDocument sf) maped) nl);
    reflexivity.
Qed.

Lemma flat_map_nil {A B} (f : A -> list B) (l : list A) :
  (forall a, In a l -> f a = []) -> flat_map f l = [].
Proof.
  induction l as [|a l IH]; intros H; [reflexivity|].
  cbn [flat_map]. rewrite (H a (or_introl eq_refl)), IH; [reflexivity|].
  intros b Hb. apply H. now right.
Qed.

Lemma styleFormatter_silent (formatters : Formatters) (id : string)
  (format : Formatter) :
  (forall d o, html formatters d o = [] /\ pug formatters d o = []
               /\ css formatters d o = [] /\ less formatters d o = []
               /\ scss formatters d o = [] /\ postcss formatters d o = []) ->
  styleFormatter formatters id = Some format -> forall d o, format d o = [].
Proof.
  intros H. unfold styleFormatter.
  destruct (id =? "css"); [intros [= <-] d o; apply H|].
  destruct (id =? "less"); [intros [= <-] d o; apply H|].
  destruct (id =? "scss"); [intros [= <-] d o; apply H|].
  destruct (id =? "postcss"); [intros [= <-] d o; apply H | discriminate].
Qed.

Lemma getHtmlFormattingEdits_flat_map (formatters : Formatters)
  (sourceFile : SourceFile) (options : FormattingOptions) :
  getHtmlFormattingEdits formatters sourceFile options
  = flat_map
      (fun sourceMap =>
         flat_map (fun edit => optionToList (translateEdit sourceMap edit))
           (html formatters (mappedDocument sourceMap) options))
      (getHtmlSourceMaps sourceFile).
Proof.
  unfold getHtmlFormattingEdits.
  rewrite (fold_left_append _
             (fun sm => flat_map
                          (fun edit => optionToList (translateEdit sm edit))
                          (html formatters (mappedDocument sm) options)));
    [reflexivity|].
  intros; apply pushTransformed_flat_map.
Qed.

Lemma getPugFormattingEdits_flat_map (formatters : Formatters)
  (sourceFile : SourceFile) (options : FormattingOptions) :
  getPugFormattingEdits formatters sourceFile options
  = flat_map
      (fun sourceMap =>
         flat_map (fun edit => optionToList (translateEdit sourceMap edit))
           (pug formatters (mappedDocument sourceMap) options))
      (getPugSourceMaps sourceFile).
Proof.
  unfold getPugFormattingEdits.
  rewrite (fold_left_append _
             (fun sm => flat_map
                          (fun edit => optionToList (translateEdit sm edit))
                          (pug formatters (mappedDocument sm) options)));
    [reflexivity|].
  intros; apply pushTransformed_flat_map.
Qed.

(** X3: when no backend returns an edit and the indentation repair has
    nothing to rewrite, the orchestrator reports no change. *)
Theorem silent_backends_no_change :
  forall (createSourceFile : TextDocument.t -> SourceFile)
         (update : SourceFile -> TextDocument.t -> SourceFile)
         (formatters : Formatters)
         (tsDoFormatting : TextDocument.t -> FormattingOptions -> list TextEdit)
         (document : TextDocument.t) (options : FormattingOptions),
    (forall d o, html formatters d o = [] /\ pug formatters d o = []
                 /\ css formatters d o = [] /\ less formatters d o = []
                 /\ scss formatters d o = [] /\ postcss formatters d o = []) ->
    (forall d o, tsDoFormatting d o = []) ->
    patchInterpolationIndent (createSourceFile document) = [] ->
    register createSourceFile update formatters tsDoFormatting document options
    = Ok None.
Proof.
  intros createSourceFile update formatters tsDoFormatting document options
    Hf Hts Hpatch.
  set (sf := createSourceFile document) in *.
  assert (Hpug : getPugFormattingEdits formatters sf options = []).
  { rewrite getPugFormattingEdits_flat_map. apply flat_map_nil.
    intros sm _. now rewrite (proj1 (proj2 (Hf _ _))). }
  assert (Hhtml : getHtmlFormattingEdits formatters sf options = []).
  { rewrite getHtmlFormattingEdits_flat_map. apply flat_map_nil.
    intros sm _. now rewrite (proj1 (Hf _ _)). }
  assert (Hcss : getCssFormattingEdits formatters sf options = []).
  { rewrite getCssFormattingEdits_flat_map. apply flat_map_nil.
    intros sm _. unfold styleEdits.
    destruct (formatting (mapCapabilities sm)); [|reflexivity].
    destruct (styleFormatter formatters (languageId (mappedDocument sm)))
      as [format|] eqn:E; [|reflexivity].
    now rewrite (styleFormatter_silent _ _ _ Hf E). }
  assert (Htsf : getTsFormattingEdits tsDoFormatting sf options = []).
  { rewrite getTsFormattingEdits_flat_map. apply flat_map_nil.
    intros sm _. rewrite Hts. now destruct (formatting (mapCapabilities sm)). }
  unfold register, runPasses. fold sf.
  rewrite Hpug, Hhtml.
  cbn [applyBatch List.length Nat.add Nat.ltb Nat.leb bind].
  rewrite Htsf, Hcss. cbn [applyBatch List.length Nat.add Nat.ltb Nat.leb bind].
  rewrite Hpatch. cbn. now rewrite String.eqb_refl.
Qed.

Definition silentFormatters : Formatters :=
  {| html := noEdits; pug := noEdits; css := noEdits; less := noEdits;
     scss := noEdits; postcss := noEdits |}.

Lemma silent_backends_no_change_witness :
  register (fun document => templateOnly document [])
    (fun sourceFile _ => sourceFile) silentFormatters (fun _ _ => [])
    flatTemplate demoOptions
  = Ok None.
Proof.
  apply silent_backends_no_change.
  - intros d o. repeat split; reflexivity.
  - reflexivity.
  - reflexivity.
Defined.

(** X4: when the orchestrator returns an edit, applying it to the input
    document gives the text of the document after all passes. *)
Theorem returned_edit_gives_final_text :
  forall (createSourceFile : TextDocument.t -> SourceFile)
         (update : SourceFile -> TextDocument.t -> SourceFile)
         (formatters : Formatters)
         (tsDoFormatting : TextDocument.t -> FormattingOptions -> list TextEdit)
         (document : TextDocument.t) (options : FormattingOptions)
         (edits : list TextEdit),
    register createSourceFile update formatters tsDoFormatting document options
    = Ok (Some edits) ->
    exists newDocument,
      runPasses createSourceFile update formatters tsDoFormatting document
        options = Ok newDocument
      /\ content newDocument <> content document
      /\ applyEdits document edits = Some (content newDocument).
Proof.
  intros createSourceFile update formatters tsDoFormatting document options
    edits. unfold register.
  destruct (runPasses createSourceFile update formatters tsDoFormatting
              document options) as [newDocument|]; cbn [bind];
    [|discriminate].
  destruct (String.eqb_spec (content newDocument) (content document))
    as [|Hne]; [discriminate|].
  intros [= <-]. exists newDocument. repeat split; [exact Hne|].
  unfold applyEdits, TextDocument.replace. cbn [map].
  unfold getWellformedEdit. cbn [range start end_ newText].
  rewrite positionAt_0.
  replace (positionBefore _ {| line := 0; character := 0 |}) with false.
  2:{ unfold positionBefore. cbn [line character].
      destruct (line _); destruct (character _); reflexivity. }
  cbn [sortEdits fold_right insertEdit applySorted range start end_ newText].
  rewrite <- (positionAt_0 document) at 1.
  rewrite !offsetAt_positionAt. cbn [Nat.min Nat.ltb Nat.leb].
  rewrite Nat.min_id, drop_length, append_nil_r.
  unfold substring. cbn [Nat.min Nat.max Nat.sub take append]. reflexivity.
Qed.

Lemma returned_edit_gives_final_text_witness :
  exists newDocument,
    runPasses demoSourceFile (fun _ => demoSourceFile) demoFormatters
      (fun _ _ => []) flatTemplate demoOptions = Ok newDocument
    /\ content newDocument <> content flatTemplate
    /\ applyEdits flatTemplate
         [ {| range := {| start := {| line := 0; character := 0 |};
                          end_ := {| line := 3; character := 6 |} |};
              newText :=
                "  <div>" ++ nl ++ "  a" ++ nl ++ "  b" ++ nl ++ "  </div>" |} ]
       = Some (content newDocument).
Proof.
  apply (returned_edit_gives_final_text demoSourceFile
           (fun _ => demoSourceFile) demoFormatters (fun _ _ => [])
           flatTemplate demoOptions).
  vm_compute. reflexivity.
Defined.

Lemma repairLine_same_indent (indent line : string) :
  repairLine indent indent line = line.
Proof.
  unfold repairLine. destruct (startsWith line indent) eqn:E.
  - symmetry. now apply prefix_split.
  - rewrite (replace_startsWith indent indent "").
    + now rewrite drop_length.
    + unfold startsWith. rewrite <- (append_nil_r indent) at 2.
      apply prefix_append.
Qed.

(** X5: a span whose last line is indented like the line on which the
    span starts is left as it is: the edit of its entry replaces the span
    by its own text. *)
Theorem aligned_span_unchanged :
  forall (sourceFile : SourceFile) (tsSourceMap : SourceMap) (maped : Mapping),
    getTemplateFormattingScript sourceFile = Some tsSourceMap ->
    In maped (mappings tsSourceMap) ->
    formatting (capabilities (data maped)) = true ->
    includes (spanText (getTextDocument sourceFile) maped) nl = true ->
    removalIndent (getTextDocument sourceFile) maped
    = baseIndent (getTextDocument sourceFile) maped ->
    In {| range := textRangeOf (getTextDocument sourceFile) maped;
          newText :=
            getText (getTextDocument sourceFile)
              (textRangeOf (getTextDocument sourceFile) maped) |}
       (patchInterpolationIndent sourceFile).
Proof.
  intros sf sm maped Hsm Hin Hf Hnl Heq.
  apply patchInterpolationIndent_In. exists sm, maped.
  repeat (split; [assumption|]). f_equal.
  rewrite getText_textRange. unfold repair. rewrite Heq.
  rewrite <- (join_split LF (spanText (getTextDocument sf) maped)) at 1.
  fold nl. f_equal.
  destruct (split (spanText (getTextDocument sf) maped) nl)
    as [|first interior]; [reflexivity|].
  cbn [mapInterior]. f_equal.
  rewrite (map_ext _ (fun line => line) (repairLine_same_indent _)).
  now rewrite map_id.
Qed.

(** An interpolation whose closing line is indented like its opening
    line. *)
Definition alignedTemplate : TextDocument.t :=
  vueDocument ("  {{" ++ nl ++ "    a" ++ nl ++ "  }}").

Lemma aligned_span_unchanged_witness :
  In {| range := {| start := {| line := 0; character := 4 |};
                    end_ := {| line := 2; character := 2 |} |};
        newText := nl ++ "    a" ++ nl ++ "  " |}
     (patchInterpolationIndent
        (templateOnly alignedTemplate [entry true 4 13])).
Proof.
  apply (aligned_span_unchanged
           (templateOnly alignedTemplate [entry true 4 13]) _
           (entry true 4 13) eq_refl); vm_compute; auto.
Defined.

End FormattingProperties.

(** ** Properties of the custom-block plugin *)

Module CustomBlocksProperties.
Import JsString.
Import Throwing.
Import CustomBlocks.
Import StringFacts.

(** The third group of a match on a name made of a file name without line
    terminator, a type without underscore, an index and a language
    without dot is the index. *)
Lemma customBlockReg_index (F T L : string) (i : nat) :
  allChars notLineTerminator F = true ->
  T <> "" -> allChars notUnderscore T = true ->
  L <> "" -> allChars notDot L = true ->
  exists g1 g2 g4,
    customBlockReg
      (F ++ ".customBlock_" ++ T ++ "_" ++ numberToString i ++ "." ++ L)
    = Some (g1, g2, numberToString i, g4).
Proof.
  intros HF HT1 HT2 HL1 HL2.
  destruct (customBlockReg_matches F T (numberToString i) L HF HT1 HT2
              (numberToString_nonempty i) (numberToString_digits i) HL1 HL2)
    as ([[[g1 g2] g3] g4] & Hm).
  exists g1, g2, g4. rewrite Hm. do 3 f_equal.
  destruct (customBlockReg_sound _ _ _ _ _ Hm) as (Hs & Hg3 & Hg4).
  replace (F ++ ".customBlock_" ++ T ++ "_" ++ numberToString i ++ "." ++ L)
    with (((F ++ ".customBlock_" ++ T) ++ String "_" (numberToString i))
          ++ String "." L) in Hs
    by (rewrite !append_assoc; reflexivity).
  apply append_sep_unique in Hs as [Hs _]; [|exact HL2|exact Hg4].
  apply append_sep_unique in Hs as [_ Hs];
    [|apply digits_notUnderscore, numberToString_digits
     |apply digits_notUnderscore, Hg3].
  now subst g3.
Qed.

(** X6: the resolution goes by the index in the name alone.  For a name
    with a well-formed type and language, it appends the chunk of the
    custom block at that index, whatever the type and the language of
    that block are, and throws when there is no block at that index. *)
Theorem resolved_by_index :
  forall (fileName : string) (sfc : Sfc) (T L : string) (i : nat)
         (chunks : list Chunk),
    allChars notLineTerminator fileName = true ->
    T <> "" -> allChars notUnderscore T = true ->
    L <> "" -> allChars notDot L = true ->
    let name :=
      fileName ++ ".customBlock_" ++ T ++ "_" ++ numberToString i ++ "." ++ L
    in
    resolveEmbeddedFile fileName sfc
      {| CustomBlocks.fileName := name; fileContent := chunks |}
    = match nth_error (customBlocks sfc) i with
      | Some customBlock =>
          Ok {| CustomBlocks.fileName := name;
                fileContent := (chunks ++ [chunkOf customBlock])%list |}
      | None => Throw
      end.
Proof.
  intros fileName sfc T L i chunks HF HT1 HT2 HL1 HL2 name.
  destruct (customBlockReg_index fileName T L i HF HT1 HT2 HL1 HL2)
    as (g1 & g2 & g4 & Hm).
  unfold resolveEmbeddedFile. cbn [CustomBlocks.fileName fileContent].
  subst name. rewrite Hm, parseInt_numberToString.
  now destruct (nth_error (customBlocks sfc) i).
Qed.

(** A file with one custom block, of type [docs] and language [md]. *)
Definition docsBlock : CustomBlock :=
  {| type := "docs"; lang := "md"; content := "# Widget";
     name := "customBlock_0" |}.

Definition docsSfc : Sfc := {| customBlocks := [docsBlock] |}.

Lemma resolved_by_index_witness :
  resolveEmbeddedFile "Widget.vue" docsSfc
    (emptyFile "Widget.vue.customBlock_i18n_0.json")
  = Ok {| fileName := "Widget.vue.customBlock_i18n_0.json";
          fileContent := [chunkOf docsBlock] |}
  /\ resolveEmbeddedFile "Widget.vue" docsSfc
       (emptyFile "Widget.vue.customBlock_docs_1.md")
     = Throw.
Proof.
  split.
  - apply (resolved_by_index "Widget.vue" docsSfc "i18n" "json" 0 []);
      (reflexivity || discriminate).
  - apply (resolved_by_index "Widget.vue" docsSfc "docs" "md" 1 []);
      (reflexivity || discriminate).
Defined.

(** X7: resolving the name listed for a custom block appends the chunk of
    that very block: its content, its name as the source, offset 0 and
    all features. *)
Theorem listed_names_resolve :
  forall (fileName : string) (sfc : Sfc) (i : nat) (block : CustomBlock),
    nth_error (customBlocks sfc) i = Some block ->
    allChars notLineTerminator fileName = true ->
    type block <> "" -> allChars notUnderscore (type block) = true ->
    lang block <> "" -> allChars notDot (lang block) = true ->
    exists name,
      nth_error (getEmbeddedFileNames fileName sfc) i = Some name
      /\ forall chunks,
          resolveEmbeddedFile fileName sfc
            {| CustomBlocks.fileName := name; fileContent := chunks |}
          = Ok {| CustomBlocks.fileName := name;
                  fileContent :=
                    (chunks
                     ++ [ {| chunkText := content block;
                             chunkSource := CustomBlocks.name block;
                             chunkOffset := 0;
                             chunkFeatures := enableAllFeatures |} ])%list |}.
Proof.
  intros fileName sfc i block Hnth HF HT1 HT2 HL1 HL2.
  exists (embeddedFileName fileName i block). split.
  - rewrite (proj2 (getEmbeddedFileNames_spec fileName sfc) i), Hnth.
    reflexivity.
  - intros chunks. now apply listed_name_resolved.
Qed.

Lemma listed_names_resolve_witness :
  exists name,
    nth_error (getEmbeddedFileNames "Widget.vue" docsSfc) 0 = Some name
    /\ resolveEmbeddedFile "Widget.vue" docsSfc (emptyFile name)
       = Ok {| fileName := name;
               fileContent :=
                 [ {| chunkText := "# Widget";
                      chunkSource := "customBlock_0";
                      chunkOffset := 0;
                      chunkFeatures := enableAllFeatures |} ] |}.
Proof.
  destruct (listed_names_resolve "Widget.vue" docsSfc 0 docsBlock)
    as (name & Hname & Hresolve);
    try (reflexivity || discriminate).
  exists name. split; [exact Hname | exact (Hresolve [])].
Defined.

Lemma includes_middle (a p b : string) : includes (a ++ p ++ b) p = true.
Proof.
  induction a as [|c a IH].
  - cbn [append]. destruct (p ++ b) eqn:E; cbn [includes];
      rewrite <- E, prefix_append; reflexivity.
  - cbn [append includes]. rewrite IH. apply orb_true_r.
Qed.

(** X8: a file whose name does not hold [.customBlock_] is left as it is:
    the plugin does not touch the files of other plugins. *)
Theorem other_files_untouched :
  forall (fileName : string) (sfc : Sfc) (embeddedFile : EmbeddedFile),
    includes (CustomBlocks.fileName embeddedFile) ".customBlock_" = false ->
    resolveEmbeddedFile fileName sfc embeddedFile = Ok embeddedFile.
Proof.
  intros fileName sfc ef H. unfold resolveEmbeddedFile.
  destruct (customBlockReg (CustomBlocks.fileName ef))
    as [[[[g1 g2] g3] g4]|] eqn:E; [|reflexivity].
  apply customBlockReg_sound in E as (Hs & _).
  rewrite Hs in H. rewrite !append_assoc in H.
  now rewrite includes_middle in H.
Qed.

Lemma other_files_untouched_witness :
  resolveEmbeddedFile "Widget.vue" docsSfc (emptyFile "Widget.vue.style_0.css")
  = Ok (emptyFile "Widget.vue.style_0.css").
Proof. apply other_files_untouched. reflexivity. Defined.

Lemma numberToString_inj (i j : nat) :
  numberToString i = numberToString j -> i = j.
Proof.
  intros H. apply (f_equal parseInt) in H.
  rewrite !parseInt_numberToString in H. congruence.
Qed.

(** X9: when no language of a custom block holds a dot, the names listed
    for the custom blocks of a file are pairwise different. *)
Theorem listed_names_distinct :
  forall (fileName : string) (sfc : Sfc),
    Forall (fun block => allChars notDot (lang block) = true)
      (customBlocks sfc) ->
    NoDup (getEmbeddedFileNames fileName sfc).
Proof.
  intros fileName sfc H. apply NoDup_nth_error. intros i j Hi Hij.
  destruct (getEmbeddedFileNames_spec fileName sfc) as [Hlen Hnth].
  rewrite !Hnth in Hij. rewrite Hlen in Hi.
  destruct (nth_error (customBlocks sfc) i) as [bi|] eqn:Ei;
    [|apply nth_error_None in Ei; lia].
  destruct (nth_error (customBlocks sfc) j) as [bj|] eqn:Ej;
    [|discriminate].
  injection Hij as Hij. rewrite !embeddedFileName_assoc in Hij.
  rewrite Forall_forall in H.
  apply append_sep_unique in Hij as [Hij _];
    [|apply H; eapply nth_error_In; eassumption
     |apply H; eapply nth_error_In; eassumption].
  apply append_sep_unique in Hij as [_ Hij];
    [|apply digits_notUnderscore, numberToString_digits
     |apply digits_notUnderscore, numberToString_digits].
  now apply numberToString_inj.
Qed.

Lemma listed_names_distinct_witness :
  NoDup (getEmbeddedFileNames "Widget.vue"
           {| customBlocks := [docsBlock; docsBlock] |}).
Proof.
  apply listed_names_distinct. repeat constructor.
Defined.

(** Without the condition on the languages two blocks can get one name:
    the dot of a language can stand for the dot in front of it. *)
Example listed_names_collide :
  getEmbeddedFileNames "Widget.vue"
    {| customBlocks :=
         [ {| type := "a_1.x"; lang := "y"; content := ""; name := "b0" |};
           {| type := "a"; lang := "x_0.y"; content := ""; name := "b1" |} ] |}
  = [ "Widget.vue.customBlock_a_1.x_0.y";
      "Widget.vue.customBlock_a_1.x_0.y" ].
Proof. reflexivity. Qed.

End CustomBlocksProperties.

(** ** Properties of the template service plugin *)

Module VueTemplateProperties.
Import JsString.
Import Throwing.
Import TextDocument.
Import VueTemplate.
Import StringFacts.

(** An item whose documentation carries the sentinel without its two
    segments makes the pass on it throw. *)
Lemma afterHtmlCompletionItem_throws (hyphenateTag : string -> string)
  (componentNames : list string) (item : CompletionItem) :
  wellFormed item = false ->
  afterHtmlCompletionItem hyphenateTag componentNames item = Throw.
Proof.
  unfold wellFormed, afterHtmlCompletionItem, itemIdKey.
  destruct (documentation item) as [[key|k key]|]; try discriminate;
    intros H; apply orb_false_elim in H as [Hs Hl];
    apply negb_false_iff in Hs;
    (destruct (String.eqb_spec key "") as [->|_]; [discriminate|]);
    unfold readInternalItemId; rewrite Hs;
    destruct (split key "::") as [|s0 [|type [|args rest]]];
    try reflexivity; discriminate.
Qed.

(** X10: the completion post-pass throws exactly when the documentation of
    some item starts with the sentinel but lacks the type or the argument
    segment; otherwise it returns one item for each item. *)
Theorem post_pass_throws_on_malformed_id :
  forall (hyphenateTag : string -> string) (componentNames : list string)
         (items : list CompletionItem),
    (afterHtmlCompletionItems hyphenateTag componentNames items = Throw
     <-> forallb wellFormed items = false)
    /\ forall items',
        afterHtmlCompletionItems hyphenateTag componentNames items = Ok items'
        -> List.length items' = List.length items.
Proof.
  intros hyphenateTag componentNames items.
  induction items as [|item items [IH1 IH2]].
  - split; [split; discriminate|]. now intros items' [= <-].
  - cbn [afterHtmlCompletionItems forallb].
    destruct (wellFormed item) eqn:Hw.
    + destruct (afterHtmlCompletionItem_spec hyphenateTag componentNames
                  item Hw) as (item' & -> & _).
      cbn [bind andb].
      destruct (afterHtmlCompletionItems hyphenateTag componentNames items)
        as [rest|]; cbn [bind].
      * split.
        -- split; [discriminate|]. intros H. now apply IH1 in H.
        -- intros items' [= <-]. cbn [List.length]. now rewrite (IH2 rest).
      * split; [|discriminate]. split; [intros _; now apply IH1|reflexivity].
    + rewrite (afterHtmlCompletionItem_throws _ _ _ Hw). cbn [bind andb].
      split; [split; reflexivity | discriminate].
Qed.

(** An item whose documentation has the sentinel and nothing else. *)
Definition bareSentinel : CompletionItem :=
  {| label := "title"; kind := Some 10;
     documentation := Some (DocString "__VLS_::"); sortText := None |}.

Lemma post_pass_throws_on_malformed_id_witness :
  afterHtmlCompletionItems kebab [] [bareSentinel] = Throw.
Proof.
  apply (proj1 (post_pass_throws_on_malformed_id kebab [] [bareSentinel])).
  reflexivity.
Defined.

(** X11: the diagnostics provider returns nothing, and with it drops the
    diagnostics of the backend, exactly when the document is not
    supported, has no virtual file, or has no map of a Vue file. *)
Theorem diagnostics_nothing_without_vue_file :
  forall (services : Services) (document : TextDocument.t),
    provideDiagnostics services document = None
    <-> isSupportedDocument services document = false
        \/ getMaps services document = None
        \/ exists maps, getMaps services document = Some maps
                        /\ Forall (fun map => sourceVirtualFile map = None)
                             maps.
Proof.
  intros services document. unfold provideDiagnostics.
  destruct (isSupportedDocument services document); cbn [negb];
    [|split; auto].
  destruct (getMaps services document) as [maps|]; [|split; auto].
  rewrite diagnosticsOfMaps_firstVueFile.
  assert (H : firstVueFile maps = None
              <-> Forall (fun map => sourceVirtualFile map = None) maps).
  { induction maps as [|map maps IH]; cbn [firstVueFile].
    - split; [constructor | reflexivity].
    - destruct (sourceVirtualFile map) eqn:E.
      + split; [discriminate|]. intros HF. inversion HF; congruence.
      + rewrite IH. split; [now constructor|]. now inversion 1. }
  destruct (firstVueFile maps) as [file|]; cbn [option_map].
  - split; [discriminate|].
    intros [H1|[H1|(maps' & [= <-] & H2)]]; try discriminate.
    now apply H in H2.
  - split; [|reflexivity]. intros _. right. right. exists maps.
    split; [reflexivity | now apply H].
Qed.





(** [arrayIndexOf] gives [-1] for an absent text, else a place of it. *)
Lemma arrayIndexOf_spec (l : list string) (x : string) :
  (arrayIndexOf l x = (-1)%Z /\ ~ In x l)
  \/ ((0 <= arrayIndexOf l x)%Z
      /\ nth_error l (Z.to_nat (arrayIndexOf l x)) = Some x).
Proof.
  induction l as [|y l IH]; cbn [arrayIndexOf].
  - left. split; [reflexivity | intros []].
  - destruct (String.eqb_spec y x) as [->|Hne].
    + right. split; [lia | reflexivity].
    + destruct IH as [[H1 H2]|[H1 H2]].
      * left. rewrite H1. split; [reflexivity|]. intros [H|H]; auto.
      * right. destruct (arrayIndexOf l x) as [|p|p] eqn:E; try lia.
        -- split; [lia | exact H2].
        -- split; [lia|].
           replace (Z.to_nat (Z.pos p + 1)) with (S (Z.to_nat (Z.pos p)))
             by lia.
           exact H2.
Qed.

(** The type of the tokens the provider adds. *)
Definition componentType (legend : SemanticTokensLegend) : Z :=
  if (arrayIndexOf (tokenTypes legend) "component" =? -1)%Z
  then arrayIndexOf (tokenTypes legend) "class"
  else arrayIndexOf (tokenTypes legend) "component".

Definition isComponentToken (legend : SemanticTokensLegend)
  (t : SemanticToken) : Prop :=
  tokType t = componentType legend /\ tokModifiers t = 0.

Lemma tagsAdded_types (document : TextDocument.t)
  (legend : SemanticTokensLegend) (components : list string)
  (offsetStart offsetEnd : nat) (scanner : Scanner) :
  Forall (isComponentToken legend)
    (tagsAdded document legend components offsetStart offsetEnd scanner).
Proof.
  induction scanner as [|token rest IH]; cbn [tagsAdded]; [constructor|].
  destruct (Nat.ltb offsetEnd (tokenOffset token)); [constructor|].
  apply Forall_app. split; [|exact IH].
  destruct (_ && _); constructor; [split; reflexivity | constructor].
Qed.

(** The loop over the maps, as a function of its state. *)
Definition tokensOfMaps (hyphenateTag : string -> string)
  (document : TextDocument.t) (range : Range) (legend : SemanticTokensLegend)
  (maps : list SourceMapWithDocuments)
  (state : Scanner * list SemanticToken) : Scanner * list SemanticToken :=
  fold_left
    (fun '(scanner, result) map =>
       match sourceVirtualFile map with
       | None => (scanner, result)
       | Some sourceFile =>
           let templateScriptData := componentNames sourceFile in
           let components :=
             (templateScriptData
              ++ List.map hyphenateTag templateScriptData)%list in
           scanTags document legend components
             (offsetAt document (start range))
             (offsetAt document (end_ range)) scanner result
       end)
    maps state.

Lemma provideDocumentSemanticTokens_maps
  (hyphenateTag : string -> string) (services : Services)
  (document : TextDocument.t) (range : Range)
  (legend : SemanticTokensLegend) :
  provideDocumentSemanticTokens hyphenateTag services document range legend
  = if negb (isSupportedDocument services document) then None
    else match getScanner services document, getMaps services document with
         | Some scanner, Some maps =>
             Some (snd (tokensOfMaps hyphenateTag document range legend maps
                          (scanner,
                           orEmpty (baseProvideDocumentSemanticTokens
                                      services document range legend))))
         | _, _ => None
         end.
Proof.
  unfold provideDocumentSemanticTokens, tokensOfMaps.
  destruct (negb _); [reflexivity|].
  destruct (getScanner services document); reflexivity.
Qed.

Lemma tokensOfMaps_adds (hyphenateTag : string -> string)
  (document : TextDocument.t) (range : Range) (legend : SemanticTokensLegend)
  (maps : list SourceMapWithDocuments) :
  forall scanner result,
  exists added,
    snd (tokensOfMaps hyphenateTag document range legend maps
           (scanner, result))
    = (result ++ added)%list
    /\ Forall (isComponentToken legend) added.
Proof.
  induction maps as [|map maps IH]; intros scanner result.
  - exists []. split; [now rewrite app_nil_r | constructor].
  - unfold tokensOfMaps in *. cbn [fold_left].
    destruct (sourceVirtualFile map) as [file|]; [|apply IH].
    destruct (scanTags document legend _ _ _ scanner result)
      as [scanner' result'] eqn:E.
    pose proof (scanTags_tagsAdded document legend
                  (componentNames file
                   ++ List.map hyphenateTag (componentNames file))%list
                  (offsetAt document (start range))
                  (offsetAt document (end_ range)) scanner result) as H.
    rewrite E in H. cbn [snd] in H. subst result'.
    destruct (IH scanner' (result ++ tagsAdded document legend
                (componentNames file
                 ++ List.map hyphenateTag (componentNames file))
                (offsetAt document (start range))
                (offsetAt document (end_ range)) scanner)%list)
      as (added & -> & Hadded).
    eexists. split; [now rewrite <- app_assoc|].
    apply Forall_app. split; [apply tagsAdded_types | exact Hadded].
Qed.

(** X13: the semantic tokens provider keeps the tokens of the backend in
    front and only adds tokens behind them.  Every added token has no
    modifier and one type: the place of [component] in the legend if it
    is there, else the place of [class], and [-1] when the legend has
    neither. *)
Theorem added_tokens_have_component_type :
  forall (hyphenateTag : string -> string) (services : Services)
         (document : TextDocument.t) (range : Range)
         (legend : SemanticTokensLegend) (result : list SemanticToken),
    provideDocumentSemanticTokens hyphenateTag services document range legend
    = Some result ->
    exists added,
      result
      = (orEmpty (baseProvideDocumentSemanticTokens services document range
                    legend) ++ added)%list
      /\ Forall
           (fun t =>
              tokModifiers t = 0
              /\ ((nth_error (tokenTypes legend) (Z.to_nat (tokType t))
                    = Some "component" /\ (0 <= tokType t)%Z)
                  \/ (~ In "component" (tokenTypes legend)
                      /\ nth_error (tokenTypes legend) (Z.to_nat (tokType t))
                         = Some "class" /\ (0 <= tokType t)%Z)
                  \/ (~ In "component" (tokenTypes legend)
                      /\ ~ In "class" (tokenTypes legend)
                      /\ tokType t = (-1)%Z)))
           added.
Proof.
  intros hyphenateTag services document range legend result.
  rewrite provideDocumentSemanticTokens_maps.
  destruct (negb _); [discriminate|].
  destruct (getScanner services document) as [scanner|]; [|discriminate].
  destruct (getMaps services document) as [maps|]; [|discriminate].
  intros [= <-].
  destruct (tokensOfMaps_adds hyphenateTag document range legend maps scanner
              (orEmpty (baseProvideDocumentSemanticTokens services document
                          range legend))) as (added & -> & Hadded).
  exists added. split; [reflexivity|].
  eapply Forall_impl; [|exact Hadded]. intros t [Ht Hm]. split; [exact Hm|].
  rewrite Ht. unfold componentType.
  destruct (arrayIndexOf_spec (tokenTypes legend) "component")
    as [[H1 H2]|[H1 H2]].
  - rewrite H1. cbn [Z.eqb].
    destruct (arrayIndexOf_spec (tokenTypes legend) "class")
      as [[H3 H4]|[H3 H4]]; [right; right | right; left]; auto.
  - replace (arrayIndexOf (tokenTypes legend) "component" =? -1)%Z
      with false by (symmetry; apply Z.eqb_neq; lia).
    left. auto.
Qed.

Lemma added_tokens_have_component_type_witness :
  exists added,
    [ {| tokLine := 0; tokCharacter := 1; tokLength := 3;
         tokType := 2%Z; tokModifiers := 0 |};
      {| tokLine := 0; tokCharacter := 7; tokLength := 3;
         tokType := 2%Z; tokModifiers := 0 |} ]
    = ([] ++ added)%list
    /\ Forall (fun t => tokModifiers t = 0) added.
Proof.
  destruct (added_tokens_have_component_type kebab (tagServices "Foo")
              (tagDocument "Foo") wholeLine demoLegend _ eq_refl)
    as (added & Heq & Hall).
  exists added. split; [exact Heq|].
  eapply Forall_impl; [|exact Hall]. now intros t [H _].
Defined.

(** A scan that never meets a token after the range uses the scanner up. *)
Lemma scanTags_exhausts (document : TextDocument.t)
  (legend : SemanticTokensLegend) (components : list string)
  (offsetStart offsetEnd : nat) (scanner : Scanner) :
  Forall (fun token => tokenOffset token <= offsetEnd) scanner ->
  forall result,
    fst (scanTags document legend components offsetStart offsetEnd scanner
           result) = [].
Proof.
  induction 1 as [|token rest Ht _ IH]; intros result;
    cbn [scanTags]; [reflexivity|].
  replace (Nat.ltb offsetEnd (tokenOffset token)) with false
    by (symmetry; apply Nat.ltb_ge; exact Ht).
  apply IH.
Qed.

Lemma tagsAdded_filter (document : TextDocument.t)
  (legend : SemanticTokensLegend) (components : list string)
  (offsetStart offsetEnd : nat) (scanner : Scanner) :
  Forall (fun token => tokenOffset token <= offsetEnd) scanner ->
  tagsAdded document legend components offsetStart offsetEnd scanner
  = map (componentToken document legend)
      (filter (fun token =>
                 Nat.leb offsetStart (tokenOffset token)
                 && isTag (tokenType token)
                 && has components (tokenText token))
         scanner).
Proof.
  induction 1 as [|token rest Ht _ IH]; cbn [tagsAdded filter];
    [reflexivity|].
  replace (Nat.ltb offsetEnd (tokenOffset token)) with false
    by (symmetry; apply Nat.ltb_ge; exact Ht).
  rewrite IH. now destruct (_ && _ && _).
Qed.

(** With the scanner used up, the maps that follow add nothing. *)
Lemma tokensOfMaps_exhausted (hyphenateTag : string -> string)
  (document : TextDocument.t) (range : Range) (legend : SemanticTokensLegend)
  (maps : list SourceMapWithDocuments) (result : list SemanticToken) :
  tokensOfMaps hyphenateTag document range legend maps ([], result)
  = ([], result).
Proof.
  induction maps as [|map maps IH]; [reflexivity|].
  unfold tokensOfMaps in *. cbn [fold_left].
  destruct (sourceVirtualFile map); cbn [scanTags]; exact IH.
Qed.

(** X14: when no token of the scanner starts after the requested range,
    the tokens added are those of the first map of a Vue file alone: one
    for each start or end tag that starts at or after the start of the
    range and whose text is a component name of that file or the
    hyphenated form of one, in the order of the scan.  The Vue files of
    the maps that follow add nothing, because one scanner is shared by
    all the maps and the first scan uses it up. *)
Theorem tokens_from_first_vue_file_only :
  forall (hyphenateTag : string -> string) (services : Services)
         (document : TextDocument.t) (range : Range)
         (legend : SemanticTokensLegend) (scanner : Scanner)
         (maps : list SourceMapWithDocuments),
    isSupportedDocument services document = true ->
    getScanner services document = Some scanner ->
    getMaps services document = Some maps ->
    Forall (fun token => tokenOffset token <= offsetAt document (end_ range))
      scanner ->
    provideDocumentSemanticTokens hyphenateTag services document range legend
    = Some
        (orEmpty (baseProvideDocumentSemanticTokens services document range
                    legend)
         ++ match firstVueFile maps with
            | Some file =>
                map (componentToken document legend)
                  (filter
                     (fun token =>
                        Nat.leb (offsetAt document (start range))
                          (tokenOffset token)
                        && isTag (tokenType token)
                        && has (componentNames file
                                ++ map hyphenateTag (componentNames file))
                             (tokenText token))
                     scanner)
            | None => []
            end)%list.
Proof.
  intros hyphenateTag services document range legend scanner maps
    Hsup Hscan Hmaps Hall.
  rewrite provideDocumentSemanticTokens_maps, Hsup, Hscan, Hmaps.
  cbn [negb]. f_equal. clear Hmaps.
  generalize (orEmpty (baseProvideDocumentSemanticTokens services document
                         range legend)) as result.
  induction maps as [|map rest IH]; intros result.
  - cbn. now rewrite app_nil_r.
  - unfold tokensOfMaps in *. cbn [fold_left firstVueFile].
    destruct (sourceVirtualFile map) as [file|]; [|apply IH].
    destruct (scanTags document legend _ _ _ scanner result)
      as [scanner' result'] eqn:E.
    pose proof (scanTags_tagsAdded document legend
                  (componentNames file
                   ++ List.map hyphenateTag (componentNames file))%list
                  (offsetAt document (start range))
                  (offsetAt document (end_ range)) scanner result) as H.
    pose proof (scanTags_exhausts document legend
                  (componentNames file
                   ++ List.map hyphenateTag (componentNames file))%list
                  (offsetAt document (start range)) _ scanner Hall result)
      as H0.
    rewrite E in H, H0. cbn [fst snd] in H, H0. subst scanner' result'.
    pose proof (tokensOfMaps_exhausted hyphenateTag document range legend
                  rest) as Hx.
    unfold tokensOfMaps in Hx. rewrite Hx. cbn [snd].
    now rewrite tagsAdded_filter.
Qed.

(** Two maps of Vue files with different components over one scanner. *)
Definition barFile : VueFile :=
  {| template := None; componentNames := ["Bar"] |}.

Definition twoFileServices : Services :=
  {| isSupportedDocument := fun _ => true;
     baseProvideDiagnostics := fun _ => None;
     baseProvideDocumentSemanticTokens := fun _ _ _ => None;
     getScanner := fun _ => Some (tagTokens "Bar");
     getMaps := fun _ =>
       Some [ {| sourceVirtualFile := Some fooFile |};
              {| sourceVirtualFile := Some barFile |} ] |}.

Lemma tokens_from_first_vue_file_only_witness :
  provideDocumentSemanticTokens kebab twoFileServices (tagDocument "Bar")
    wholeLine demoLegend
  = Some [].
Proof.
  apply (tokens_from_first_vue_file_only kebab twoFileServices
           (tagDocument "Bar") wholeLine demoLegend (tagTokens "Bar") _
           eq_refl eq_refl eq_refl).
  vm_compute. repeat constructor.
Defined.

End VueTemplateProperties.

(** ** The completion post-pass as a whole *)

Module Completion.
Import JsString.
Import Throwing.
Import TextDocument.
Import VueTemplate.
Import StringFacts.
Import VueTemplateProperties.

(** The text edit of a completion item: a plain edit, which has a
    [range], or an insert-and-replace edit, which has none. *)
Inductive ItemTextEdit :=
| PlainEdit (edit : TextEdit)
| InsertReplaceEdit (newText : string) (insert replace : Range).

(** A completion item of the list: the fields the loop over the items
    works on, and the two fields the modifier completions set. *)
Record ListItem := {
  core : CompletionItem;
  filterText : option string;
  textEdit : option ItemTextEdit
}.

(** What [getReplacement] returns. *)
Record Replacement := {
  item : ListItem;
  itemEdit : TextEdit;
  text : string
}.

(** The first item with a plain text edit, with the text of the document
    in the range of that edit. *)
Fixpoint getReplacement (items : list ListItem) (doc : TextDocument.t)
  : option Replacement :=
  match items with
  | [] => None
  | item :: rest =>
      match textEdit item with
      | Some (PlainEdit edit) =>
          Some {| item := item; itemEdit := edit;
                  text := getText doc (range edit) |}
      | _ => getReplacement rest doc
      end
  end.

(** An attribute of the data of the model modifiers. *)
Record Reference := { refName : string; url : string }.

Record AttributeData := {
  name : string;
  description : option Documentation;
  references : option (list Reference)
}.

Section Plugin.

Variable hyphenateTag : string -> string.

(** The modifiers of [v-on] and of [v-bind] with their descriptions, in
    the order in which the loop over the keys of the object meets them. *)
Variable eventModifiers : list (string * string).
Variable propModifiers : list (string * string).

(** The global attributes of the data of the model modifiers. *)
Variable modelData : list AttributeData.

(** The loop over the items of the completion list. *)
Fixpoint loopItems (componentNames : list string) (items : list ListItem)
  : result (list ListItem) :=
  match items with
  | [] => Ok []
  | item :: rest =>
      bind (afterHtmlCompletionItem hyphenateTag componentNames (core item))
        (fun core' =>
      bind (loopItems componentNames rest) (fun rest' =>
      Ok ({| core := core'; filterText := filterText item;
             textEdit := textEdit item |} :: rest')))
  end.

(** [afterHtmlCompletion]: the completions of the modifiers are pushed
    onto the list, then the loop runs over the whole list.  The result
    is the list of the items as the function leaves it. *)
Definition afterHtmlCompletion (items : list ListItem)
  (sourceFileDocument : TextDocument.t) (vueSourceFile : VueFile)
  : result (list ListItem) :=
  let replacement := getReplacement items sourceFileDocument in
  let componentNames := map hyphenateTag (componentNames vueSourceFile) in
  let items :=
    match replacement with
    | Some replacement =>
        let isEvent :=
          startsWith (text replacement) "v-on:"
          || startsWith (text replacement) "@" in
        let isProp :=
          startsWith (text replacement) "v-bind:"
          || startsWith (text replacement) ":" in
        let isModel :=
          startsWith (text replacement) "v-model:"
          || (hd "" (split (text replacement) ".") =? "v-model") in
        let hasModifier := includes (text replacement) "." in
        let validModifiers :=
          if isEvent then Some eventModifiers
          else if isProp then Some propModifiers
          else None in
        let modifiers := tl (split (text replacement) ".") in
        let textWithoutModifier := hd "" (split (text replacement) ".") in
        let newItem (modifier value : string) : ListItem :=
          let insertText :=
            textWithoutModifier
            ++ join (map (fun m => "." ++ m) (removelast modifiers)) ""
            ++ "." ++ modifier in
          {| core := {| label := modifier;
                        kind := Some 20;
                        documentation := Some (DocMarkup "markdown" value);
                        sortText := None |};
             filterText := Some insertText;
             textEdit :=
               Some (PlainEdit {| range := range (itemEdit replacement);
                                  newText := insertText |}) |} in
        match validModifiers, hasModifier with
        | Some validModifiers, true =>
            app items
              (flat_map
                 (fun '(modifier, modifierDes) =>
                    if has modifiers modifier then []
                    else [newItem modifier modifierDes])
                 validModifiers)
        | _, _ =>
            if hasModifier && isModel then
              app items
                (flat_map
                    (fun modifier =>
                       if has modifiers (name modifier) then []
                       else
                         [newItem (name modifier)
                            (match description modifier with
                             | Some (DocMarkup _ value) => value
                             | Some (DocString value) => value
                             | None => "undefined"
                             end
                             ++ nl ++ nl
                             ++ match references modifier with
                                | Some refs =>
                                    join
                                      (map (fun ref =>
                                              "[" ++ refName ref ++ "]("
                                              ++ url ref ++ ")")
                                         refs)
                                      " | "
                                | None => "undefined"
                                end)])
                    modelData)
            else items
        end
    | None => items
    end in
  loopItems componentNames items.

End Plugin.

(** *** Facts about the completion post-pass *)

Section Facts.

Variable hyphenateTag : string -> string.
Variable eventModifiers : list (string * string).
Variable propModifiers : list (string * string).
Variable modelData : list AttributeData.

(** The pass on an item keeps its label. *)
Lemma afterHtmlCompletionItem_label (componentNames : list string)
  (item item' : CompletionItem) :
  afterHtmlCompletionItem hyphenateTag componentNames item = Ok item' ->
  label item' = label item.
Proof.
  intros H. destruct (wellFormed item) eqn:Hw.
  - destruct (afterHtmlCompletionItem_spec hyphenateTag componentNames item
                Hw) as (item'' & H' & Hl & _).
    congruence.
  - rewrite (afterHtmlCompletionItem_throws _ _ _ Hw) in H. discriminate.
Qed.

(** What the loop keeps of an item. *)
Definition kept (before after : ListItem) : Prop :=
  label (core after) = label (core before)
  /\ filterText after = filterText before
  /\ textEdit after = textEdit before.

Lemma loopItems_kept (componentNames : list string) (items : list ListItem) :
  forall items',
    loopItems hyphenateTag componentNames items = Ok items' ->
    Forall2 kept items items'.
Proof.
  induction items as [|item rest IH]; intros items'; cbn [loopItems].
  - intros [= <-]. constructor.
  - destruct (afterHtmlCompletionItem hyphenateTag componentNames
                (core item)) as [core'|] eqn:E; cbn [bind]; [|discriminate].
    destruct (loopItems hyphenateTag componentNames rest) as [rest'|];
      cbn [bind]; [|discriminate].
    intros [= <-]. constructor; [|now apply IH].
    repeat split. cbn [core]. now apply afterHtmlCompletionItem_label in E.
Qed.

Lemma loopItems_app (componentNames : list string)
  (front back : list ListItem) :
  loopItems hyphenateTag componentNames (front ++ back)%list
  = bind (loopItems hyphenateTag componentNames front) (fun front' =>
    bind (loopItems hyphenateTag componentNames back) (fun back' =>
    Ok (front' ++ back')%list)).
Proof.
  induction front as [|item front IH]; cbn [app loopItems bind].
  - now destruct (loopItems hyphenateTag componentNames back).
  - destruct (afterHtmlCompletionItem hyphenateTag componentNames
                (core item)); cbn [bind]; [|reflexivity].
    rewrite IH.
    destruct (loopItems hyphenateTag componentNames front); cbn [bind];
      [|reflexivity].
    now destruct (loopItems hyphenateTag componentNames back).
Qed.

(** The modifiers typed after the first dot of a text. *)
Definition typedModifiers (text : string) : list string :=
  tl (split text ".").

(** The text the model data documents a modifier with. *)
Definition modelDocumentation (modifier : AttributeData) : string :=
  match description modifier with
  | Some (DocMarkup _ value) => value
  | Some (DocString value) => value
  | None => "undefined"
  end
  ++ nl ++ nl
  ++ match references modifier with
     | Some refs =>
         join (map (fun ref => "[" ++ refName ref ++ "](" ++ url ref ++ ")")
                 refs) " | "
     | None => "undefined"
     end.

(** The modifiers a text stands for, with their documentation: those of
    events for [v-on:] and [@], else those of props for [v-bind:] and
    [:], else those of the model data for [v-model]. *)
Definition modifiersFor (text : string) : list (string * string) :=
  if startsWith text "v-on:" || startsWith text "@" then eventModifiers
  else if startsWith text "v-bind:" || startsWith text ":" then propModifiers
  else if startsWith text "v-model:" || (hd "" (split text ".") =? "v-model")
  then map (fun modifier => (name modifier, modelDocumentation modifier))
         modelData
  else [].

(** The item pushed for a modifier. *)
Definition modifierItem (replacement : Replacement)
  (modifier : string * string) : ListItem :=
  let insertText :=
    hd "" (split (text replacement) ".")
    ++ join (map (fun m => "." ++ m)
               (removelast (typedModifiers (text replacement)))) ""
    ++ "." ++ fst modifier in
  {| core := {| label := fst modifier;
                kind := Some 20;
                documentation := Some (DocMarkup "markdown" (snd modifier));
                sortText := None |};
     filterText := Some insertText;
     textEdit :=
       Some (PlainEdit {| range := range (itemEdit replacement);
                          newText := insertText |}) |}.

(** The items pushed in front of the loop. *)
Definition pushed (replacement : option Replacement) : list ListItem :=
  match replacement with
  | Some replacement =>
      if includes (text replacement) "." then
        map (modifierItem replacement)
          (filter (fun modifier =>
                     negb (has (typedModifiers (text replacement))
                             (fst modifier)))
             (modifiersFor (text replacement)))
      else []
  | None => []
  end.

Lemma flat_map_filter {A B} (skip : A -> bool) (f : A -> B) (l : list A) :
  flat_map (fun a => if skip a then [] else [f a]) l
  = map f (filter (fun a => negb (skip a)) l).
Proof.
  induction l as [|a l IH]; [reflexivity|].
  cbn [flat_map filter]. rewrite IH. now destruct (skip a).
Qed.

Lemma afterHtmlCompletion_pushed (items : list ListItem)
  (sourceFileDocument : TextDocument.t) (vueSourceFile : VueFile) :
  afterHtmlCompletion hyphenateTag eventModifiers propModifiers modelData
    items sourceFileDocument vueSourceFile
  = loopItems hyphenateTag (map hyphenateTag (componentNames vueSourceFile))
      (items ++ pushed (getReplacement items sourceFileDocument))%list.
Proof.
  unfold afterHtmlCompletion, pushed, modifiersFor.
  destruct (getReplacement items sourceFileDocument) as [r|];
    [|now rewrite app_nil_r].
  f_equal.
  destruct (includes (text r) ".") eqn:Hdot.
  - destruct (startsWith (text r) "v-on:" || startsWith (text r) "@").
    { f_equal.
      rewrite <- (flat_map_filter
                    (fun m => has (typedModifiers (text r)) (fst m))
                    (modifierItem r)).
      apply flat_map_ext. now intros [m d]. }
    destruct (startsWith (text r) "v-bind:" || startsWith (text r) ":").
    { f_equal.
      rewrite <- (flat_map_filter
                    (fun m => has (typedModifiers (text r)) (fst m))
                    (modifierItem r)).
      apply flat_map_ext. now intros [m d]. }
    cbn [andb].
    destruct (startsWith (text r) "v-model:"
              || (hd "" (split (text r) ".") =? "v-model"));
      [|now rewrite app_nil_r].
    f_equal.
    rewrite <- (flat_map_filter
                  (fun m => has (typedModifiers (text r)) (fst m))
                  (modifierItem r)).
    induction modelData as [|m l IH]; [reflexivity|].
    cbn [map flat_map fst]. rewrite IH. reflexivity.
  - destruct (startsWith (text r) "v-on:" || startsWith (text r) "@");
      [now rewrite app_nil_r|].
    destruct (startsWith (text r) "v-bind:" || startsWith (text r) ":");
      now rewrite app_nil_r.
Qed.

(** The result of the pass: the items given, then the items pushed,
    each as the loop leaves it. *)
Lemma afterHtmlCompletion_parts (items items' : list ListItem)
  (sourceFileDocument : TextDocument.t) (vueSourceFile : VueFile) :
  afterHtmlCompletion hyphenateTag eventModifiers propModifiers modelData
    items sourceFileDocument vueSourceFile = Ok items' ->
  exists front back,
    items' = (front ++ back)%list
    /\ Forall2 kept items front
    /\ Forall2 kept (pushed (getReplacement items sourceFileDocument)) back.
Proof.
  rewrite afterHtmlCompletion_pushed, loopItems_app.
  destruct (loopItems _ _ items) as [front|] eqn:E1; cbn [bind];
    [|discriminate].
  destruct (loopItems _ _ (pushed _)) as [back|] eqn:E2; cbn [bind];
    [|discriminate].
  intros [= <-]. exists front, back.
  split; [reflexivity|]. split; eapply loopItems_kept; eassumption.
Qed.

Lemma Forall2_kept_length (l l' : list ListItem) :
  Forall2 kept l l' -> List.length l' = List.length l.
Proof. induction 1; cbn [List.length]; congruence. Qed.

Lemma skipn_kept (items front back : list ListItem) :
  Forall2 kept items front ->
  skipn (List.length items) (front ++ back) = back.
Proof.
  intros H. rewrite <- (Forall2_kept_length _ _ H).
  rewrite skipn_app, skipn_all, Nat.sub_diag. reflexivity.
Qed.

(** X15: the completion post-pass keeps every item of the backend, in its
    place and with its label, filter text and text edit; whatever it
    adds comes behind them. *)
Theorem backend_items_kept :
  forall (items items' : list ListItem) (sourceFileDocument : TextDocument.t)
         (vueSourceFile : VueFile),
    afterHtmlCompletion hyphenateTag eventModifiers propModifiers modelData
      items sourceFileDocument vueSourceFile = Ok items' ->
    Forall2
      (fun before after =>
         label (core after) = label (core before)
         /\ filterText after = filterText before
         /\ textEdit after = textEdit before)
      items (firstn (List.length items) items').
Proof.
  intros items items' doc file H.
  apply afterHtmlCompletion_parts in H as (front & back & -> & Hf & _).
  rewrite <- (Forall2_kept_length _ _ Hf), firstn_app, firstn_all,
    Nat.sub_diag.
  cbn [firstn]. rewrite app_nil_r. exact Hf.
Qed.

(** X16: without a dot in the replaced text the pass adds no item; nor
    does it when no item has a plain text edit. *)
Theorem no_modifier_without_dot :
  forall (items items' : list ListItem) (sourceFileDocument : TextDocument.t)
         (vueSourceFile : VueFile),
    (forall replacement,
       getReplacement items sourceFileDocument = Some replacement ->
       includes (text replacement) "." = false) ->
    afterHtmlCompletion hyphenateTag eventModifiers propModifiers modelData
      items sourceFileDocument vueSourceFile = Ok items' ->
    List.length items' = List.length items.
Proof.
  intros items items' doc file Hdot H.
  apply afterHtmlCompletion_parts in H as (front & back & -> & Hf & Hb).
  assert (Hp : pushed (getReplacement items doc) = []).
  { unfold pushed. destruct (getReplacement items doc) as [r|];
      [|reflexivity].
    now rewrite (Hdot r eq_refl). }
  rewrite Hp in Hb. inversion Hb; subst.
  rewrite app_nil_r. now apply Forall2_kept_length.
Qed.

(** X17: for a replaced text with a dot, the labels of the items added
    are the modifiers the text stands for, in their order, without
    those typed in the text already. *)
Theorem offered_modifiers :
  forall (items items' : list ListItem) (sourceFileDocument : TextDocument.t)
         (vueSourceFile : VueFile) (replacement : Replacement),
    getReplacement items sourceFileDocument = Some replacement ->
    includes (text replacement) "." = true ->
    afterHtmlCompletion hyphenateTag eventModifiers propModifiers modelData
      items sourceFileDocument vueSourceFile = Ok items' ->
    map (fun item => label (core item)) (skipn (List.length items) items')
    = filter (fun modifier =>
                negb (has (tl (split (text replacement) ".")) modifier))
        (map fst (modifiersFor (text replacement))).
Proof.
  intros items items' doc file r Hr Hdot H.
  apply afterHtmlCompletion_parts in H as (front & back & -> & Hf & Hb).
  rewrite (skipn_kept _ _ _ Hf), Hr in *. unfold pushed in Hb.
  rewrite Hdot in Hb. fold (typedModifiers (text r)).
  revert back Hb. clear.
  induction (modifiersFor (text r)) as [|[m d] l IH]; intros back Hb.
  - inversion Hb; reflexivity.
  - cbn [filter map fst] in *.
    destruct (has (typedModifiers (text r)) m); cbn [negb map] in *;
      [now apply IH|].
    inversion Hb as [|? b ? back' Hk Hb']; subst. cbn [map].
    destruct Hk as [-> _]. cbn [modifierItem core label fst].
    f_equal. now apply IH.
Qed.

(** X18: for a replaced text with a dot, every item added edits the
    range of the replaced text, and its new text is the replaced text up
    to its last dot followed by the label: the modifier typed last is
    the one completed, those in front of it stay.  The filter text is
    the new text. *)
Theorem modifier_completes_last_segment :
  forall (items items' : list ListItem) (sourceFileDocument : TextDocument.t)
         (vueSourceFile : VueFile) (replacement : Replacement),
    getReplacement items sourceFileDocument = Some replacement ->
    includes (text replacement) "." = true ->
    afterHtmlCompletion hyphenateTag eventModifiers propModifiers modelData
      items sourceFileDocument vueSourceFile = Ok items' ->
    exists front typed,
      text replacement = front ++ "." ++ typed
      /\ includes typed "." = false
      /\ Forall
           (fun item =>
              textEdit item
              = Some (PlainEdit
                        {| range := range (itemEdit replacement);
                           newText := front ++ "." ++ label (core item) |})
              /\ filterText item = Some (front ++ "." ++ label (core item)))
           (skipn (List.length items) items').
Proof.
  intros items items' doc file r Hr Hdot H.
  apply afterHtmlCompletion_parts in H as (front' & back & -> & Hf & Hb).
  rewrite (skipn_kept _ _ _ Hf), Hr in *. unfold pushed in Hb.
  rewrite Hdot in Hb.
  destruct (split_last "." (text r) Hdot) as (front & typed & H1 & H2 & H3).
  exists front, typed. split; [exact H1|]. split; [exact H2|].
  revert back Hb.
  induction (filter _ (modifiersFor (text r))) as [|[m d] l IH];
    intros back Hb; inversion Hb as [|? b ? back' Hk Hb']; subst;
    constructor; [|now apply IH].
  destruct Hk as (Hl & Hft & Hte). rewrite Hl, Hft, Hte.
  cbn [modifierItem core label fst filterText textEdit].
  unfold typedModifiers. rewrite !append_assoc. split; reflexivity.
Qed.

End Facts.

(** *** An instance: completion behind [@click.stop.] *)

Definition demoEventModifiers : list (string * string) :=
  [ ("stop", "call event.stopPropagation().");
    ("prevent", "call event.preventDefault().");
    ("once", "trigger handler at most once.") ].

Definition demoPropModifiers : list (string * string) :=
  [ ("camel", "transform the kebab-case attribute name into camelCase.");
    ("prop", "force a binding to be set as a DOM property.");
    ("attr", "force a binding to be set as a DOM attribute.") ].

Definition demoModelData : list AttributeData :=
  [ {| name := "lazy";
       description :=
         Some (DocMarkup "markdown" "Sync after change events.");
       references :=
         Some [ {| refName := "en";
                   url := "https://vuejs.org/guide/essentials/forms.html" |} ]
    |};
    {| name := "trim"; description := None; references := None |} ].

Definition anchorDocument (attribute : string) : TextDocument.t :=
  create "file:///Widget.vue" "vue" 1 ("<a " ++ attribute ++ ">").

(** The item of the backend for the attribute typed at offset 3. *)
Definition typedItem (attribute : string) : ListItem :=
  {| core := {| label := "@click"; kind := Some 12; documentation := None;
                sortText := None |};
     filterText := None;
     textEdit :=
       Some (PlainEdit
               {| range :=
                    {| start := {| line := 0; character := 3 |};
                       end_ := {| line := 0;
                                  character := 3 + String.length attribute |}
                    |};
                  newText := "@click" |}) |}.

Definition demoPass (attribute : string) : result (list ListItem) :=
  afterHtmlCompletion kebab demoEventModifiers demoPropModifiers
    demoModelData [typedItem attribute] (anchorDocument attribute) fooFile.

Definition behindStop : list ListItem :=
  Eval vm_compute in
    match demoPass "@click.stop.p" with
    | Ok items => items
    | Throw => []
    end.

Lemma backend_items_kept_witness :
  Forall2
    (fun before after =>
       label (core after) = label (core before)
       /\ filterText after = filterText before
       /\ textEdit after = textEdit before)
    [typedItem "@click.stop.p"] (firstn 1 behindStop).
Proof.
  apply (backend_items_kept kebab demoEventModifiers demoPropModifiers
           demoModelData [typedItem "@click.stop.p"] behindStop
           (anchorDocument "@click.stop.p") fooFile).
  vm_compute. reflexivity.
Defined.

Lemma no_modifier_without_dot_witness :
  List.length
    match demoPass "@click" with
    | Ok items => items
    | Throw => []
    end
  = 1.
Proof.
  apply (no_modifier_without_dot kebab demoEventModifiers demoPropModifiers
           demoModelData [typedItem "@click"] _ (anchorDocument "@click")
           fooFile).
  - intros replacement H. vm_compute in H. injection H as <-. reflexivity.
  - vm_compute. reflexivity.
Defined.

Lemma offered_modifiers_witness :
  map (fun item => label (core item)) (skipn 1 behindStop)
  = ["prevent"; "once"].
Proof.
  apply (offered_modifiers kebab demoEventModifiers demoPropModifiers
           demoModelData [typedItem "@click.stop.p"] behindStop
           (anchorDocument "@click.stop.p") fooFile
           {| item := typedItem "@click.stop.p";
              itemEdit :=
                {| range :=
                     {| start := {| line := 0; character := 3 |};
                        end_ := {| line := 0; character := 16 |} |};
                   newText := "@click" |};
              text := "@click.stop.p" |});
    vm_compute; reflexivity.
Defined.

Lemma modifier_completes_last_segment_witness :
  exists front typed,
    "@click.stop.p" = front ++ "." ++ typed
    /\ includes typed "." = false
    /\ Forall
         (fun item =>
            textEdit item
            = Some (PlainEdit
                      {| range :=
                           {| start := {| line := 0; character := 3 |};
                              end_ := {| line := 0; character := 16 |} |};
                         newText := front ++ "." ++ label (core item) |})
            /\ filterText item = Some (front ++ "." ++ label (core item)))
         (skipn 1 behindStop).
Proof.
  apply (modifier_completes_last_segment kebab demoEventModifiers
           demoPropModifiers demoModelData [typedItem "@click.stop.p"]
           behindStop (anchorDocument "@click.stop.p") fooFile
           {| item := typedItem "@click.stop.p";
              itemEdit :=
                {| range :=
                     {| start := {| line := 0; character := 3 |};
                        end_ := {| line := 0; character := 16 |} |};
                   newText := "@click" |};
              text := "@click.stop.p" |});
    vm_compute; reflexivity.
Defined.

(** The items behind [@click.stop.p], and those behind [v-model.]. *)
Example behindStop_items :
  map (fun item => (label (core item), filterText item)) behindStop
  = [ ("@click", None);
      ("prevent", Some "@click.stop.prevent");
      ("once", Some "@click.stop.once") ].
Proof. reflexivity. Qed.

Example behindModel_items :
  match
    afterHtmlCompletion kebab demoEventModifiers demoPropModifiers
      demoModelData
      [ {| core := core (typedItem "v-model.");
           filterText := None;
           textEdit := textEdit (typedItem "v-model.") |} ]
      (anchorDocument "v-model.") fooFile
  with
  | Ok items =>
      map (fun item => (label (core item), documentation (core item))) items
  | Throw => []
  end
  = [ ("@click", None);
      ("lazy",
       Some (DocMarkup "markdown"
               ("Sync after change events." ++ nl ++ nl
                ++ "[en](https://vuejs.org/guide/essentials/forms.html)")));
      ("trim",
       Some (DocMarkup "markdown" ("undefined" ++ nl ++ nl ++ "undefined")))
    ].
Proof. vm_compute. reflexivity. Qed.

End Completion.

(** ** The inlay hints for missing required props *)

Module InlayHints.
Import JsString.
Import Throwing.
Import TextDocument.
Import VueTemplate.
Import StringFacts.

Record InlayHint := {
  hintLabel : string;
  paddingLeft : bool;
  position : Position;
  hintKind : nat;
  textEdits : list TextEdit
}.

(** [AttrNameCasing] of the types of the language service, with the
    two members the plugin compares against. *)
Inductive AttrNameCasing := Kebab | Camel.

(** The tag whose attributes are being scanned. *)
Record Current := {
  unburnedRequiredProps : list string;
  labelOffset : nat;
  insertOffset : nat
}.

(** The names every object inherits from [Object.prototype].  Read from
    the object [componentProps], which starts as an empty object
    literal, each of them gives a function or an object that is not an
    array. *)
Definition objectPrototypeKeys : list string :=
  [ "constructor"; "hasOwnProperty"; "isPrototypeOf";
    "propertyIsEnumerable"; "toLocaleString"; "toString"; "valueOf";
    "__defineGetter__"; "__defineSetter__"; "__lookupGetter__";
    "__lookupSetter__"; "__proto__" ].

(** The state of the loop over the tokens: the props looked up so far,
    by tag, the current tag, and the hints. *)
Record State := {
  componentProps : list (string * list string);
  current : option Current;
  result : list InlayHint
}.

Section Plugin.

Variable hyphenateTag : string -> string.
Variable hyphenateAttr : string -> string.

(** [vueCompilerOptions.target >= 3]. *)
Variable targetAtLeast3 : bool.

(** [casing.attr] of the source file of a map. *)
Variable getNameCasing : SourceMapWithDocuments -> AttrNameCasing.

(** The required props of a tag of a Vue file: [getPropsByTag] with its
    last argument [true]. *)
Variable getPropsByTag : VueFile -> string -> list string.

(** The body of the loop over the tokens. *)
Definition scanToken (document : TextDocument.t) (sourceVirtualFile : VueFile)
  (casing : AttrNameCasing) (components : list string) (token : ScanToken)
  (state : State) : Throwing.result State :=
  bind
    (match tokenType token with
     | StartTag =>
         let tagName := tokenText token in
         let component :=
           match indexOf tagName "." with
           | Some _ =>
               find (fun component =>
                       component =? hd "" (split tagName ".")) components
           | None =>
               find (fun component =>
                       (component =? tagName)
                       || (hyphenateTag component =? tagName)) components
           end in
         let checkTag :=
           match indexOf tagName "." with
           | Some _ => Some tagName
           | None => component
           end in
         match checkTag with
         | Some checkTag =>
             if checkTag =? "" then Ok state
             else
               bind
                 (match find (fun entry => fst entry =? checkTag)
                          (componentProps state) with
                  | Some entry => Ok (componentProps state, snd entry)
                  | None =>
                      if has objectPrototypeKeys checkTag then Throw
                      else
                        let props :=
                          getPropsByTag sourceVirtualFile checkTag in
                        Ok (((checkTag, props) :: componentProps state)%list,
                            props)
                  end)
                 (fun '(componentProps, props) =>
                    Ok {| componentProps := componentProps;
                          current :=
                            Some {| unburnedRequiredProps := props;
                                    labelOffset :=
                                      tokenOffset token + tokenLength token;
                                    insertOffset :=
                                      tokenOffset token + tokenLength token
                                 |};
                          result := result state |})
         | None => Ok state
         end
     | AttributeName =>
         match current state with
         | Some current =>
             let attrText := tokenText token in
             let unburnedRequiredProps :=
               if attrText =? "v-bind" then []
               else
                 let attrText :=
                   match indexOf attrText "." with
                   | Some _ => hd "" (split attrText ".")
                   | None => attrText
                   end in
                 let attrText :=
                   if startsWith attrText "v-bind:"
                   then drop (String.length "v-bind:") attrText
                   else if startsWith attrText ":"
                   then drop (String.length ":") attrText
                   else if startsWith attrText "v-model:"
                   then drop (String.length "v-model:") attrText
                   else if attrText =? "v-model"
                   then if targetAtLeast3 then "modelValue" else "value"
                   else if startsWith attrText "@"
                   then "on-" ++ hyphenateAttr
                                   (drop (String.length "@") attrText)
                   else attrText in
                 filter
                   (fun propName =>
                      negb (attrText =? propName)
                      && negb (attrText =? hyphenateAttr propName))
                   (unburnedRequiredProps current) in
             Ok {| componentProps := componentProps state;
                   current :=
                     Some {| unburnedRequiredProps := unburnedRequiredProps;
                             labelOffset := labelOffset current;
                             insertOffset := insertOffset current |};
                   result := result state |}
         | None => Ok state
         end
     | StartTagSelfClose | StartTagClose =>
         match current state with
         | Some current =>
             Ok {| componentProps := componentProps state;
                   current := None;
                   result :=
                     (result state
                      ++ map
                           (fun requiredProp =>
                              {| hintLabel := requiredProp ++ "!";
                                 paddingLeft := true;
                                 position :=
                                   positionAt document (labelOffset current);
                                 hintKind := 2;
                                 textEdits :=
                                   [ {| range :=
                                          {| start :=
                                               positionAt document
                                                 (insertOffset current);
                                             end_ :=
                                               positionAt document
                                                 (insertOffset current) |};
                                        newText :=
                                          " :"
                                          ++ match casing with
                                             | Kebab =>
                                                 hyphenateAttr requiredProp
                                             | Camel => requiredProp
                                             end
                                          ++ "=" |} ] |})
                           (unburnedRequiredProps current))%list |}
         | None => Ok state
         end
     | _ => Ok state
     end)
    (fun state =>
       match tokenType token with
       | AttributeName | AttributeValue =>
           match current state with
           | Some current =>
               Ok {| componentProps := componentProps state;
                     current :=
                       Some {| unburnedRequiredProps :=
                                 unburnedRequiredProps current;
                               labelOffset := labelOffset current;
                               insertOffset :=
                                 tokenOffset token + tokenLength token |};
                     result := result state |}
           | None => Ok state
           end
       | _ => Ok state
       end).

(** The loop over the tokens of a scanner, to its end. *)
Fixpoint scanTokens (document : TextDocument.t) (sourceVirtualFile : VueFile)
  (casing : AttrNameCasing) (components : list string) (scanner : Scanner)
  (state : State) : Throwing.result State :=
  match scanner with
  | [] => Ok state
  | token :: rest =>
      bind (scanToken document sourceVirtualFile casing components token
              state)
        (scanTokens document sourceVirtualFile casing components rest)
  end.

(** The loop over the maps; every map of a Vue file gets a scanner of
    its own, and props and current tag that start empty. *)
Fixpoint scanMaps (services : Services) (document : TextDocument.t)
  (maps : list SourceMapWithDocuments) (hints : list InlayHint)
  : Throwing.result (list InlayHint) :=
  match maps with
  | [] => Ok hints
  | map :: rest =>
      match sourceVirtualFile map, getScanner services document with
      | Some sourceVirtualFile, Some scanner =>
          bind
            (scanTokens document sourceVirtualFile (getNameCasing map)
               (componentNames sourceVirtualFile) scanner
               {| componentProps := []; current := None; result := hints |})
            (fun state => scanMaps services document rest (result state))
      | _, _ => scanMaps services document rest hints
      end
  end.

(** [missingProps] is the configuration [vue.inlayHints.missingProps],
    if it is set. *)
Definition provideInlayHints (services : Services)
  (missingProps : option bool) (document : TextDocument.t)
  : Throwing.result (option (list InlayHint)) :=
  if negb (isSupportedDocument services document) then Ok None
  else
    let enabled :=
      match missingProps with
      | Some enabled => enabled
      | None => false
      end in
    if negb enabled then Ok None
    else
      match getMaps services document with
      | None => Ok None
      | Some maps =>
          bind (scanMaps services document maps [])
            (fun hints => Ok (Some hints))
      end.

End Plugin.

(** *** Facts about the inlay hints *)

Section Facts.

Variable hyphenateTag : string -> string.
Variable hyphenateAttr : string -> string.
Variable targetAtLeast3 : bool.
Variable getNameCasing : SourceMapWithDocuments -> AttrNameCasing.
Variable getPropsByTag : VueFile -> string -> list string.

Variable document : TextDocument.t.
Variable file : VueFile.
Variable casing : AttrNameCasing.

Let step :=
  scanToken hyphenateTag hyphenateAttr targetAtLeast3 getPropsByTag document
    file casing (componentNames file).

Let run :=
  scanTokens hyphenateTag hyphenateAttr targetAtLeast3 getPropsByTag document
    file casing (componentNames file).

(** The tag whose props are looked up for a tag name: the name itself
    when it has a dot, else the first component that is the name, as it
    is or hyphenated. *)
Definition checkTagOf (tagName : string) : option string :=
  match indexOf tagName "." with
  | Some _ => Some tagName
  | None =>
      find (fun component =>
              (component =? tagName) || (hyphenateTag component =? tagName))
        (componentNames file)
  end.

(** The prop an attribute name stands for. *)
Definition propOf (attrText : string) : string :=
  let attrText :=
    match indexOf attrText "." with
    | Some _ => hd "" (split attrText ".")
    | None => attrText
    end in
  if startsWith attrText "v-bind:" then drop 7 attrText
  else if startsWith attrText ":" then drop 1 attrText
  else if startsWith attrText "v-model:" then drop 8 attrText
  else if attrText =? "v-model"
  then if targetAtLeast3 then "modelValue" else "value"
  else if startsWith attrText "@" then "on-" ++ hyphenateAttr (drop 1 attrText)
  else attrText.

(** An attribute name binds a prop when it stands for the prop or for
    its hyphenated form. *)
Definition binds (attrText propName : string) : bool :=
  (propOf attrText =? propName) || (propOf attrText =? hyphenateAttr propName).

(** The texts of the attribute names among the tokens of a tag. *)
Definition attributeNames (attrs : list ScanToken) : list string :=
  map tokenText
    (filter (fun token =>
               match tokenType token with
               | AttributeName => true
               | _ => false
               end) attrs).

(** The required props no attribute of the tag binds; none when the tag
    has the attribute [v-bind]. *)
Definition missing (required names : list string) : list string :=
  if has names "v-bind" then []
  else filter (fun propName =>
                 forallb (fun attrText => negb (binds attrText propName))
                   names) required.

(** Where the hints of a tag insert: behind the last attribute name or
    value of the tag, behind the tag name if it has none. *)
Definition insertOffsetOf (tag : ScanToken) (attrs : list ScanToken) : nat :=
  fold_left
    (fun offset token =>
       match tokenType token with
       | AttributeName | AttributeValue =>
           tokenOffset token + tokenLength token
       | _ => offset
       end)
    attrs (tokenOffset tag + tokenLength tag).

Definition hintOf (labelOffset insertOffset : nat) (requiredProp : string)
  : InlayHint :=
  {| hintLabel := requiredProp ++ "!";
     paddingLeft := true;
     position := positionAt document labelOffset;
     hintKind := 2;
     textEdits :=
       [ {| range := {| start := positionAt document insertOffset;
                        end_ := positionAt document insertOffset |};
            newText :=
              " :"
              ++ match casing with
                 | Kebab => hyphenateAttr requiredProp
                 | Camel => requiredProp
                 end
              ++ "=" |} ] |}.

(** The tokens between a tag name and the end of its tag. *)
Definition inTag (type : TokenType) : bool :=
  match type with
  | StartTag | StartTagClose | StartTagSelfClose => false
  | _ => true
  end.

Definition closesTag (type : TokenType) : bool :=
  match type with
  | StartTagClose | StartTagSelfClose => true
  | _ => false
  end.

(** Every entry of the props looked up is what [getPropsByTag] gives. *)
Definition cacheOk (cache : list (string * list string)) : Prop :=
  Forall (fun entry => snd entry = getPropsByTag file (fst entry)) cache.

Lemma cacheOk_find (cache : list (string * list string)) (checkTag : string)
  (entry : string * list string) :
  cacheOk cache ->
  find (fun entry => fst entry =? checkTag) cache = Some entry ->
  snd entry = getPropsByTag file checkTag.
Proof.
  intros Hc Hf. apply find_some in Hf as [Hin He].
  apply String.eqb_eq in He. subst checkTag.
  unfold cacheOk in Hc. rewrite Forall_forall in Hc. now apply Hc.
Qed.

Lemma run_app (front back : Scanner) (state : State) :
  run (front ++ back)%list state = bind (run front state) (run back).
Proof.
  revert state; induction front as [|token front IH]; intros state.
  - reflexivity.
  - cbn [app]. unfold run in *. cbn [scanTokens].
    destruct (scanToken _ _ _ _ _ _ _ _ token state); cbn [bind];
      [apply IH | reflexivity].
Qed.

(** A step keeps what was looked up right, and only adds hints. *)
Lemma step_grows (token : ScanToken) (state state' : State) :
  step token state = Ok state' ->
  (cacheOk (componentProps state) -> cacheOk (componentProps state'))
  /\ exists added, result state' = (result state ++ added)%list.
Proof.
  unfold step, scanToken.
  destruct (tokenType token);
    try (cbn [bind]; intros [= <-]; split; [auto | exists []];
         now rewrite app_nil_r).
  - (* StartTagClose *)
    destruct (current state) as [cur|]; cbn [bind];
      intros [= <-]; cbn [componentProps result]; split; auto;
      [eexists; reflexivity | exists []; now rewrite app_nil_r].
  - (* StartTagSelfClose *)
    destruct (current state) as [cur|]; cbn [bind];
      intros [= <-]; cbn [componentProps result]; split; auto;
      [eexists; reflexivity | exists []; now rewrite app_nil_r].
  - (* StartTag *)
    destruct (match indexOf (tokenText token) "." with
              | Some _ => Some (tokenText token)
              | None => _
              end) as [checkTag|]; cbn [bind];
      [|intros [= <-]; split; [auto | exists []; now rewrite app_nil_r]].
    destruct (checkTag =? ""); cbn [bind];
      [intros [= <-]; split; [auto | exists []; now rewrite app_nil_r]|].
    destruct (find _ (componentProps state)) as [entry|] eqn:Ef; cbn [bind].
    + intros [= <-]; cbn [componentProps result]; split; [auto|].
      exists []; now rewrite app_nil_r.
    + destruct (has objectPrototypeKeys checkTag); cbn [bind];
        [discriminate|].
      intros [= <-]; cbn [componentProps result]; split.
      * intros Hc. constructor; [reflexivity | exact Hc].
      * exists []; now rewrite app_nil_r.
  - (* AttributeName *)
    destruct (current state) as [cur|] eqn:Ec; cbn [bind current];
      rewrite ?Ec; intros [= <-]; cbn [componentProps result]; split; auto;
      exists []; now rewrite app_nil_r.
  - (* AttributeValue *)
    cbn [bind]. destruct (current state) as [cur|];
      intros [= <-]; cbn [componentProps result]; split; auto;
      exists []; now rewrite app_nil_r.
Qed.

Lemma run_grows (scanner : Scanner) :
  forall state state',
    run scanner state = Ok state' ->
    (cacheOk (componentProps state) -> cacheOk (componentProps state'))
    /\ exists added, result state' = (result state ++ added)%list.
Proof.
  induction scanner as [|token rest IH]; intros state state'.
  - intros [= <-]. split; [auto | exists []; now rewrite app_nil_r].
  - unfold run in *. cbn [scanTokens]. fold step.
    destruct (step token state) as [state1|] eqn:E; cbn [bind];
      [|discriminate].
    intros H. apply step_grows in E as [Hc1 [a1 Ha1]].
    apply IH in H as [Hc2 [a2 Ha2]]. split; [auto|].
    exists (a1 ++ a2)%list. now rewrite Ha2, Ha1, <- app_assoc.
Qed.

(** The props left after the attribute names of a tag, one by one. *)
Definition burn (props names : list string) : list string :=
  fold_left
    (fun props attrText =>
       if attrText =? "v-bind" then []
       else filter (fun propName => negb (binds attrText propName)) props)
    names props.

Lemma filter_filter {A} (f g : A -> bool) (l : list A) :
  filter g (filter f l) = filter (fun a => f a && g a) l.
Proof.
  induction l as [|a l IH]; [reflexivity|].
  cbn [filter]. destruct (f a); cbn [filter andb]; now rewrite IH.
Qed.

Lemma burn_cons (props names : list string) (attrText : string) :
  burn props (attrText :: names)
  = burn (if attrText =? "v-bind" then []
          else filter (fun propName => negb (binds attrText propName)) props)
      names.
Proof. reflexivity. Qed.

Lemma burn_nil (names : list string) : burn [] names = [].
Proof.
  induction names as [|a names IH]; [reflexivity|].
  unfold burn in *. cbn [fold_left filter]. now destruct (a =? "v-bind").
Qed.

Lemma burn_missing (names props : list string) :
  burn props names = missing props names.
Proof.
  unfold missing. revert props; induction names as [|a names IH];
    intros props.
  - cbn [burn fold_left has existsb forallb].
    induction props as [|p props IHp]; cbn [filter]; congruence.
  - rewrite burn_cons. unfold has. cbn [existsb forallb].
    rewrite (String.eqb_sym "v-bind" a).
    destruct (a =? "v-bind"); cbn [orb]; [apply burn_nil|].
    rewrite IH. unfold has. destruct (existsb _ names); [reflexivity|].
    apply filter_filter.
Qed.

(** The run over the tokens between a tag name and the end of its tag. *)
Lemma run_attrs (attrs : list ScanToken) :
  Forall (fun token => inTag (tokenType token) = true) attrs ->
  forall cache cur hints,
    run attrs {| componentProps := cache; current := Some cur;
                 result := hints |}
    = Ok {| componentProps := cache;
            current :=
              Some {| unburnedRequiredProps :=
                        burn (unburnedRequiredProps cur)
                          (attributeNames attrs);
                      labelOffset := labelOffset cur;
                      insertOffset :=
                        fold_left
                          (fun offset token =>
                             match tokenType token with
                             | AttributeName | AttributeValue =>
                                 tokenOffset token + tokenLength token
                             | _ => offset
                             end)
                          attrs (insertOffset cur) |};
            result := hints |}.
Proof.
  induction 1 as [|token attrs Ht _ IH]; intros cache cur hints.
  - destruct cur; reflexivity.
  - unfold run in *. cbn [scanTokens fold_left].
    assert (Hnames :
              attributeNames (token :: attrs)
              = match tokenType token with
                | AttributeName => tokenText token :: attributeNames attrs
                | _ => attributeNames attrs
                end).
    { unfold attributeNames. cbn [filter].
      now destruct (tokenType token). }
    rewrite Hnames. unfold scanToken.
    destruct (tokenType token) eqn:E; try discriminate;
      cbn [bind current componentProps result]; rewrite IH;
      cbn [unburnedRequiredProps labelOffset insertOffset];
      try reflexivity.
    (* AttributeName *)
    rewrite burn_cons. do 5 f_equal.
    destruct (tokenText token =? "v-bind"); [reflexivity|].
    apply filter_ext. intros p. unfold binds. now rewrite negb_orb.
Qed.

Lemma step_startTag (tag : ScanToken) (checkTag : string)
  (state state' : State) :
  tokenType tag = StartTag ->
  checkTagOf (tokenText tag) = Some checkTag ->
  checkTag <> "" ->
  cacheOk (componentProps state) ->
  step tag state = Ok state' ->
  exists cache,
    cacheOk cache
    /\ state'
       = {| componentProps := cache;
            current :=
              Some {| unburnedRequiredProps := getPropsByTag file checkTag;
                      labelOffset := tokenOffset tag + tokenLength tag;
                      insertOffset := tokenOffset tag + tokenLength tag |};
            result := result state |}.
Proof.
  intros Ht Hc Hne Hok. unfold step, scanToken. rewrite Ht. cbv zeta.
  unfold checkTagOf in Hc.
  destruct (indexOf (tokenText tag) ".");
    [injection Hc as Hc; subst checkTag | rewrite Hc];
    apply String.eqb_neq in Hne; rewrite Hne;
    (destruct (find _ (componentProps state)) as [entry|] eqn:Ef;
     cbn [bind];
     [ rewrite (cacheOk_find _ _ _ Hok Ef); intros [= <-];
       exists (componentProps state); split; [exact Hok | reflexivity]
     | destruct (has objectPrototypeKeys _); cbn [bind];
       [discriminate|];
       intros [= <-]; eexists; split; [|reflexivity];
       constructor; [reflexivity | exact Hok] ]).
Qed.

(** The run over a tag: its name, the tokens in it, and its end. *)
Lemma run_tag (tag close : ScanToken) (attrs : list ScanToken)
  (checkTag : string) (state state' : State) :
  tokenType tag = StartTag ->
  checkTagOf (tokenText tag) = Some checkTag ->
  checkTag <> "" ->
  Forall (fun token => inTag (tokenType token) = true) attrs ->
  closesTag (tokenType close) = true ->
  cacheOk (componentProps state) ->
  run (tag :: attrs ++ [close])%list state = Ok state' ->
  cacheOk (componentProps state')
  /\ result state'
     = (result state
        ++ map (hintOf (tokenOffset tag + tokenLength tag)
                  (insertOffsetOf tag attrs))
             (missing (getPropsByTag file checkTag)
                (attributeNames attrs)))%list.
Proof.
  intros Ht Hc Hne Hattrs Hclose Hok.
  change (run (tag :: attrs ++ [close])%list state)
    with (bind (step tag state) (run (attrs ++ [close])%list)).
  destruct (step tag state) as [state1|] eqn:E1; cbn [bind]; [|discriminate].
  destruct (step_startTag _ _ _ _ Ht Hc Hne Hok E1) as (cache & Hok1 & ->).
  rewrite run_app, (run_attrs _ Hattrs). cbn [bind].
  unfold run. cbn [scanTokens]. unfold scanToken.
  destruct (tokenType close); try discriminate;
    cbn [bind current componentProps result unburnedRequiredProps
           labelOffset insertOffset];
    intros [= <-]; cbn [componentProps result]; (split; [exact Hok1|]);
    rewrite burn_missing; reflexivity.
Qed.

(** A hint for a required prop of some tag. *)
Definition hintOfRequired (hint : InlayHint) : Prop :=
  exists checkTag requiredProp labelOffset insertOffset,
    In requiredProp (getPropsByTag file checkTag)
    /\ hint = hintOf labelOffset insertOffset requiredProp.

(** What holds of the state all along the loop. *)
Definition invariant (state : State) : Prop :=
  cacheOk (componentProps state)
  /\ forall cur, current state = Some cur ->
       exists checkTag,
         incl (unburnedRequiredProps cur) (getPropsByTag file checkTag).

Lemma incl_filter {A} (f : A -> bool) (l : list A) : incl (filter f l) l.
Proof. intros a Ha. now apply filter_In in Ha. Qed.

Lemma step_invariant (token : ScanToken) (state state' : State) :
  step token state = Ok state' -> invariant state ->
  invariant state'
  /\ exists added,
       result state' = (result state ++ added)%list
       /\ Forall hintOfRequired added.
Proof.
  intros H (Hc & Hcur).
  assert (Hnone : exists added,
            result state = (result state ++ added)%list
            /\ Forall hintOfRequired added)
    by (exists []; split; [now rewrite app_nil_r | constructor]).
  assert (Hclose :
            forall cur, current state = Some cur ->
              Forall hintOfRequired
                (map (fun requiredProp =>
                        hintOf (labelOffset cur) (insertOffset cur)
                          requiredProp)
                   (unburnedRequiredProps cur))).
  { intros cur Ec. destruct (Hcur cur Ec) as [checkTag Hincl].
    apply Forall_forall. intros hint Hin.
    apply in_map_iff in Hin as (p & <- & Hp).
    exists checkTag, p, (labelOffset cur), (insertOffset cur).
    split; [now apply Hincl | reflexivity]. }
  unfold invariant.
  split; [split; [exact (proj1 (step_grows _ _ _ H) Hc)|]|];
    revert H; unfold step, scanToken;
    (destruct (tokenType token);
     try (cbn [bind]; intros [= <-]; assumption)).
  - (* StartTagClose *)
    destruct (current state) as [cur|] eqn:Ec; cbn [bind];
      intros [= <-]; cbn [current]; intros cur' Hx;
      [discriminate | rewrite Ec in Hx; discriminate].
  - (* StartTagSelfClose *)
    destruct (current state) as [cur|] eqn:Ec; cbn [bind];
      intros [= <-]; cbn [current]; intros cur' Hx;
      [discriminate | rewrite Ec in Hx; discriminate].
  - (* StartTag *)
    cbv zeta.
    destruct (match indexOf (tokenText token) "." with
              | Some _ => Some (tokenText token)
              | None => _
              end) as [checkTag|]; cbn [bind];
      [|intros [= <-]; assumption].
    destruct (checkTag =? ""); cbn [bind]; [intros [= <-]; assumption|].
    destruct (find _ (componentProps state)) as [entry|] eqn:Ef; cbn [bind].
    + intros [= <-]; cbn [current].
      intros cur [= <-]. exists checkTag. cbn [unburnedRequiredProps].
      rewrite (cacheOk_find _ _ _ Hc Ef). apply incl_refl.
    + destruct (has objectPrototypeKeys checkTag); cbn [bind];
        [discriminate|].
      intros [= <-]; cbn [current].
      intros cur [= <-]. exists checkTag. apply incl_refl.
  - (* AttributeName *)
    destruct (current state) as [cur|] eqn:Ec; cbn [bind current];
      rewrite ?Ec; intros [= <-]; cbn [current];
      [|intros cur' Hx; rewrite Ec in Hx; discriminate].
    intros cur' [= <-]. cbn [unburnedRequiredProps].
    destruct (Hcur cur eq_refl) as [checkTag Hincl]. exists checkTag.
    destruct (tokenText token =? "v-bind"); [intros p []|].
    eapply incl_tran; [apply incl_filter | exact Hincl].
  - (* AttributeValue *)
    cbn [bind]. destruct (current state) as [cur|] eqn:Ec;
      intros [= <-]; cbn [current];
      [|intros cur' Hx; rewrite Ec in Hx; discriminate].
    intros cur' [= <-]. exact (Hcur cur eq_refl).
  - (* StartTagClose *)
    destruct (current state) as [cur|] eqn:Ec; cbn [bind];
      intros [= <-]; cbn [result]; [|exact Hnone].
    eexists. split; [reflexivity | now apply Hclose].
  - (* StartTagSelfClose *)
    destruct (current state) as [cur|] eqn:Ec; cbn [bind];
      intros [= <-]; cbn [result]; [|exact Hnone].
    eexists. split; [reflexivity | now apply Hclose].
  - (* StartTag *)
    cbv zeta.
    destruct (match indexOf (tokenText token) "." with
              | Some _ => Some (tokenText token)
              | None => _
              end) as [checkTag|]; cbn [bind];
      [|intros [= <-]; assumption].
    destruct (checkTag =? ""); cbn [bind]; [intros [= <-]; assumption|].
    destruct (find _ (componentProps state)) as [entry|]; cbn [bind].
    + intros [= <-]; cbn [result]. exact Hnone.
    + destruct (has objectPrototypeKeys checkTag); cbn [bind];
        [discriminate|].
      intros [= <-]; cbn [result]. exact Hnone.
  - (* AttributeName *)
    destruct (current state) as [cur|] eqn:Ec; cbn [bind current];
      rewrite ?Ec; intros [= <-]; cbn [result]; exact Hnone.
  - (* AttributeValue *)
    cbn [bind]. destruct (current state) as [cur|];
      intros [= <-]; cbn [result]; exact Hnone.
Qed.

Lemma run_invariant (scanner : Scanner) :
  forall state state',
    run scanner state = Ok state' -> invariant state ->
    invariant state'
    /\ exists added,
         result state' = (result state ++ added)%list
         /\ Forall hintOfRequired added.
Proof.
  induction scanner as [|token rest IH]; intros state state'.
  - intros [= <-] Hi. split; [exact Hi|].
    exists []. split; [now rewrite app_nil_r | constructor].
  - unfold run in *. cbn [scanTokens]. fold step.
    destruct (step token state) as [state1|] eqn:E; cbn [bind];
      [|discriminate].
    intros H Hi.
    destruct (step_invariant _ _ _ E Hi) as (Hi1 & a1 & Ha1 & Hg1).
    destruct (IH _ _ H Hi1) as (Hi2 & a2 & Ha2 & Hg2).
    split; [exact Hi2|]. exists (a1 ++ a2)%list.
    split; [now rewrite Ha2, Ha1, <- app_assoc | now apply Forall_app].
Qed.

(** No member of [Object.prototype] has a dot in its name. *)
Lemma dotted_not_inherited (tagName : string) (n : nat) :
  indexOf tagName "." = Some n -> has objectPrototypeKeys tagName = false.
Proof.
  intros H. destruct (has objectPrototypeKeys tagName) eqn:E; [|reflexivity].
  apply existsb_exists in E as (key & Hin & He).
  apply String.eqb_eq in He. subst key.
  repeat (destruct Hin as [<-|Hin]; [discriminate H|]). destruct Hin.
Qed.

(** A step throws only on a component named like a member of
    [Object.prototype]. *)
Lemma step_total (token : ScanToken) (state : State) :
  Forall (fun component => has objectPrototypeKeys component = false)
    (componentNames file) ->
  exists state', step token state = Ok state'.
Proof.
  intros Hall. unfold step, scanToken.
  destruct (tokenType token);
    try (cbn [bind]; eexists; reflexivity).
  - destruct (current state); cbn [bind]; eexists; reflexivity.
  - destruct (current state); cbn [bind]; eexists; reflexivity.
  - cbv zeta. destruct (indexOf (tokenText token) ".") eqn:Ei.
    + pose proof (dotted_not_inherited _ _ Ei) as Hs.
      destruct (tokenText token =? ""); cbn [bind];
        [eexists; reflexivity|].
      destruct (find _ (componentProps state)); cbn [bind];
        [eexists; reflexivity|].
      rewrite Hs. cbn [bind]. eexists; reflexivity.
    + destruct (find _ (componentNames file)) as [checkTag|] eqn:Ef;
        cbn [bind]; [|eexists; reflexivity].
      apply find_some in Ef as [Hin _].
      rewrite Forall_forall in Hall. pose proof (Hall _ Hin) as Hs.
      destruct (checkTag =? ""); cbn [bind]; [eexists; reflexivity|].
      destruct (find _ (componentProps state)); cbn [bind];
        [eexists; reflexivity|].
      rewrite Hs. cbn [bind]. eexists; reflexivity.
  - destruct (current state) eqn:Ec; cbn [bind current]; rewrite ?Ec;
      eexists; reflexivity.
  - cbn [bind]. destruct (current state); eexists; reflexivity.
Qed.

Lemma run_total (scanner : Scanner) :
  Forall (fun component => has objectPrototypeKeys component = false)
    (componentNames file) ->
  forall state, exists state', run scanner state = Ok state'.
Proof.
  intros Hall. induction scanner as [|token rest IH]; intros state.
  - now exists state.
  - unfold run in *. cbn [scanTokens]. fold step.
    destruct (step_total token state Hall) as [state1 ->]. cbn [bind].
    apply IH.
Qed.

End Facts.

Section Provider.

Variable hyphenateTag : string -> string.
Variable hyphenateAttr : string -> string.
Variable targetAtLeast3 : bool.
Variable getNameCasing : SourceMapWithDocuments -> AttrNameCasing.
Variable getPropsByTag : VueFile -> string -> list string.
Variable services : Services.
Variable document : TextDocument.t.

Let scan :=
  scanMaps hyphenateTag hyphenateAttr targetAtLeast3 getNameCasing
    getPropsByTag services document.

Lemma scanMaps_app (front back : list SourceMapWithDocuments)
  (hints : list InlayHint) :
  scan (front ++ back)%list hints = bind (scan front hints) (scan back).
Proof.
  revert hints; induction front as [|map front IH]; intros hints;
    [reflexivity|].
  unfold scan in *. cbn [app scanMaps].
  destruct (sourceVirtualFile map); [|apply IH].
  destruct (getScanner services document); [|apply IH].
  destruct (scanTokens _ _ _ _ _ _ _ _ _ _); cbn [bind];
    [apply IH | reflexivity].
Qed.

Lemma scanMaps_grows (maps : list SourceMapWithDocuments) :
  forall hints hints',
    scan maps hints = Ok hints' ->
    exists added, hints' = (hints ++ added)%list.
Proof.
  induction maps as [|map maps IH]; intros hints hints'.
  - intros [= <-]. exists []. now rewrite app_nil_r.
  - unfold scan in *. cbn [scanMaps].
    destruct (sourceVirtualFile map) as [file|]; [|apply IH].
    destruct (getScanner services document) as [scanner|]; [|apply IH].
    destruct (scanTokens _ _ _ _ _ _ _ _ _ _) as [state|] eqn:E;
      cbn [bind]; [|discriminate].
    intros H. apply run_grows in E as [_ [a1 Ha1]].
    apply IH in H as [a2 ->]. cbn [result] in Ha1. rewrite Ha1.
    exists (a1 ++ a2)%list. now rewrite <- app_assoc.
Qed.

Lemma provideInlayHints_scanMaps (missingProps : option bool)
  (hints : list InlayHint) :
  provideInlayHints hyphenateTag hyphenateAttr targetAtLeast3 getNameCasing
    getPropsByTag services missingProps document = Ok (Some hints) ->
  exists maps,
    getMaps services document = Some maps /\ scan maps [] = Ok hints.
Proof.
  unfold provideInlayHints.
  destruct (negb (isSupportedDocument services document)); [discriminate|].
  destruct (negb _); [discriminate|].
  destruct (getMaps services document) as [maps|]; [|discriminate].
  fold scan. destruct (scan maps []) as [hints'|] eqn:E; cbn [bind];
    [|discriminate].
  intros [= <-]. exists maps. split; [reflexivity | exact E].
Qed.

(** X19: the hints of a tag.  For the tokens of an opening tag in the
    scanner of the document (the tag name, the tokens of its attributes,
    the end of the tag) and a map of a Vue file in which the tag name
    stands for a component, the hints returned hold, in a row and in the
    order of the required props of the component, one hint for every
    required prop that no attribute of the tag binds, and none when the
    tag has the attribute [v-bind]: the label is the prop followed by
    [!], the position is the end of the tag name, and the edit inserts
    the attribute behind the last attribute of the tag. *)
Theorem missing_required_props_hinted :
  forall (missingProps : option bool) (hints : list InlayHint)
         (maps : list SourceMapWithDocuments) (map : SourceMapWithDocuments)
         (file : VueFile) (front back attrs : list ScanToken)
         (tag close : ScanToken) (checkTag : string),
    provideInlayHints hyphenateTag hyphenateAttr targetAtLeast3 getNameCasing
      getPropsByTag services missingProps document = Ok (Some hints) ->
    getMaps services document = Some maps ->
    In map maps ->
    sourceVirtualFile map = Some file ->
    getScanner services document
    = Some (front ++ tag :: attrs ++ close :: back)%list ->
    tokenType tag = StartTag ->
    checkTagOf hyphenateTag file (tokenText tag) = Some checkTag ->
    checkTag <> "" ->
    Forall (fun token => inTag (tokenType token) = true) attrs ->
    closesTag (tokenType close) = true ->
    exists before after,
      hints
      = (before
         ++ List.map
              (hintOf hyphenateAttr document (getNameCasing map)
                 (tokenOffset tag + tokenLength tag)
                 (insertOffsetOf tag attrs))
              (missing hyphenateAttr targetAtLeast3
                 (getPropsByTag file checkTag) (attributeNames attrs))
         ++ after)%list.
Proof.
  intros missingProps hints maps map file front back attrs tag close
    checkTag Hrun Hmaps Hin Hfile Hscanner Htag Hcheck Hne Hattrs Hclose.
  apply provideInlayHints_scanMaps in Hrun as (maps' & Hmaps' & Hrun).
  rewrite Hmaps in Hmaps'. injection Hmaps' as <-.
  apply in_split in Hin as (maps1 & maps2 & ->).
  rewrite scanMaps_app in Hrun.
  destruct (scan maps1 []) as [hints1|] eqn:E1; cbn [bind] in Hrun;
    [|discriminate].
  unfold scan in Hrun. cbn [scanMaps] in Hrun.
  rewrite Hfile, Hscanner in Hrun.
  replace (front ++ tag :: attrs ++ close :: back)%list
    with (front ++ (tag :: attrs ++ [close]) ++ back)%list in Hrun
    by (cbn [app]; now rewrite <- app_assoc).
  rewrite run_app in Hrun.
  destruct (scanTokens _ _ _ _ _ _ _ _ front _) as [state1|] eqn:E2;
    cbn [bind] in Hrun; [|discriminate].
  rewrite run_app in Hrun.
  destruct (scanTokens _ _ _ _ _ _ _ _ (tag :: _) _) as [state2|] eqn:E3;
    cbn [bind] in Hrun; [|discriminate].
  destruct (scanTokens _ _ _ _ _ _ _ _ back _) as [state3|] eqn:E4;
    cbn [bind] in Hrun; [|discriminate].
  apply run_grows in E2 as [Hok1 [a1 Ha1]]. cbn [result componentProps] in *.
  apply run_tag with (checkTag := checkTag) in E3 as [_ Ha2];
    [|assumption..|apply Hok1; constructor].
  apply run_grows in E4 as [_ [a3 Ha3]].
  apply scanMaps_grows in Hrun as [a4 ->].
  exists (hints1 ++ a1)%list, (a3 ++ a4)%list.
  rewrite Ha3, Ha2, Ha1. now rewrite <- !app_assoc.
Qed.

(** X20: the provider throws only when a component of a Vue file of the
    document is named like a member of [Object.prototype]: when no
    component has such a name it returns, for every document and every
    scanner. *)
Theorem hints_without_exception :
  forall missingProps : option bool,
    (forall maps map file,
       getMaps services document = Some maps ->
       In map maps ->
       sourceVirtualFile map = Some file ->
       Forall (fun component => has objectPrototypeKeys component = false)
         (componentNames file)) ->
    exists hints,
      provideInlayHints hyphenateTag hyphenateAttr targetAtLeast3
        getNameCasing getPropsByTag services missingProps document
      = Ok hints.
Proof.
  intros missingProps Hall. unfold provideInlayHints.
  destruct (negb (isSupportedDocument services document));
    [eexists; reflexivity|].
  destruct (negb _); [eexists; reflexivity|].
  destruct (getMaps services document) as [maps|]; [|eexists; reflexivity].
  specialize (Hall maps).
  assert (Hall' : forall map file,
            In map maps -> sourceVirtualFile map = Some file ->
            Forall (fun component =>
                      has objectPrototypeKeys component = false)
              (componentNames file))
    by (intros map file; now apply Hall).
  clear Hall.
  assert (H : forall hints, exists hints', scan maps hints = Ok hints').
  { induction maps as [|map maps IH]; intros hints;
      [eexists; reflexivity|].
    unfold scan in *. cbn [scanMaps].
    assert (IH' : forall hints,
              exists hints',
                scanMaps hyphenateTag hyphenateAttr targetAtLeast3
                  getNameCasing getPropsByTag services document maps hints
                = Ok hints').
    { apply IH. intros map' file' Hin. apply (Hall' map' file').
      now right. }
    destruct (sourceVirtualFile map) as [file|] eqn:Ef; [|apply IH'].
    destruct (getScanner services document) as [scanner|]; [|apply IH'].
    destruct (run_total hyphenateTag hyphenateAttr targetAtLeast3
                getPropsByTag document file (getNameCasing map) scanner
                (Hall' map file (or_introl eq_refl) Ef)
                {| componentProps := []; current := None; result := hints |})
      as [state ->].
    cbn [bind]. apply IH'. }
  destruct (H []) as [hints Hh]. fold scan. rewrite Hh. cbn [bind].
  eexists; reflexivity.
Qed.

(** X21: every hint returned is a hint for a required prop of a tag of a
    Vue file of the document: its label is the prop followed by [!],
    and its only edit inserts text at a position and replaces
    nothing. *)
Theorem hints_name_required_props :
  forall (missingProps : option bool) (hints : list InlayHint),
    provideInlayHints hyphenateTag hyphenateAttr targetAtLeast3 getNameCasing
      getPropsByTag services missingProps document = Ok (Some hints) ->
    Forall
      (fun hint =>
         (exists maps map file checkTag requiredProp,
            getMaps services document = Some maps
            /\ In map maps
            /\ sourceVirtualFile map = Some file
            /\ In requiredProp (getPropsByTag file checkTag)
            /\ hintLabel hint = requiredProp ++ "!")
         /\ exists edit,
              textEdits hint = [edit]
              /\ start (range edit) = end_ (range edit))
      hints.
Proof.
  intros missingProps hints Hrun.
  apply provideInlayHints_scanMaps in Hrun as (maps & Hmaps & Hrun).
  set (good := fun hint : InlayHint =>
         (exists maps map file checkTag requiredProp,
            getMaps services document = Some maps
            /\ In map maps
            /\ sourceVirtualFile map = Some file
            /\ In requiredProp (getPropsByTag file checkTag)
            /\ hintLabel hint = requiredProp ++ "!")
         /\ exists edit,
              textEdits hint = [edit]
              /\ start (range edit) = end_ (range edit)).
  assert (H : forall part hints0 hints1,
            incl part maps -> Forall good hints0 ->
            scan part hints0 = Ok hints1 -> Forall good hints1).
  { induction part as [|map part IH]; intros hints0 hints1 Hincl Hgood.
    - now intros [= <-].
    - unfold scan in *. cbn [scanMaps].
      assert (Hpart : incl part maps)
        by (intros m Hm; apply Hincl; now right).
      destruct (sourceVirtualFile map) as [file|] eqn:Ef;
        [|now apply IH].
      destruct (getScanner services document) as [scanner|];
        [|now apply IH].
      destruct (scanTokens _ _ _ _ _ _ _ _ _ _) as [state|] eqn:E;
        cbn [bind]; [|discriminate].
      apply IH; [exact Hpart|].
      apply run_invariant in E as (_ & added & Hadded & Hres).
      + cbn [result] in Hadded. rewrite Hadded. apply Forall_app.
        split; [exact Hgood|].
        eapply Forall_impl; [|exact Hres].
        intros hint (checkTag & p & lo & io & Hp & ->). split.
        * exists maps, map, file, checkTag, p.
          repeat split; try assumption. apply Hincl. now left.
        * eexists. split; reflexivity.
      + split; [constructor | discriminate]. }
  apply (H maps [] hints); [apply incl_refl | constructor | exact Hrun].
Qed.

End Provider.

(** *** An instance: [<my-button :size='s'>] *)

Definition buttonFile : VueFile :=
  {| template := None; componentNames := ["MyButton"] |}.

Definition buttonMap : SourceMapWithDocuments :=
  {| sourceVirtualFile := Some buttonFile |}.

Definition buttonProps : VueFile -> string -> list string :=
  fun _ tag => if tag =? "MyButton" then ["label"; "size"; "onClick"] else [].

Definition buttonDocument : TextDocument.t :=
  create "file:///Widget.vue.template.html" "html" 1 "<my-button :size='s'>".

Definition buttonTag : ScanToken :=
  {| tokenType := StartTag; tokenOffset := 1; tokenLength := 9;
     tokenText := "my-button" |}.

Definition buttonAttrs : list ScanToken :=
  [ {| tokenType := Whitespace; tokenOffset := 10; tokenLength := 1;
       tokenText := " " |};
    {| tokenType := AttributeName; tokenOffset := 11; tokenLength := 5;
       tokenText := ":size" |};
    {| tokenType := DelimiterAssign; tokenOffset := 16; tokenLength := 1;
       tokenText := "=" |};
    {| tokenType := AttributeValue; tokenOffset := 17; tokenLength := 3;
       tokenText := "'s'" |} ].

Definition buttonOpen : ScanToken :=
  {| tokenType := StartTagOpen; tokenOffset := 0; tokenLength := 1;
     tokenText := "<" |}.

Definition buttonClose : ScanToken :=
  {| tokenType := StartTagClose; tokenOffset := 20; tokenLength := 1;
     tokenText := ">" |}.

Definition buttonServices : Services :=
  {| isSupportedDocument := fun _ => true;
     baseProvideDiagnostics := fun _ => None;
     baseProvideDocumentSemanticTokens := fun _ _ _ => None;
     getScanner := fun _ =>
       Some (buttonOpen :: buttonTag :: buttonAttrs ++ [buttonClose])%list;
     getMaps := fun _ => Some [buttonMap] |}.

Definition buttonHint (requiredProp attribute : string) : InlayHint :=
  {| hintLabel := requiredProp ++ "!";
     paddingLeft := true;
     position := {| line := 0; character := 10 |};
     hintKind := 2;
     textEdits :=
       [ {| range := {| start := {| line := 0; character := 20 |};
                        end_ := {| line := 0; character := 20 |} |};
            newText := " :" ++ attribute ++ "=" |} ] |}.

Definition buttonHints : list InlayHint :=
  [buttonHint "label" "label"; buttonHint "onClick" "on-click"].

Example buttonHints_provided :
  provideInlayHints kebab kebab true (fun _ => Kebab) buttonProps
    buttonServices (Some true) buttonDocument
  = Ok (Some buttonHints).
Proof. vm_compute. reflexivity. Qed.

Lemma missing_required_props_hinted_witness :
  exists before after,
    buttonHints
    = (before ++ [buttonHint "label" "label"; buttonHint "onClick" "on-click"]
       ++ after)%list.
Proof.
  apply (missing_required_props_hinted kebab kebab true (fun _ => Kebab)
           buttonProps buttonServices buttonDocument (Some true) buttonHints
           [buttonMap] buttonMap buttonFile [buttonOpen] [] buttonAttrs
           buttonTag buttonClose "MyButton");
    try (vm_compute; reflexivity).
  - now left.
  - discriminate.
  - repeat constructor.
Defined.

Lemma hints_without_exception_witness :
  exists hints,
    provideInlayHints kebab kebab true (fun _ => Kebab) buttonProps
      buttonServices (Some true) buttonDocument
    = Ok hints.
Proof.
  apply hints_without_exception.
  intros maps map file [= <-] [<-|[]] [= <-]. repeat constructor.
Defined.

Lemma hints_name_required_props_witness :
  Forall
    (fun hint =>
       (exists maps map file checkTag requiredProp,
          getMaps buttonServices buttonDocument = Some maps
          /\ In map maps
          /\ sourceVirtualFile map = Some file
          /\ In requiredProp (buttonProps file checkTag)
          /\ hintLabel hint = requiredProp ++ "!")
       /\ exists edit,
            textEdits hint = [edit]
            /\ start (range edit) = end_ (range edit))
    buttonHints.
Proof.
  apply (hints_name_required_props kebab kebab true (fun _ => Kebab)
           buttonProps buttonServices buttonDocument (Some true)).
  vm_compute. reflexivity.
Defined.

(** A component named like a member of [Object.prototype]: the look-up
    of its props finds the inherited member, and the provider throws. *)
Example inherited_name_throws :
  provideInlayHints kebab kebab true (fun _ => Kebab) buttonProps
    {| isSupportedDocument := fun _ => true;
       baseProvideDiagnostics := fun _ => None;
       baseProvideDocumentSemanticTokens := fun _ _ _ => None;
       getScanner := fun _ =>
         Some [ {| tokenType := StartTag; tokenOffset := 1;
                   tokenLength := 11; tokenText := "constructor" |} ];
       getMaps := fun _ =>
         Some [ {| sourceVirtualFile :=
                     Some {| template := None;
                             componentNames := ["constructor"] |} |} ] |}
    (Some true) buttonDocument
  = Throw.
Proof. reflexivity. Qed.

(** The attribute [v-bind] takes all hints of its tag away. *)
Example bound_tag_without_hints :
  provideInlayHints kebab kebab true (fun _ => Kebab) buttonProps
    {| isSupportedDocument := fun _ => true;
       baseProvideDiagnostics := fun _ => None;
       baseProvideDocumentSemanticTokens := fun _ _ _ => None;
       getScanner := fun _ =>
         Some [ buttonTag;
                {| tokenType := AttributeName; tokenOffset := 11;
                   tokenLength := 6; tokenText := "v-bind" |};
                buttonClose ];
       getMaps := fun _ => Some [buttonMap] |}
    (Some true) buttonDocument
  = Ok (Some []).
Proof. reflexivity. Qed.

End InlayHints.

(** ** The tags and attributes offered to the markup backend *)

Module HtmlData.
Import JsString.
Import Throwing.
Import VueTemplate.
Import StringFacts.
Import InlayHints.
Import Completion.

(** [TagNameCasing] of the types of the language service, with the two
    members the plugin compares against. *)
Module TagNameCasing.
Inductive t := Kebab | Pascal.
End TagNameCasing.

Record Casing := { tag : TagNameCasing.t; attr : AttrNameCasing }.

(** A binding of a script block, as a range of its content. *)
Record Binding := { bindingStart : nat; bindingEnd : nat }.

Record ScriptBlock := { content : string }.

Record Ranges := { bindings : list Binding }.

(** The script blocks of a single-file component. *)
Record Sfc := {
  script : option ScriptBlock;
  scriptSetup : option ScriptBlock
}.

(** What [tsCodegen.get] gives for a single-file component. *)
Record Codegen := {
  scriptRanges : option Ranges;
  scriptSetupRanges : option Ranges
}.

(** A Vue file with what the providers read of it beside its component
    names; [mainTsFile] is the file name of the main script, if any. *)
Record VueSourceFile := {
  vueFile : VueFile;
  sfc : Sfc;
  mainTsFile : option string
}.

Record TagData := {
  tagName : string;
  attributes : list AttributeData
}.

(** [Set.prototype.add] on a set kept in insertion order. *)
Definition setAdd (x : string) (set : list string) : list string :=
  if has set x then set else (set ++ [x])%list.

(** [new Set(array)], in insertion order. *)
Definition setOf (l : list string) : list string :=
  fold_left (fun set x => setAdd x set) l [].

(** [toLowerCase] on the code units below 256: the letters [A] to [Z]
    and the upper-case letters of Latin-1. *)
Definition toLowerCaseChar (c : ascii) : ascii :=
  let n := nat_of_ascii c in
  if (Nat.leb 65 n && Nat.leb n 90)
     || (Nat.leb 192 n && Nat.leb n 222 && negb (Nat.eqb n 215))
  then ascii_of_nat (n + 32)
  else c.

Section Plugin.

Variable hyphenateTag : string -> string.
Variable hyphenateAttr : string -> string.

(** The helpers of the language service the providers call. *)
Variable parseScriptSetupRanges : ScriptBlock -> Ranges.
Variable getElementAttrs : string -> string -> list string.
Variable getPropsByTag : VueSourceFile -> string -> list string.
Variable getEventsOfTag : VueSourceFile -> string -> list string.
Variable getTemplateCtx : VueSourceFile -> option (list string).
Variable tsCodegen : Sfc -> option Codegen.

(** [provideTags] of the data provider installed for a map. *)
Definition provideTags (casing : Casing) (vueSourceFile : VueSourceFile)
  : list TagData :=
  let components :=
    filter
      (fun name =>
         negb (name =? "Transition")
         && negb (name =? "TransitionGroup")
         && negb (name =? "KeepAlive")
         && negb (name =? "Suspense")
         && negb (name =? "Teleport"))
      (componentNames (vueFile vueSourceFile)) in
  let scriptSetupRanges :=
    match scriptSetup (sfc vueSourceFile) with
    | Some scriptSetup => Some (parseScriptSetupRanges scriptSetup)
    | None => None
    end in
  let names : list string := [] in
  let names :=
    fold_left
      (fun names component =>
         match tag casing with
         | TagNameCasing.Kebab => setAdd (hyphenateTag component) names
         | TagNameCasing.Pascal => setAdd component names
         end)
      components names in
  let names :=
    match scriptSetupRanges, scriptSetup (sfc vueSourceFile) with
    | Some ranges, Some scriptSetup =>
        fold_left
          (fun names binding =>
             let name :=
               substring (bindingStart binding) (bindingEnd binding)
                 (content scriptSetup) in
             match tag casing with
             | TagNameCasing.Kebab => setAdd (hyphenateTag name) names
             | TagNameCasing.Pascal => setAdd name names
             end)
          (bindings ranges) names
    | _, _ => names
    end in
  map (fun name => {| tagName := name; attributes := [] |}) names.

(** The texts of the bindings of a script block; reading the content of
    a block that is not there throws, which happens with the first
    binding. *)
Definition bindingTexts (ranges : option Ranges) (block : option ScriptBlock)
  : Throwing.result (list string) :=
  match ranges with
  | Some ranges =>
      match bindings ranges, block with
      | [], _ => Ok []
      | _, None => Throw
      | bindings, Some block =>
          Ok (map (fun binding =>
                     substring (bindingStart binding) (bindingEnd binding)
                       (content block))
                bindings)
      end
  | None => Ok []
  end.

Definition attribute (name : string) (propKey : string) : AttributeData :=
  {| name := name; description := Some (DocString propKey);
     references := None |}.

(** The body of the loop over the props and the attributes of the
    element. *)
Definition propAttributes (casing : Casing) (tag : string)
  (props : list string) (prop : string)
  : Throwing.result (list AttributeData) :=
  let isGlobal := negb (has props prop) in
  let name :=
    match attr casing with
    | Camel => prop
    | Kebab => hyphenateAttr prop
    end in
  bind
    (if startsWith (hyphenateAttr name) "on-" then
       bind
         (if startsWith name "on-" then Ok (drop (String.length "on-") name)
          else
            match String.get (String.length "on") name with
            | Some c =>
                Ok (String (toLowerCaseChar c) ""
                    ++ drop (String.length "onX") name)
            | None => Throw
            end)
         (fun propNameBase =>
            let propKey :=
              createInternalItemId componentEvent
                [if isGlobal then "*" else tag; propNameBase] in
            Ok [ attribute ("v-on:" ++ propNameBase) propKey;
                 attribute ("@" ++ propNameBase) propKey ])
     else Ok [])
    (fun events =>
       let propName := name in
       let propKey :=
         createInternalItemId componentProp
           [if isGlobal then "*" else tag; propName] in
       Ok (app events
             [ attribute propName propKey;
               attribute (":" ++ propName) propKey;
               attribute ("v-bind:" ++ propName) propKey ])).

(** The loop over the props and the attributes of the element. *)
Fixpoint propsAttributes (casing : Casing) (tag : string)
  (props : list string) (all : list string)
  : Throwing.result (list AttributeData) :=
  match all with
  | [] => Ok []
  | prop :: rest =>
      bind (propAttributes casing tag props prop) (fun attributes =>
      bind (propsAttributes casing tag props rest) (fun attributes' =>
      Ok (attributes ++ attributes')%list))
  end.

(** [provideAttributes] of the data provider installed for a map. *)
Definition provideAttributes (casing : Casing) (vueSourceFile : VueSourceFile)
  (tag : string) : Throwing.result (list AttributeData) :=
  match mainTsFile vueSourceFile with
  | None => Ok []
  | Some fileName =>
      let attrs := getElementAttrs fileName tag in
      let props := setOf (getPropsByTag vueSourceFile tag) in
      let events := getEventsOfTag vueSourceFile tag in
      bind
        (match tsCodegen (sfc vueSourceFile) with
         | Some _tsCodegen =>
             bind (bindingTexts (scriptRanges _tsCodegen)
                     (script (sfc vueSourceFile)))
               (fun scriptBindings =>
             bind (bindingTexts (scriptSetupRanges _tsCodegen)
                     (scriptSetup (sfc vueSourceFile)))
               (fun scriptSetupBindings =>
             let ctxVars :=
               app scriptBindings
                 (app scriptSetupBindings
                    match getTemplateCtx vueSourceFile with
                    | Some ctx => ctx
                    | None => []
                    end) in
             let ctxVars := setOf ctxVars in
             let dirs :=
               filter (fun v => startsWith v "v-")
                 (map hyphenateAttr ctxVars) in
             Ok (map (fun dir =>
                        {| name := dir; description := None;
                           references := None |}) dirs)))
         | None => Ok []
         end)
        (fun attributes =>
      bind (propsAttributes casing tag props (app props attrs))
        (fun ofProps =>
      let attributes := app attributes ofProps in
      let attributes :=
        app attributes
          (flat_map
             (fun event =>
                let name :=
                  match attr casing with
                  | Camel => event
                  | Kebab => hyphenateAttr event
                  end in
                let propKey :=
                  createInternalItemId componentEvent [tag; name] in
                [ attribute ("v-on:" ++ name) propKey;
                  attribute ("@" ++ name) propKey ])
             events) in
      let models : list (bool * string) :=
        app
          (flat_map
             (fun prop =>
                if startsWith prop "onUpdate:" then
                  [ (negb (has props prop),
                     drop (String.length "onUpdate:") prop) ]
                else [])
             (app props attrs))
          (flat_map
             (fun event =>
                if startsWith event "update:" then
                  [ (false, drop (String.length "update:") event) ]
                else [])
             events) in
      Ok (app attributes
            (flat_map
               (fun '((isGlobal, model) : bool * string) =>
                  let name :=
                    match attr casing with
                    | Camel => model
                    | Kebab => hyphenateAttr model
                    end in
                  let propKey :=
                    createInternalItemId componentProp
                      [if isGlobal then "*" else tag; name] in
                  attribute ("v-model:" ++ name) propKey
                  :: (if model =? "modelValue"
                      then [attribute "v-model" propKey]
                      else []))
               models))))
  end.

End Plugin.

(** *** Facts about the tags and attributes *)

Lemma has_In (set : list string) (x : string) :
  has set x = true <-> In x set.
Proof.
  unfold has. rewrite existsb_exists. split.
  - intros (y & Hy & He). apply String.eqb_eq in He. now subst.
  - intros H. exists x. split; [exact H | apply String.eqb_refl].
Qed.

Lemma setAdd_In (x y : string) (set : list string) :
  In y (setAdd x set) <-> y = x \/ In y set.
Proof.
  unfold setAdd. destruct (has set x) eqn:E.
  - apply has_In in E. split; [now right|]. now intros [->|H].
  - rewrite in_app_iff. cbn [In]. split.
    + intros [H|[H|[]]]; [now right | now left].
    + intros [H|H]; [right; now left | now left].
Qed.

Lemma setAdd_NoDup (x : string) (set : list string) :
  NoDup set -> NoDup (setAdd x set).
Proof.
  intros H. unfold setAdd. destruct (has set x) eqn:E; [exact H|].
  apply NoDup_app; [exact H | repeat constructor; intros [] |].
  intros y Hy [<-|[]]. apply has_In in Hy. congruence.
Qed.

(** Adding the images of a list to a set. *)
Lemma addAll_spec {A} (f : A -> string) (l : list A) :
  forall set,
    NoDup set ->
    NoDup (fold_left (fun set a => setAdd (f a) set) l set)
    /\ forall y,
         In y (fold_left (fun set a => setAdd (f a) set) l set)
         <-> In y set \/ exists a, In a l /\ f a = y.
Proof.
  induction l as [|a l IH]; intros set Hset; cbn [fold_left].
  - split; [exact Hset|]. intros y. split; [now left|].
    now intros [H|(a & [] & _)].
  - destruct (IH (setAdd (f a) set) (setAdd_NoDup _ _ Hset)) as [Hn Hi].
    split; [exact Hn|]. intros y. rewrite Hi, setAdd_In. split.
    + intros [[->|H]|(b & Hb & <-)].
      * right. exists a. split; [now left | reflexivity].
      * now left.
      * right. exists b. split; [now right | reflexivity].
    + intros [H|(b & [<-|Hb] & <-)].
      * left. now right.
      * left. now left.
      * right. now exists b.
Qed.

Lemma setOf_spec (l : list string) :
  NoDup (setOf l) /\ forall y, In y (setOf l) <-> In y l.
Proof.
  destruct (addAll_spec (fun x => x) l [] (NoDup_nil _)) as [Hn Hi].
  split; [exact Hn|]. intros y. unfold setOf. rewrite Hi. split.
  - now intros [[]|(a & Ha & <-)].
  - intros H. right. now exists y.
Qed.

(** An identifier made by [createInternalItemId] is read without an
    exception, whatever its arguments are, and its type is read back. *)
Lemma readInternalItemId_create (type : InternalItemType)
  (args : list string) :
  exists rest,
    readInternalItemId (createInternalItemId type args)
    = Ok (Some {| idType := typeTag type; idArgs := rest |}).
Proof.
  unfold createInternalItemId, readInternalItemId, split.
  generalize (join args ","). intros tail.
  destruct type; cbn -[split_go split];
    (destruct (split_go "::" 0 "" tail) as [|piece pieces] eqn:E;
     [exfalso; revert E; apply split_go_not_nil|]);
    cbn; rewrite prefix_nil; cbn; rewrite ?E; eexists; reflexivity.
Qed.

Section Facts.

Variable hyphenateTag : string -> string.
Variable hyphenateAttr : string -> string.
Variable parseScriptSetupRanges : ScriptBlock -> Ranges.
Variable getElementAttrs : string -> string -> list string.
Variable getPropsByTag : VueSourceFile -> string -> list string.
Variable getEventsOfTag : VueSourceFile -> string -> list string.
Variable getTemplateCtx : VueSourceFile -> option (list string).
Variable tsCodegen : Sfc -> option Codegen.

Variable casing : Casing.
Variable vueSourceFile : VueSourceFile.

(** A name in the casing of tags, and in that of attributes. *)
Definition tagCased (name : string) : string :=
  match tag casing with
  | TagNameCasing.Kebab => hyphenateTag name
  | TagNameCasing.Pascal => name
  end.

Definition attrCased (name : string) : string :=
  match attr casing with
  | Camel => name
  | Kebab => hyphenateAttr name
  end.

(** The components that are not built in. *)
Definition builtIn (name : string) : bool :=
  (name =? "Transition") || (name =? "TransitionGroup")
  || (name =? "KeepAlive") || (name =? "Suspense") || (name =? "Teleport").

(** The texts of the bindings of the script setup block. *)
Definition setupBindings : list string :=
  match scriptSetup (sfc vueSourceFile) with
  | Some block =>
      map (fun binding =>
             substring (bindingStart binding) (bindingEnd binding)
               (content block))
        (bindings (parseScriptSetupRanges block))
  | None => []
  end.

Lemma fold_left_ext {A B} (f g : A -> B -> A) (l : list B) :
  (forall a b, f a b = g a b) ->
  forall a, fold_left f l a = fold_left g l a.
Proof.
  intros H. induction l as [|b l IH]; intros a; [reflexivity|].
  cbn [fold_left]. now rewrite H, IH.
Qed.

Lemma provideTags_names :
  map tagName
    (provideTags hyphenateTag parseScriptSetupRanges casing vueSourceFile)
  = fold_left (fun set name => setAdd (tagCased name) set) setupBindings
      (fold_left (fun set name => setAdd (tagCased name) set)
         (filter (fun name => negb (builtIn name))
            (componentNames (vueFile vueSourceFile))) []).
Proof.
  unfold provideTags. cbv zeta. rewrite map_map. cbn [tagName].
  rewrite map_id.
  rewrite (filter_ext _ (fun name => negb (builtIn name)))
    by (intros name; unfold builtIn; now rewrite !negb_orb).
  rewrite (fold_left_ext _ (fun set name => setAdd (tagCased name) set))
    by (intros set name; unfold tagCased; now destruct (tag casing)).
  unfold setupBindings.
  destruct (scriptSetup (sfc vueSourceFile)) as [block|]; [|reflexivity].
  rewrite (fold_left_ext _
             (fun set binding =>
                setAdd (tagCased
                          (substring (bindingStart binding)
                             (bindingEnd binding) (content block))) set))
    by (intros set name; unfold tagCased; now destruct (tag casing)).
  generalize (fold_left (fun set name => setAdd (tagCased name) set)
                (filter (fun name => negb (builtIn name))
                   (componentNames (vueFile vueSourceFile))) []).
  induction (bindings (parseScriptSetupRanges block)) as [|b l IH];
    intros set; [reflexivity|].
  cbn [map fold_left]. apply IH.
Qed.

(** X22: the tags offered for a Vue file are the names, in the casing of
    tags, of its components that are not built in and of the bindings of
    its script setup block; every name is offered once, and no tag comes
    with attributes. *)
Theorem tags_offered_once :
  let tags :=
    provideTags hyphenateTag parseScriptSetupRanges casing vueSourceFile in
  NoDup (map tagName tags)
  /\ (forall name,
        In name (map tagName tags)
        <-> exists component,
              (In component (componentNames (vueFile vueSourceFile))
               /\ builtIn component = false
               \/ In component setupBindings)
              /\ name = tagCased component)
  /\ Forall (fun tag => attributes tag = []) tags.
Proof.
  cbv zeta. split; [|split].
  - rewrite provideTags_names.
    apply addAll_spec, addAll_spec. constructor.
  - intros name. rewrite provideTags_names.
    destruct (addAll_spec tagCased
                (filter (fun name => negb (builtIn name))
                   (componentNames (vueFile vueSourceFile))) []
                (NoDup_nil _)) as [Hn Hi].
    rewrite (proj2 (addAll_spec tagCased setupBindings _ Hn)), Hi. split.
    + intros [[[]|(c & Hc & <-)]|(c & Hc & <-)].
      * apply filter_In in Hc as [Hc Hb]. exists c.
        split; [left; split; [exact Hc|] | reflexivity].
        now destruct (builtIn c).
      * exists c. split; [now right | reflexivity].
    + intros (c & [[Hc Hb]|Hc] & ->).
      * left. right. exists c. split; [|reflexivity].
        apply filter_In. split; [exact Hc | now rewrite Hb].
      * right. now exists c.
  - unfold provideTags. cbv zeta. apply Forall_map, Forall_forall.
    reflexivity.
Qed.

(** The description of an attribute is an internal identifier, or there
    is none. *)
Definition describedById (attribute : AttributeData) : Prop :=
  match description attribute with
  | None => True
  | Some (DocString key) =>
      exists id,
        readInternalItemId key = Ok (Some id)
        /\ (idType id = "componentProp" \/ idType id = "componentEvent")
  | Some (DocMarkup _ _) => False
  end.

Lemma attribute_describedById (name : string) (type : InternalItemType)
  (args : list string) :
  describedById (attribute name (createInternalItemId type args)).
Proof.
  unfold describedById, attribute. cbn [description].
  destruct (readInternalItemId_create type args) as [rest ->].
  eexists. split; [reflexivity|]. cbn [idType].
  destruct type; [now right | now left].
Qed.

Lemma Forall_flat_map {A B} (P : B -> Prop) (f : A -> list B) (l : list A) :
  (forall a, In a l -> Forall P (f a)) -> Forall P (flat_map f l).
Proof.
  induction l as [|a l IH]; intros H; cbn [flat_map]; [constructor|].
  apply Forall_app. split; [apply H; now left|].
  apply IH. intros b Hb. apply H. now right.
Qed.

Lemma propAttributes_describedById (tag : string) (props : list string)
  (prop : string) (out : list AttributeData) :
  propAttributes hyphenateAttr casing tag props prop = Ok out ->
  Forall describedById out.
Proof.
  unfold propAttributes. cbv zeta.
  destruct (startsWith (hyphenateAttr _) "on-"); cbn [bind].
  - destruct (startsWith _ "on-"); cbn [bind].
    + intros [= <-]. repeat constructor; apply attribute_describedById.
    + destruct (String.get _ _); cbn [bind]; [|discriminate].
      intros [= <-]. repeat constructor; apply attribute_describedById.
  - intros [= <-]. repeat constructor; apply attribute_describedById.
Qed.

Lemma propsAttributes_describedById (tag : string) (props : list string)
  (all : list string) :
  forall out,
    propsAttributes hyphenateAttr casing tag props all = Ok out ->
    Forall describedById out.
Proof.
  induction all as [|prop rest IH]; intros out; cbn [propsAttributes].
  - intros [= <-]. constructor.
  - destruct (propAttributes _ _ _ _ prop) as [a|] eqn:E; cbn [bind];
      [|discriminate].
    destruct (propsAttributes _ _ _ _ rest) as [b|]; cbn [bind];
      [|discriminate].
    intros [= <-]. apply Forall_app. split.
    + eapply propAttributes_describedById, E.
    + now apply IH.
Qed.

(** The attributes of a tag, in their four parts. *)
Lemma provideAttributes_parts (tag fileName : string)
  (out : list AttributeData) :
  mainTsFile vueSourceFile = Some fileName ->
  provideAttributes hyphenateAttr getElementAttrs getPropsByTag
    getEventsOfTag getTemplateCtx tsCodegen casing vueSourceFile tag
  = Ok out ->
  exists dirs ofProps,
    Forall (fun a => description a = None) dirs
    /\ propsAttributes hyphenateAttr casing tag
         (setOf (getPropsByTag vueSourceFile tag))
         (setOf (getPropsByTag vueSourceFile tag)
          ++ getElementAttrs fileName tag)%list
       = Ok ofProps
    /\ out
       = (dirs ++ ofProps
          ++ flat_map
               (fun event =>
                  [ attribute ("v-on:" ++ attrCased event)
                      (createInternalItemId componentEvent
                         [tag; attrCased event]);
                    attribute ("@" ++ attrCased event)
                      (createInternalItemId componentEvent
                         [tag; attrCased event]) ])
               (getEventsOfTag vueSourceFile tag)
          ++ flat_map
               (fun '((isGlobal, model) : bool * string) =>
                  attribute ("v-model:" ++ attrCased model)
                    (createInternalItemId componentProp
                       [if isGlobal then "*" else tag; attrCased model])
                  :: (if model =? "modelValue"
                      then [attribute "v-model"
                              (createInternalItemId componentProp
                                 [if isGlobal then "*" else tag;
                                  attrCased model])]
                      else []))
               (flat_map
                  (fun prop =>
                     if startsWith prop "onUpdate:" then
                       [ (negb (has (setOf (getPropsByTag vueSourceFile tag))
                                  prop),
                          drop 9 prop) ]
                     else [])
                  (setOf (getPropsByTag vueSourceFile tag)
                   ++ getElementAttrs fileName tag)
                ++ flat_map
                     (fun event =>
                        if startsWith event "update:" then
                          [ (false, drop 7 event) ]
                        else [])
                     (getEventsOfTag vueSourceFile tag)))%list.
Proof.
  intros Hmain. unfold provideAttributes. rewrite Hmain. cbv zeta.
  destruct (match tsCodegen (sfc vueSourceFile) with
            | Some _ => _
            | None => Ok []
            end) as [dirs|] eqn:Ed; cbn [bind]; [|discriminate].
  destruct (propsAttributes _ _ _ _ _) as [ofProps|] eqn:Ep; cbn [bind];
    [|discriminate].
  intros [= <-]. exists dirs, ofProps. split; [|split].
  - destruct (tsCodegen (sfc vueSourceFile)) as [codegen|];
      [|injection Ed as <-; constructor].
    destruct (bindingTexts (scriptRanges codegen) _); cbn [bind] in Ed;
      [|discriminate].
    destruct (bindingTexts (scriptSetupRanges codegen) _); cbn [bind] in Ed;
      [|discriminate].
    injection Ed as <-. apply Forall_map, Forall_forall. reflexivity.
  - reflexivity.
  - rewrite <- !app_assoc. reflexivity.
Qed.

(** An item documented by such a description passes the loop of the
    completion post-pass. *)
Lemma describedById_passes (attribute : AttributeData)
  (componentNames : list string) (label : string) (kind : option nat)
  (sortText : option string) :
  describedById attribute ->
  exists item,
    afterHtmlCompletionItem hyphenateTag componentNames
      {| label := label; kind := kind;
         documentation := description attribute; sortText := sortText |}
    = Ok item.
Proof.
  intros H.
  destruct (afterHtmlCompletionItem_spec hyphenateTag componentNames
              {| label := label; kind := kind;
                 documentation := description attribute;
                 sortText := sortText |}) as (item & Hitem & _);
    [|now exists item].
  unfold wellFormed, itemIdKey, describedById in *. cbn [documentation].
  destruct (description attribute) as [[key|k key]|];
    [|contradiction|reflexivity].
  destruct H as (id & Hid & _). unfold readInternalItemId in Hid.
  destruct (startsWith key "__VLS_::"); [|discriminate].
  cbn [negb orb].
  destruct (split key "::") as [|s0 [|s1 [|s2 rest]]];
    try discriminate. reflexivity.
Qed.

(** X23: every description the attribute provider attaches is an internal
    identifier that [readInternalItemId] reads without an exception, with
    the type [componentProp] or [componentEvent]; the directives come
    without description.  So the loop of the completion post-pass does
    not throw on an item that has such a description as documentation. *)
Theorem descriptions_are_item_ids :
  forall (tag : string) (out : list AttributeData),
    provideAttributes hyphenateAttr getElementAttrs getPropsByTag
      getEventsOfTag getTemplateCtx tsCodegen casing vueSourceFile tag
    = Ok out ->
    Forall
      (fun attribute =>
         match description attribute with
         | None => True
         | Some (DocString key) =>
             exists id,
               readInternalItemId key = Ok (Some id)
               /\ (idType id = "componentProp"
                   \/ idType id = "componentEvent")
         | Some (DocMarkup _ _) => False
         end
         /\ forall componentNames label kind sortText,
              exists item,
                afterHtmlCompletionItem hyphenateTag componentNames
                  {| label := label; kind := kind;
                     documentation := description attribute;
                     sortText := sortText |}
                = Ok item)
      out.
Proof.
  intros tag out H.
  assert (Hall : Forall describedById out).
  { destruct (mainTsFile vueSourceFile) as [fileName|] eqn:Hmain.
    - destruct (provideAttributes_parts _ _ _ Hmain H)
        as (dirs & ofProps & Hd & Hp & ->).
      repeat (apply Forall_app; split).
      + eapply Forall_impl; [|exact Hd]. intros a Ha.
        unfold describedById. now rewrite Ha.
      + eapply propsAttributes_describedById, Hp.
      + apply Forall_flat_map. intros event _.
        repeat constructor; apply attribute_describedById.
      + apply Forall_flat_map. intros [isGlobal model] _.
        destruct (model =? "modelValue");
          repeat constructor; apply attribute_describedById.
    - unfold provideAttributes in H. rewrite Hmain in H.
      injection H as <-. constructor. }
  eapply Forall_impl; [|exact Hall]. intros a Ha. split; [exact Ha|].
  intros componentNames label kind sortText.
  now apply describedById_passes.
Qed.

Lemma propsAttributes_incl (tag : string) (props : list string)
  (all : list string) :
  forall out prop,
    propsAttributes hyphenateAttr casing tag props all = Ok out ->
    In prop all ->
    exists ofProp,
      propAttributes hyphenateAttr casing tag props prop = Ok ofProp
      /\ incl ofProp out.
Proof.
  induction all as [|first rest IH]; intros out prop; cbn [propsAttributes];
    [intros _ []|].
  destruct (propAttributes _ _ _ _ first) as [a|] eqn:E; cbn [bind];
    [|discriminate].
  destruct (propsAttributes _ _ _ _ rest) as [b|] eqn:Er; cbn [bind];
    [|discriminate].
  intros [= <-] [<-|Hin].
  - exists a. split; [exact E | now apply incl_appl, incl_refl].
  - destruct (IH b prop eq_refl Hin) as (x & Hx & Hincl).
    exists x. split; [exact Hx | now apply incl_appr].
Qed.

Lemma propAttributes_own (tag : string) (props : list string)
  (prop : string) (out : list AttributeData) :
  propAttributes hyphenateAttr casing tag props prop = Ok out ->
  In prop props ->
  let propKey :=
    createInternalItemId componentProp [tag; attrCased prop] in
  In (attribute (attrCased prop) propKey) out
  /\ In (attribute (":" ++ attrCased prop) propKey) out
  /\ In (attribute ("v-bind:" ++ attrCased prop) propKey) out.
Proof.
  intros H Hin. apply has_In in Hin. revert H.
  unfold propAttributes. cbv zeta. rewrite Hin. cbn [negb].
  fold (attrCased prop).
  destruct (match startsWith (hyphenateAttr (attrCased prop)) "on-" with
            | true => _
            | false => Ok []
            end) as [events|]; cbn [bind]; [|discriminate].
  intros [= <-]. repeat split; apply in_or_app; right; cbn [In]; auto.
Qed.

(** X24: what the attribute provider offers for a tag holds, for every
    prop of the tag, the prop in the casing of attributes under its
    name and behind [:] and [v-bind:]; for every event of the tag, the
    event behind [v-on:] and [@]; and [v-model] when the tag has the
    event [update:modelValue].  Each comes with the identifier of the
    tag and the name as its description. *)
Theorem props_and_events_offered :
  forall (tag : string) (out : list AttributeData),
    mainTsFile vueSourceFile <> None ->
    provideAttributes hyphenateAttr getElementAttrs getPropsByTag
      getEventsOfTag getTemplateCtx tsCodegen casing vueSourceFile tag
    = Ok out ->
    (forall prop,
       In prop (getPropsByTag vueSourceFile tag) ->
       let propKey :=
         createInternalItemId componentProp [tag; attrCased prop] in
       In (attribute (attrCased prop) propKey) out
       /\ In (attribute (":" ++ attrCased prop) propKey) out
       /\ In (attribute ("v-bind:" ++ attrCased prop) propKey) out)
    /\ (forall event,
          In event (getEventsOfTag vueSourceFile tag) ->
          let propKey :=
            createInternalItemId componentEvent [tag; attrCased event] in
          In (attribute ("v-on:" ++ attrCased event) propKey) out
          /\ In (attribute ("@" ++ attrCased event) propKey) out)
    /\ (In "update:modelValue" (getEventsOfTag vueSourceFile tag) ->
        In (attribute "v-model"
              (createInternalItemId componentProp
                 [tag; attrCased "modelValue"])) out).
Proof.
  intros tag out Hmain H.
  destruct (mainTsFile vueSourceFile) as [fileName|] eqn:Em;
    [clear Hmain | now elim Hmain].
  destruct (provideAttributes_parts _ _ _ Em H)
    as (dirs & ofProps & _ & Hp & ->).
  split; [|split].
  - intros prop Hin. cbv zeta.
    apply (proj2 (setOf_spec _)) in Hin.
    destruct (propsAttributes_incl _ _ _ _ prop Hp) as (x & Hx & Hincl);
      [apply in_or_app; now left|].
    destruct (propAttributes_own _ _ _ _ Hx Hin) as (H1 & H2 & H3).
    repeat split; apply in_or_app; right; apply in_or_app; left;
      now apply Hincl.
  - intros event Hin. cbv zeta. rewrite !in_app_iff, !in_flat_map.
    split; right; right; left; exists event; cbn [In]; auto.
  - intros Hin. rewrite !in_app_iff. right. right. right.
    apply in_flat_map. exists (false, "modelValue"). split.
    + apply in_or_app. right. apply in_flat_map.
      exists "update:modelValue". split; [exact Hin | now left].
    + cbn. now right; left.
Qed.

End Facts.

(** *** An instance: the tag of a button component *)

Definition buttonSource : VueSourceFile :=
  {| vueFile := {| template := None;
                   componentNames := ["MyButton"; "Transition"] |};
     sfc := {| script := None;
               scriptSetup :=
                 Some {| content := "import MyIcon from './MyIcon.vue'" |} |};
     mainTsFile := Some "Widget.vue.ts" |}.

Definition buttonCasing : Casing :=
  {| tag := TagNameCasing.Kebab; attr := Kebab |}.

Definition buttonAttributes : Throwing.result (list AttributeData) :=
  provideAttributes kebab
    (fun _ _ => ["id"])
    (fun _ tag => if tag =? "my-button" then ["size"; "onClick"] else [])
    (fun _ tag => if tag =? "my-button" then ["update:modelValue"] else [])
    (fun _ => None)
    (fun _ => Some {| scriptRanges := None; scriptSetupRanges := None |})
    buttonCasing buttonSource "my-button".

Definition buttonOffered : list AttributeData :=
  Eval vm_compute in
    match buttonAttributes with
    | Ok out => out
    | Throw => []
    end.

Example buttonTags :
  provideTags kebab
    (fun _ => {| bindings := [ {| bindingStart := 7; bindingEnd := 13 |} ] |})
    buttonCasing buttonSource
  = [ {| tagName := "my-button"; attributes := [] |};
      {| tagName := "my-icon"; attributes := [] |} ].
Proof. reflexivity. Qed.

Example buttonOffered_names :
  map name buttonOffered
  = [ "size"; ":size"; "v-bind:size";
      "v-on:click"; "@click"; "on-click"; ":on-click"; "v-bind:on-click";
      "id"; ":id"; "v-bind:id";
      "v-on:update:model-value"; "@update:model-value";
      "v-model:model-value"; "v-model" ].
Proof. reflexivity. Qed.

Lemma descriptions_are_item_ids_witness :
  Forall
    (fun attribute =>
       exists item,
         afterHtmlCompletionItem kebab ["my-button"]
           {| label := name attribute; kind := Some 10;
              documentation := description attribute; sortText := None |}
         = Ok item)
    buttonOffered.
Proof.
  eapply Forall_impl;
    [|apply (descriptions_are_item_ids kebab kebab
               (fun _ _ => ["id"])
               (fun _ tag =>
                  if tag =? "my-button" then ["size"; "onClick"] else [])
               (fun _ tag =>
                  if tag =? "my-button" then ["update:modelValue"] else [])
               (fun _ => None)
               (fun _ => Some {| scriptRanges := None;
                                 scriptSetupRanges := None |})
               buttonCasing buttonSource "my-button");
      vm_compute; reflexivity].
  intros attribute [_ H]. apply H.
Defined.

Lemma props_and_events_offered_witness :
  In (attribute "v-bind:size" "__VLS_::componentProp::my-button,size")
    buttonOffered
  /\ In (attribute "@update:model-value"
           "__VLS_::componentEvent::my-button,update:model-value")
       buttonOffered
  /\ In (attribute "v-model" "__VLS_::componentProp::my-button,model-value")
       buttonOffered.
Proof.
  destruct (props_and_events_offered kebab
              (fun _ _ => ["id"])
              (fun _ tag =>
                 if tag =? "my-button" then ["size"; "onClick"] else [])
              (fun _ tag =>
                 if tag =? "my-button" then ["update:modelValue"] else [])
              (fun _ => None)
              (fun _ => Some {| scriptRanges := None;
                                scriptSetupRanges := None |})
              buttonCasing buttonSource "my-button" buttonOffered)
    as (Hprops & Hevents & Hmodel).
  - discriminate.
  - vm_compute. reflexivity.
  - split; [|split].
    + apply (Hprops "size"). now left.
    + apply (Hevents "update:modelValue"). now left.
    + apply Hmodel. now left.
Defined.

End HtmlData.
